(** * pgbar: a shallow embedding of [include/pgbar/pgbar.hpp]

    The development follows the header top to bottom: the counter
    ([__detail::counter_iterator]), the synchronous refresh driver
    ([singlethread]), the field formatters, the line assembler
    ([generate_barcode]), the render routine ([rendering]) and the public
    methods of the [pgbar] class.

    Conventions of the embedding.
    - [SizeT] is a 64-bit unsigned integer: a [Z] in [0, 2^64) whose
      arithmetic is wrapped explicitly with [wrap].
    - Time points and durations are counted in nanoseconds (the tick of
      [std::chrono::system_clock] in libstdc++); every call of
      [system_clock::now()] consumes one reading of a clock oracle.
    - [double] quantities are modelled by exact rationals ([Q]).  The
      concrete evaluations below go through fractions and quotients that
      binary64 represents exactly (quarters, whole numbers), and through
      comparisons that are far from their thresholds.  Three places are
      exact only on a part of their domain:
      [log10_plus_one] is the code's value for totals below
      [log10_exact_bound]; the proportion [current / total] of [rendering]
      is the code's for a total that is not zero (the code divides two
      [double]s, and [0.0 / 0.0] is a NaN whose conversion is undefined),
      up to the rounding of binary64 in the test against one hundredth;
      [Str.to_string_double] prints the digits of the exact rational,
      which has the length of the text [printf] gives for the binary64
      value and may differ from it in a digit.
    - A [std::string] cannot be longer than [Str.max_size]; the
      constructors, [reserve] and [append] of the library raise
      [std::length_error] beyond.  [Str.fill], [bulk_copy] and [++] build
      the string of any length: they are the code's for sizes up to
      [Str.max_size].
    - [std::string] is [string]; [std::bitset<8>] is a [Z] read with
      [Z.testbit].
    - Function-local [static] variables of the member templates live in
      [globals]: one copy per template instantiation, shared by every
      [pgbar<StreamObj, RenderMode>] object of that instantiation.
    - The refresh driver modelled is [singlethread]; the [multithread]
      driver runs the same [rendering] closure from a worker thread and is
      outside a sequential embedding.
    - [formatter] has two bodies, chosen by [__PGBAR_CXX20__]: one calls
      [std::format], the other is written by hand.  The hand-written
      (pre C++20) body is the one modelled.  The two give the same text
      for [txt_layout::align_left] and [txt_layout::align_right], and
      texts of the same width for [txt_layout::align_center] (the rate
      and the countdown): there, for an odd number of blanks, the
      hand-written body puts the extra blank on the left and
      [std::format] puts it on the right.  The [style] bundle and
      [set_style( style )], which exist in the C++20 build only, are
      modelled beside it.
    - [stream_] holds the frames the object itself has written to the
      stream it refers to.  Copy and move are modelled on the data
      members; a copy starts with nothing written, and what a move leaves
      in its source is not modelled. *)

From Stdlib Require Import ZArith QArith Qround String Ascii List Bool Lia.
From Stdlib Require Decimal DecimalFacts DecimalPos DecimalN DecimalString Lqa.
Import ListNotations.

Local Open Scope string_scope.
Local Open Scope Z_scope.

(* ------------------------------------------------------------------ *)
(** ** namespace [__detail] *)

Module Detail.

(** [using SizeT = size_t] *)
Definition SizeT_modulus : Z := 2 ^ 64.
Definition SizeT_max : Z := SizeT_modulus - 1.
Definition wrap (z : Z) : Z := z mod SizeT_modulus.
Definition in_SizeT (z : Z) : Prop := 0 <= z < SizeT_modulus.

(** Durations, in nanoseconds. *)
Definition microseconds (n : Z) : Z := n * 1000.
Definition milliseconds (n : Z) : Z := n * 1000000.
Definition seconds (n : Z) : Z := n * 1000000000.

(** [constexpr std::chrono::microseconds reflash_rate
      = std::chrono::microseconds( 35 );] *)
Definition reflash_rate : Z := microseconds 35.

(** [class counter_iterator] *)
Record counter_iterator : Type := mk_counter {
  num_tasks_ : Z;
  step_ : Z;
  current_ : Z
}.

(** [counter_iterator( _tasks, _each_step )] *)
Definition counter_new (_tasks _each_step : Z) : counter_iterator :=
  mk_counter _tasks _each_step 0.

(** [end()]: a copy whose [current_] is [num_tasks_]. *)
Definition end_ (c : counter_iterator) : counter_iterator :=
  mk_counter (num_tasks_ c) (step_ c) (num_tasks_ c).

(** [operator*] *)
Definition deref (c : counter_iterator) : Z := current_ c.

(** [is_ended]: [current_ >= num_tasks_ || num_tasks_ - current_ < step_],
    the right operand being evaluated only when the left one is false. *)
Definition is_ended (c : counter_iterator) : bool :=
  if num_tasks_ c <=? current_ c then true
  else wrap (num_tasks_ c - current_ c) <? step_ c.

(** Unsigned subtraction that reports a wrap below zero instead of
    performing it. *)
Definition checked_sub (a b : Z) : option Z :=
  if b <=? a then Some (a - b) else None.

(** [is_ended] again, evaluated with [checked_sub]: [None] means that the
    evaluation reached a subtraction that wraps. *)
Definition is_ended_checked (c : counter_iterator) : option bool :=
  if num_tasks_ c <=? current_ c then Some true
  else match checked_sub (num_tasks_ c) (current_ c) with
       | Some d => Some (d <? step_ c)
       | None => None
       end.

(** [operator==( value_type )], [operator!=( value_type )] *)
Definition eq_value (c : counter_iterator) (_num : Z) : bool :=
  current_ c =? _num.
Definition neq_value (c : counter_iterator) (_num : Z) : bool :=
  negb (eq_value c _num).

(** [operator++]: [current_ += step_] *)
Definition pre_increment (c : counter_iterator) : counter_iterator :=
  mk_counter (num_tasks_ c) (step_ c) (wrap (current_ c + step_ c)).

(** [operator+=( _increment )] *)
Definition add_assign (c : counter_iterator) (_increment : Z)
  : counter_iterator :=
  mk_counter (num_tasks_ c) (step_ c)
    (if num_tasks_ c <? wrap (current_ c + _increment) then num_tasks_ c
     else wrap (current_ c + _increment)).

(** [operator=( const counter_iterator& )] *)
Definition assign_counter (_lhs : counter_iterator) : counter_iterator :=
  mk_counter (num_tasks_ _lhs) (step_ _lhs) 0.

(** [operator=( value_type )] *)
Definition assign_value (c : counter_iterator) (_num : Z)
  : counter_iterator :=
  mk_counter (num_tasks_ c) (step_ c) _num.

Definition set_step (c : counter_iterator) (_step : Z) : counter_iterator :=
  mk_counter (num_tasks_ c) _step (current_ c).

Definition set_task (c : counter_iterator) (_tasks : Z) : counter_iterator :=
  mk_counter _tasks (step_ c) (current_ c).

End Detail.

(* ------------------------------------------------------------------ *)
(** ** [std::string] and [std::to_string] *)

Module Str.
Import Detail.

Definition size (s : string) : Z := Z.of_nat (String.length s).

Fixpoint replicate (n : nat) (c : ascii) : string :=
  match n with
  | O => EmptyString
  | S k => String c (replicate k c)
  end.

(** [StrT( n, ch )] *)
Definition fill (n : Z) (c : ascii) : string := replicate (Z.to_nat n) c.

(** [std::to_string] of an unsigned or non-negative integer. *)
Definition to_string (n : Z) : string :=
  DecimalString.NilZero.string_of_uint (N.to_uint (Z.to_N n)).

(** [str.find( '.' )]: the position of the first occurrence, or [npos]. *)
Definition find (s : string) (c : ascii) : Z :=
  match index 0 (String c EmptyString) s with
  | Some i => Z.of_nat i
  | None => SizeT_max
  end.

(** [str.resize( n )]: truncates, or pads with the null character. *)
Definition resize (s : string) (n : Z) : string :=
  if n <=? size s then substring 0 (Z.to_nat n) s
  else s ++ fill (n - size s) Ascii.zero.

(** Nearest integer, ties to even: the rounding of [printf]. *)
Definition round_half_even (q : Q) : Z :=
  let f := Qfloor q in
  match Qcompare (q - inject_Z f) (1 # 2) with
  | Lt => f
  | Gt => f + 1
  | Eq => if Z.even f then f else f + 1
  end.

(** [std::string::max_size()] of libstdc++ on a 64-bit target:
    [( PTRDIFF_MAX - 1 ) / 2].  A string that would be longer is not
    built: [std::length_error] is raised. *)
Definition max_size : Z := 2 ^ 62 - 1.

(** [std::round]: nearest integer, ties away from zero. *)
Definition std_round (q : Q) : Z :=
  match Qcompare q 0 with
  | Lt => - Qfloor (- q + (1 # 2))
  | _ => Qfloor (q + (1 # 2))
  end.

(** [std::to_string( double )], the format ["%f"]: six decimals, of the
    exact rational, rounded half to even.  The text has the length of the
    one [printf] gives for the binary64 value; a digit can differ. *)
Definition to_string_double (val : Q) : string :=
  let n := round_half_even (val * inject_Z 1000000) in
  let a := Z.abs n in
  let frac := to_string (a mod 1000000) in
  (if n <? 0 then "-" else EmptyString) ++
  to_string (a / 1000000) ++ "." ++
  fill (6 - size frac) "0" ++ frac.

End Str.

(* ------------------------------------------------------------------ *)
(** ** [class bad_pgbar] *)

Record bad_pgbar : Type := mk_bad_pgbar { what : string }.

Definition full_bar_error : bad_pgbar :=
  mk_bad_pgbar "bad_pgbar: updating a full progress bar".
Definition zero_tasks_error : bad_pgbar :=
  mk_bad_pgbar "bad_pgbar: the number of tasks is zero".
Definition zero_step_error : bad_pgbar :=
  mk_bad_pgbar "bad_pgbar: zero step_".

(** The two error kinds under which the exceptions of the header fall. *)
Inductive error_kind : Type := InvalidConfig | InvalidState.

Definition kind_of (e : bad_pgbar) : error_kind :=
  if String.eqb (what e) (what full_bar_error) then InvalidState
  else InvalidConfig.

(* ------------------------------------------------------------------ *)
(** ** [struct style] *)

Module Style.
(** [using Type = uint8_t] and the field masks. *)
Definition bar : Z := Z.shiftl 1 0.
Definition percentage : Z := Z.shiftl 1 1.
Definition task_counter : Z := Z.shiftl 1 2.
Definition rate : Z := Z.shiftl 1 3.
Definition countdown : Z := Z.shiftl 1 4.
Definition entire : Z := 255.

(** The escape character and the colour macros (colours enabled). *)
Definition esc : ascii := Ascii.ascii_of_nat 27.
Definition PGBAR_BOLD : string := String esc "[1m".
Definition PGBAR_CYAN : string := String esc "[36m".
Definition PGBAR_DEFAULT_COL : string := String esc "[0m".
Definition dye_none : string := EmptyString.
Definition dye_cyan : string := PGBAR_CYAN.

(** The all-optional bundle of the C++20 build. *)
Record t : Type := mk_style {
  total_tasks : Datatypes.option Z;
  each_setp : Datatypes.option Z;
  option : Datatypes.option Z;
  todo_char : Datatypes.option string;
  done_char : Datatypes.option string;
  todo_color : Datatypes.option string;
  done_color : Datatypes.option string;
  startpoint : Datatypes.option string;
  endpoint : Datatypes.option string;
  left_status : Datatypes.option string;
  right_status : Datatypes.option string;
  status_color : Datatypes.option string;
  bar_length : Datatypes.option Z
}.
End Style.

(* ------------------------------------------------------------------ *)
(** ** [class singlethread]: the data members *)

Record singlethread : Type := mk_singlethread {
  active_flag_ : bool;
  last_invoke_ : Z
}.

(* ------------------------------------------------------------------ *)
(** ** [class pgbar]: the data members *)

(** One statement [stream_ << info.first << info.second] appends one
    frame: the erase prefix and the composed line. *)
Definition frame : Type := (string * string)%type.

Record pgbar : Type := mk_pgbar {
  update_flag_ : bool;
  rndrer_ : singlethread;
  stream_ : list frame;
  option_ : Z;
  todo_col_ : string;
  done_col_ : string;
  status_col_ : string;
  todo_ch_ : string;
  done_ch_ : string;
  startpoint_ : string;
  endpoint_ : string;
  lstatus_ : string;
  rstatus_ : string;
  task_cnt_ : Detail.counter_iterator;
  bar_length_ : Z;
  cnt_length_ : Z;
  status_length_ : Z;
  in_tty_ : bool
}.

(** The function-local statics: [done_flag], [last_bar_progress_],
    [invoke_interval] and [first_invoked] of [rendering], and the
    [invoke_interval] of [show_rate]; with them the clock oracle of
    [system_clock::now()] and the number of readings consumed. *)
Record globals : Type := mk_globals {
  clock : nat -> Z;
  reads : nat;
  done_flag : bool;
  last_bar_progress_ : Q;
  invoke_interval : Z;
  first_invoked : Z;
  rate_invoke_interval : Z
}.

(** What a member function runs on: the statics and [*this]. *)
Record ctx : Type := mk_ctx {
  statics : globals;
  self : pgbar
}.

(** Zero-initialised statics. *)
Definition globals_init (clk : nat -> Z) : globals :=
  mk_globals clk 0%nat false 0%Q 0 0 0.

(** *** Field updates *)

Definition with_update_flag (v : bool) (b : pgbar) : pgbar :=
  mk_pgbar v (rndrer_ b) (stream_ b) (option_ b) (todo_col_ b) (done_col_ b)
    (status_col_ b) (todo_ch_ b) (done_ch_ b) (startpoint_ b) (endpoint_ b)
    (lstatus_ b) (rstatus_ b) (task_cnt_ b) (bar_length_ b) (cnt_length_ b)
    (status_length_ b) (in_tty_ b).
Definition with_rndrer (v : singlethread) (b : pgbar) : pgbar :=
  mk_pgbar (update_flag_ b) v (stream_ b) (option_ b) (todo_col_ b)
    (done_col_ b) (status_col_ b) (todo_ch_ b) (done_ch_ b) (startpoint_ b)
    (endpoint_ b) (lstatus_ b) (rstatus_ b) (task_cnt_ b) (bar_length_ b)
    (cnt_length_ b) (status_length_ b) (in_tty_ b).
Definition with_stream (v : list frame) (b : pgbar) : pgbar :=
  mk_pgbar (update_flag_ b) (rndrer_ b) v (option_ b) (todo_col_ b)
    (done_col_ b) (status_col_ b) (todo_ch_ b) (done_ch_ b) (startpoint_ b)
    (endpoint_ b) (lstatus_ b) (rstatus_ b) (task_cnt_ b) (bar_length_ b)
    (cnt_length_ b) (status_length_ b) (in_tty_ b).
Definition with_option (v : Z) (b : pgbar) : pgbar :=
  mk_pgbar (update_flag_ b) (rndrer_ b) (stream_ b) v (todo_col_ b)
    (done_col_ b) (status_col_ b) (todo_ch_ b) (done_ch_ b) (startpoint_ b)
    (endpoint_ b) (lstatus_ b) (rstatus_ b) (task_cnt_ b) (bar_length_ b)
    (cnt_length_ b) (status_length_ b) (in_tty_ b).
Definition with_todo_col (v : string) (b : pgbar) : pgbar :=
  mk_pgbar (update_flag_ b) (rndrer_ b) (stream_ b) (option_ b) v
    (done_col_ b) (status_col_ b) (todo_ch_ b) (done_ch_ b) (startpoint_ b)
    (endpoint_ b) (lstatus_ b) (rstatus_ b) (task_cnt_ b) (bar_length_ b)
    (cnt_length_ b) (status_length_ b) (in_tty_ b).
Definition with_done_col (v : string) (b : pgbar) : pgbar :=
  mk_pgbar (update_flag_ b) (rndrer_ b) (stream_ b) (option_ b) (todo_col_ b)
    v (status_col_ b) (todo_ch_ b) (done_ch_ b) (startpoint_ b)
    (endpoint_ b) (lstatus_ b) (rstatus_ b) (task_cnt_ b) (bar_length_ b)
    (cnt_length_ b) (status_length_ b) (in_tty_ b).
Definition with_status_col (v : string) (b : pgbar) : pgbar :=
  mk_pgbar (update_flag_ b) (rndrer_ b) (stream_ b) (option_ b) (todo_col_ b)
    (done_col_ b) v (todo_ch_ b) (done_ch_ b) (startpoint_ b)
    (endpoint_ b) (lstatus_ b) (rstatus_ b) (task_cnt_ b) (bar_length_ b)
    (cnt_length_ b) (status_length_ b) (in_tty_ b).
Definition with_todo_ch (v : string) (b : pgbar) : pgbar :=
  mk_pgbar (update_flag_ b) (rndrer_ b) (stream_ b) (option_ b) (todo_col_ b)
    (done_col_ b) (status_col_ b) v (done_ch_ b) (startpoint_ b)
    (endpoint_ b) (lstatus_ b) (rstatus_ b) (task_cnt_ b) (bar_length_ b)
    (cnt_length_ b) (status_length_ b) (in_tty_ b).
Definition with_done_ch (v : string) (b : pgbar) : pgbar :=
  mk_pgbar (update_flag_ b) (rndrer_ b) (stream_ b) (option_ b) (todo_col_ b)
    (done_col_ b) (status_col_ b) (todo_ch_ b) v (startpoint_ b)
    (endpoint_ b) (lstatus_ b) (rstatus_ b) (task_cnt_ b) (bar_length_ b)
    (cnt_length_ b) (status_length_ b) (in_tty_ b).
Definition with_startpoint (v : string) (b : pgbar) : pgbar :=
  mk_pgbar (update_flag_ b) (rndrer_ b) (stream_ b) (option_ b) (todo_col_ b)
    (done_col_ b) (status_col_ b) (todo_ch_ b) (done_ch_ b) v
    (endpoint_ b) (lstatus_ b) (rstatus_ b) (task_cnt_ b) (bar_length_ b)
    (cnt_length_ b) (status_length_ b) (in_tty_ b).
Definition with_endpoint (v : string) (b : pgbar) : pgbar :=
  mk_pgbar (update_flag_ b) (rndrer_ b) (stream_ b) (option_ b) (todo_col_ b)
    (done_col_ b) (status_col_ b) (todo_ch_ b) (done_ch_ b) (startpoint_ b)
    v (lstatus_ b) (rstatus_ b) (task_cnt_ b) (bar_length_ b)
    (cnt_length_ b) (status_length_ b) (in_tty_ b).
Definition with_lstatus (v : string) (b : pgbar) : pgbar :=
  mk_pgbar (update_flag_ b) (rndrer_ b) (stream_ b) (option_ b) (todo_col_ b)
    (done_col_ b) (status_col_ b) (todo_ch_ b) (done_ch_ b) (startpoint_ b)
    (endpoint_ b) v (rstatus_ b) (task_cnt_ b) (bar_length_ b)
    (cnt_length_ b) (status_length_ b) (in_tty_ b).
Definition with_rstatus (v : string) (b : pgbar) : pgbar :=
  mk_pgbar (update_flag_ b) (rndrer_ b) (stream_ b) (option_ b) (todo_col_ b)
    (done_col_ b) (status_col_ b) (todo_ch_ b) (done_ch_ b) (startpoint_ b)
    (endpoint_ b) (lstatus_ b) v (task_cnt_ b) (bar_length_ b)
    (cnt_length_ b) (status_length_ b) (in_tty_ b).
Definition with_task_cnt (v : Detail.counter_iterator) (b : pgbar) : pgbar :=
  mk_pgbar (update_flag_ b) (rndrer_ b) (stream_ b) (option_ b) (todo_col_ b)
    (done_col_ b) (status_col_ b) (todo_ch_ b) (done_ch_ b) (startpoint_ b)
    (endpoint_ b) (lstatus_ b) (rstatus_ b) v (bar_length_ b)
    (cnt_length_ b) (status_length_ b) (in_tty_ b).
Definition with_bar_length (v : Z) (b : pgbar) : pgbar :=
  mk_pgbar (update_flag_ b) (rndrer_ b) (stream_ b) (option_ b) (todo_col_ b)
    (done_col_ b) (status_col_ b) (todo_ch_ b) (done_ch_ b) (startpoint_ b)
    (endpoint_ b) (lstatus_ b) (rstatus_ b) (task_cnt_ b) v
    (cnt_length_ b) (status_length_ b) (in_tty_ b).
Definition with_cnt_length (v : Z) (b : pgbar) : pgbar :=
  mk_pgbar (update_flag_ b) (rndrer_ b) (stream_ b) (option_ b) (todo_col_ b)
    (done_col_ b) (status_col_ b) (todo_ch_ b) (done_ch_ b) (startpoint_ b)
    (endpoint_ b) (lstatus_ b) (rstatus_ b) (task_cnt_ b) (bar_length_ b)
    v (status_length_ b) (in_tty_ b).
Definition with_status_length (v : Z) (b : pgbar) : pgbar :=
  mk_pgbar (update_flag_ b) (rndrer_ b) (stream_ b) (option_ b) (todo_col_ b)
    (done_col_ b) (status_col_ b) (todo_ch_ b) (done_ch_ b) (startpoint_ b)
    (endpoint_ b) (lstatus_ b) (rstatus_ b) (task_cnt_ b) (bar_length_ b)
    (cnt_length_ b) v (in_tty_ b).

Definition with_reads (v : nat) (s : globals) : globals :=
  mk_globals (clock s) v (done_flag s) (last_bar_progress_ s)
    (invoke_interval s) (first_invoked s) (rate_invoke_interval s).
Definition with_done_flag (v : bool) (s : globals) : globals :=
  mk_globals (clock s) (reads s) v (last_bar_progress_ s)
    (invoke_interval s) (first_invoked s) (rate_invoke_interval s).
Definition with_last_bar_progress (v : Q) (s : globals) : globals :=
  mk_globals (clock s) (reads s) (done_flag s) v
    (invoke_interval s) (first_invoked s) (rate_invoke_interval s).
Definition with_invoke_interval (v : Z) (s : globals) : globals :=
  mk_globals (clock s) (reads s) (done_flag s) (last_bar_progress_ s)
    v (first_invoked s) (rate_invoke_interval s).
Definition with_first_invoked (v : Z) (s : globals) : globals :=
  mk_globals (clock s) (reads s) (done_flag s) (last_bar_progress_ s)
    (invoke_interval s) v (rate_invoke_interval s).
Definition with_rate_invoke_interval (v : Z) (s : globals) : globals :=
  mk_globals (clock s) (reads s) (done_flag s) (last_bar_progress_ s)
    (invoke_interval s) (first_invoked s) v.

(* ------------------------------------------------------------------ *)
(** ** Member functions as state transformers that may throw *)

(** [Throw] is a C++ exception; [Fault] is an integer division by zero,
    on which the program has no defined behaviour. *)
Inductive outcome (A : Type) : Type :=
| Ok (a : A)
| Throw (e : bad_pgbar)
| Fault.
Arguments Ok {A} a.
Arguments Throw {A} e.
Arguments Fault {A}.

(** A thrown exception keeps the state reached at the [throw]. *)
Definition M (A : Type) : Type := ctx -> outcome A * ctx.

Definition ret {A} (a : A) : M A := fun s => (Ok a, s).
Definition bind {A B} (m : M A) (k : A -> M B) : M B :=
  fun s => match m s with
           | (Ok a, s') => k a s'
           | (Throw e, s') => (Throw e, s')
           | (Fault, s') => (Fault, s')
           end.
Definition throw {A} (e : bad_pgbar) : M A := fun s => (Throw e, s).

(** An integer division: [Fault] on a zero divisor. *)
Definition checked_div (a b : Z) : M Z :=
  fun s => if b =? 0 then (Fault, s) else (Ok (a / b), s).

Declare Scope pgbar_scope.
Delimit Scope pgbar_scope with pgbar.
Notation "x <- m ;; k" := (bind m (fun x => k))
  (at level 61, m at next level, right associativity) : pgbar_scope.
Notation "m ;; k" := (bind m (fun _ => k))
  (at level 61, right associativity) : pgbar_scope.
Local Open Scope pgbar_scope.

Definition this : M pgbar := fun s => (Ok (self s), s).
Definition the_statics : M globals := fun s => (Ok (statics s), s).
Definition modify_this (f : pgbar -> pgbar) : M unit :=
  fun s => (Ok tt, mk_ctx (statics s) (f (self s))).
Definition modify_statics (f : globals -> globals) : M unit :=
  fun s => (Ok tt, mk_ctx (f (statics s)) (self s)).

(** [std::chrono::system_clock::now()] *)
Definition now : M Z :=
  fun s => (Ok (clock (statics s) (reads (statics s))),
            mk_ctx (with_reads (S (reads (statics s))) (statics s)) (self s)).

(** [when c m]: [if ( c ) m;] *)
Definition when (c : bool) (m : M unit) : M unit :=
  if c then m else ret tt.

(* ------------------------------------------------------------------ *)
(** ** [class singlethread]: the member functions

    The driver is a member of the bar ([rndrer_]) and its task is the
    closure [[this]() { this->rendering(); }]. *)

Section Singlethread.
Variable task : M unit.

Definition set_active_flag (v : bool) : M unit :=
  modify_this (fun b =>
    with_rndrer (mk_singlethread v (last_invoke_ (rndrer_ b))) b).
Definition set_last_invoke (v : Z) : M unit :=
  modify_this (fun b =>
    with_rndrer (mk_singlethread (active_flag_ (rndrer_ b)) v) b).

Definition active : M unit :=
  b <- this ;;
  if active_flag_ (rndrer_ b) then ret tt
  else
    t <- now ;;
    set_last_invoke t ;;
    task ;;
    set_active_flag true.

Definition suspend : M unit :=
  b <- this ;;
  if negb (active_flag_ (rndrer_ b)) then ret tt
  else
    task ;;
    set_active_flag false.

Definition render : M unit :=
  b <- this ;;
  if negb (active_flag_ (rndrer_ b)) then ret tt
  else
    current_time <- now ;;
    if current_time - last_invoke_ (rndrer_ b) <? Detail.reflash_rate
    then ret tt
    else
      set_last_invoke current_time ;;
      task.
End Singlethread.

(* ------------------------------------------------------------------ *)
(** ** [class pgbar]: constants and formatters *)

Inductive txt_layout : Type := align_left | align_right | align_center.

(** [enum bit_index] *)
Module bit_index.
Definition bar : Z := 0.
Definition per : Z := 1.
Definition cnt : Z := 2.
Definition rate : Z := 3.
Definition timer : Z := 4.
End bit_index.

Definition blank : ascii := " "%char.
Definition backspace : ascii := Ascii.ascii_of_nat 8.
Definition ratio_len : Z := Str.size "100.00%".
Definition time_len : Z := Str.size "9.9m < 9.9m".
Definition rate_len : Z := Str.size "999.99 kHz".
Definition division : string := " | ".
Definition font_fmt : string := Style.PGBAR_BOLD.
Definition default_col : string := Style.PGBAR_DEFAULT_COL.

(** Comparison of two [double]s. *)
Definition Qltb (x y : Q) : bool := negb (Qle_bool y x).

(** [formatter<_style>( _width, _str )], the hand-written body under
    [#else] of [#if __PGBAR_CXX20__].  [StrT( n, blank )] is [Str.fill],
    the code's for [n <= Str.max_size]. *)
Definition formatter (_style : txt_layout) (_width : Z) (_str : string)
  : string :=
  if _width =? 0 then EmptyString
  else if _width <=? Str.size _str then _str
  else
    let str_size := Str.size _str in
    match _style with
    | align_right => Str.fill (_width - str_size) blank ++ _str
    | align_left => _str ++ Str.fill (_width - str_size) blank
    | align_center =>
        let _width := _width - Str.size _str in
        let r_blank := _width / 2 in
        Str.fill (_width - r_blank) blank ++ _str ++ Str.fill r_blank blank
    end.

Fixpoint append_times (n : nat) (src : string) : string :=
  match n with
  | O => EmptyString
  | S k => src ++ append_times k src
  end.

(** [bulk_copy( _time, _src )]: [reserve] and [_time] calls of [append].
    The code's for [_time * _src.size() <= Str.max_size]; beyond, [reserve]
    raises [std::length_error]. *)
Definition bulk_copy (_time : Z) (_src : string) : string :=
  if (_time =? 0) || (Str.size _src =? 0) then EmptyString
  else append_times (Z.to_nat _time) _src.

Definition is_updated (b : pgbar) : bool := update_flag_ b.

Definition is_done (b : pgbar) : bool :=
  is_updated b && Detail.is_ended (task_cnt_ b).

(** [show_bar( num_per )].  The product [bar_length_ * num_per] is exact
    here; in binary64 it is rounded, which keeps it between [0] and
    [bar_length_] for [bar_length_ < 2^53] and [0 <= num_per <= 1]. *)
Definition show_bar (b : pgbar) (num_per : Q) : string :=
  let done_len := Str.std_round (inject_Z (bar_length_ b) * num_per) in
  startpoint_ b ++
  done_col_ b ++ bulk_copy done_len (done_ch_ b) ++
  todo_col_ b ++ bulk_copy (Detail.wrap (bar_length_ b - done_len)) (todo_ch_ b) ++
  Style.PGBAR_DEFAULT_COL ++ endpoint_ b ++
  Str.fill 1 blank.

Definition show_percentage (b : pgbar) (num_per : Q) : string :=
  if negb (is_updated b) then formatter align_left ratio_len "0.00%"
  else
    let proportion := Str.to_string_double (num_per * inject_Z 100) in
    let proportion :=
      Str.resize proportion (Detail.wrap (Str.find proportion "."%char + 3)) in
    formatter align_right ratio_len (proportion ++ "%").

Definition show_task_counter (b : pgbar) (num_done : Z) : string :=
  let total_str := Str.to_string (Detail.deref (Detail.end_ (task_cnt_ b))) in
  let size := Str.size total_str in
  formatter align_right size (Str.to_string num_done) ++ "/" ++ total_str.

(** The lambda [splice] of [show_rate]: two decimals. *)
Definition splice2 (val : Q) : string :=
  let str := Str.to_string_double val in
  Str.resize str (Detail.wrap (Str.find str "."%char + 3)).

(** The lambda [splice] of [show_countdown]: one decimal. *)
Definition splice1 (val : Q) : string :=
  let str := Str.to_string_double val in
  Str.resize str (Detail.wrap (Str.find str "."%char + 2)).

(** The smoothing step of [show_rate] on its static [invoke_interval]. *)
Definition rate_average (old interval : Z) : Z :=
  Detail.wrap (old + interval) / 2.

(** [duration / duration], the unsigned division of [show_rate]:
    [None] stands for a division by zero. *)
Definition duration_div (a b : Z) : option Z :=
  if b =? 0 then None else Some (a / b).

(** The frequency of [show_rate]; the division is guarded by the test
    [invoke_interval.count() != 0]. *)
Definition rate_frequency (avg : Z) : option Z :=
  if negb (avg =? 0) then duration_div (Detail.seconds 1) avg
  else Some Detail.SizeT_max.

Definition rate_text (frequency : Z) : string :=
  let f := inject_Z frequency in
  if Qltb f (inject_Z 1000) then splice2 f ++ " Hz"
  else if Qltb f (inject_Z 1000000) then
    splice2 (f / inject_Z 1000) ++ " kHz"
  else if Qltb f (inject_Z 1000000000) then
    splice2 (f / inject_Z 1000000) ++ " MHz"
  else
    let temp := (f / inject_Z 1000000000)%Q in
    if Qltb (99999 # 100) temp then "> 1.00 GHz"
    else splice2 temp ++ " GHz".

(** [show_rate]: the string, and the new value of the static
    [invoke_interval]; [None] if the evaluation divides by zero. *)
Definition show_rate (b : pgbar) (interval : Z) (avg : Z)
  : Datatypes.option (string * Z) :=
  if negb (is_updated b) then
    Some (formatter align_center rate_len "0.00 Hz", 0)
  else
    let avg' := rate_average avg interval in
    match rate_frequency avg' with
    | Some frequency =>
        Some (formatter align_center rate_len (rate_text frequency), avg')
    | None => None
    end.

(** The lambda [to_time] of [show_countdown]. *)
Definition to_time (sec : Z) : string :=
  if sec <? 60 then Str.to_string sec ++ "s"
  else if sec <? 60 * 9 then
    splice1 (inject_Z sec / inject_Z 60) ++ "m"
  else if sec <? 60 * 60 then Str.to_string (sec / 60) ++ "m"
  else if sec <? 60 * 60 * 9 then
    splice1 (inject_Z sec / inject_Z (60 * 60)) ++ "h"
  else if 60 * 60 * 99 <? sec then "99h"
  else Str.to_string (sec / (60 * 60)) ++ "h".

(** [duration_cast<seconds>( d ).count()] of an unsigned nanosecond count. *)
Definition to_seconds (d : Z) : Z := d / 1000000000.

Definition show_countdown (b : pgbar) (interval : Z) (num_done : Z)
  : string :=
  if negb (is_updated b) then formatter align_center time_len "0s < 99h"
  else
    let total := Detail.deref (Detail.end_ (task_cnt_ b)) in
    formatter align_center time_len
      (to_time (to_seconds (Detail.wrap (interval * num_done))) ++
       " < " ++
       to_time (to_seconds
                  (Detail.wrap (interval * Detail.wrap (total - num_done))))).

(* ------------------------------------------------------------------ *)
(** ** The line assembler *)

(** The local [total_length] of [generate_barcode]. *)
Definition total_length (b : pgbar) (ctrller : Z) : Z :=
  let total_length := 0 in
  let total_length :=
    if Z.testbit ctrller bit_index.bar then
      Detail.wrap (total_length +
                   (bar_length_ b + Str.size (startpoint_ b) +
                    Str.size (endpoint_ b) + 1))
    else total_length in
  let total_length :=
    if negb (status_length_ b =? 0) then
      Detail.wrap (total_length + status_length_ b)
    else total_length in
  total_length.

(** The local [progress_bar] of [generate_barcode], up to the rate field,
    and after it. *)
Definition progress_bar_head (b : pgbar) (ctrller : Z) (num_per : Q)
    (num_done : Z) : string :=
  let progress_bar := EmptyString in
  let progress_bar :=
    if Z.testbit ctrller bit_index.bar then
      progress_bar ++ show_bar b num_per
    else progress_bar in
  let progress_bar :=
    if negb (status_length_ b =? 0) then
      progress_bar ++ (font_fmt ++ status_col_ b ++ lstatus_ b)
    else progress_bar in
  let progress_bar :=
    if Z.testbit ctrller bit_index.per then
      progress_bar ++
      (if Z.testbit ctrller bit_index.cnt || Z.testbit ctrller bit_index.rate
          || Z.testbit ctrller bit_index.timer
       then show_percentage b num_per ++ division
       else show_percentage b num_per)
    else progress_bar in
  let progress_bar :=
    if Z.testbit ctrller bit_index.cnt then
      progress_bar ++
      (if Z.testbit ctrller bit_index.rate || Z.testbit ctrller bit_index.timer
       then show_task_counter b num_done ++ division
       else show_task_counter b num_done)
    else progress_bar in
  progress_bar.

Definition progress_bar_tail (b : pgbar) (ctrller : Z) (interval : Z)
    (progress_bar : string) : string :=
  let progress_bar :=
    if Z.testbit ctrller bit_index.timer then
      progress_bar ++
      show_countdown b interval (Detail.deref (task_cnt_ b))
    else progress_bar in
  let progress_bar :=
    if negb (status_length_ b =? 0) then
      progress_bar ++ (rstatus_ b ++ default_col)
    else progress_bar in
  progress_bar.

(** [generate_barcode]: the pair (erase prefix, line) and the new value of
    the static of [show_rate]; [None] if [show_rate] divides by zero. *)
Definition generate_barcode (b : pgbar) (ctrller : Z) (num_per : Q)
    (num_done : Z) (interval : Z) (avg : Z)
  : Datatypes.option (frame * Z) :=
  let progress_bar := progress_bar_head b ctrller num_per num_done in
  let rate_field :=
    if Z.testbit ctrller bit_index.rate then
      match show_rate b interval avg with
      | Some (txt, avg') =>
          Some (progress_bar ++
                (if Z.testbit ctrller bit_index.timer then txt ++ division
                 else txt), avg')
      | None => None
      end
    else Some (progress_bar, avg) in
  match rate_field with
  | Some (progress_bar, avg') =>
      Some ((if is_updated b
             then Str.fill (total_length b ctrller) backspace
             else EmptyString,
             progress_bar_tail b ctrller interval progress_bar), avg')
  | None => None
  end.

(* ------------------------------------------------------------------ *)
(** ** [pgbar::rendering] *)

Definition call_generate_barcode (ctrller : Z) (num_per : Q) (num_done : Z)
    (interval : Z) : M frame :=
  fun s =>
    match generate_barcode (self s) ctrller num_per num_done interval
            (rate_invoke_interval (statics s)) with
    | Some (info, avg') =>
        (Ok info, mk_ctx (with_rate_invoke_interval avg' (statics s)) (self s))
    | None => (Fault, s)
    end.

(** [stream_ << info.first << info.second] *)
Definition write (info : frame) : M unit :=
  modify_this (fun b => with_stream (stream_ b ++ [info])%list b).

Definition newline : string := String (Ascii.ascii_of_nat 10) EmptyString.

(** The lambda [rendering] of the constructor.  [num_percent] is the
    exact quotient [current / total]: the code's [double] for a total that
    is not zero, up to the rounding of binary64, which can move the test
    [num_percent - last_bar_progress_ < 0.01] at its threshold.  The
    calls of [show_bar] and [bulk_copy] below are the code's as long as
    the strings stay within [Str.max_size], which asks for
    [current <= total]. *)
Definition rendering : M unit :=
  b <- this ;;
  when (negb (is_updated b))
    (modify_statics (with_done_flag false) ;;
     modify_statics (with_last_bar_progress 0%Q) ;;
     when (in_tty_ b)
       (modify_statics (with_invoke_interval 0) ;;
        t <- now ;;
        modify_statics (with_first_invoked t) ;;
        info <- call_generate_barcode (option_ b) 0%Q 0 0 ;;
        write info) ;;
     modify_this (with_update_flag true)) ;;
  st <- the_statics ;;
  if done_flag st then ret tt
  else
    b <- this ;;
    when (in_tty_ b)
      (t <- now ;;
       st <- the_statics ;;
       let elapsed := Detail.wrap (t - first_invoked st) in
       interval <-
         (if Detail.neq_value (task_cnt_ b) 0
          then checked_div elapsed (Detail.deref (task_cnt_ b))
          else checked_div elapsed 1) ;;
       modify_statics (with_invoke_interval interval) ;;
       let num_percent :=
         (inject_Z (Detail.deref (task_cnt_ b)) /
          inject_Z (Detail.deref (Detail.end_ (task_cnt_ b))))%Q in
       controller <-
         (if Qltb (num_percent - last_bar_progress_ st) (1 # 100)
          then ret (Z.clearbit (option_ b) bit_index.bar)
          else modify_statics (with_last_bar_progress num_percent) ;;
               ret (option_ b)) ;;
       info <- call_generate_barcode controller num_percent
                 (Detail.deref (task_cnt_ b)) interval ;;
       write info) ;;
    b <- this ;;
    when (is_done b)
      (when (in_tty_ b)
         (st <- the_statics ;;
          info <- call_generate_barcode (option_ b) 1%Q
                    (Detail.deref (Detail.end_ (task_cnt_ b)))
                    (invoke_interval st) ;;
          write (fst info, snd info ++ newline)) ;;
       modify_statics (with_done_flag true)).

(* ------------------------------------------------------------------ *)
(** ** [class pgbar]: construction *)

(** [log10_plus_one] below is exact up to this total.  A [double] holds
    every integer below [2^53] and [std::log10] is exact at the powers of
    ten; below [10^12] the logarithm of a number that is not a power of
    ten is more than [4 * 10^-13] away from the next integer, two hundred
    times the spacing of binary64 there, so that the rounded logarithm
    has the same integer part. *)
Definition log10_exact_bound : Z := 10 ^ 12.

(** [static_cast<SizeT>( std::log10( n ) + 1 )]: the number of decimal
    digits of [n], for [1 <= n < log10_exact_bound].  Further up the
    binary64 logarithm of a number just below a power of ten rounds to
    the next integer and the code's value is one more than the number of
    digits ([16] for [999999999999999]); this is not modelled.  For
    [n = 0] the logarithm is minus infinity and the conversion has no
    defined result; the value taken is the one x86-64 produces. *)
Definition log10_plus_one (n : Z) : Z :=
  if n =? 0 then 2 ^ 63 else Str.size (Str.to_string n).

Definition bool_to_Z (c : bool) : Z := if c then 1 else 0.

(** The value [init_length] gives to [status_length_]. *)
Definition status_length_of (_self : pgbar) : Z :=
  let opt := option_ _self in
  let status_length :=
    (if Z.testbit opt bit_index.per then ratio_len else 0) +
    (if Z.testbit opt bit_index.cnt then cnt_length_ _self else 0) +
    (if Z.testbit opt bit_index.rate then rate_len else 0) +
    (if Z.testbit opt bit_index.timer then time_len else 0) in
  let status_length := Detail.wrap status_length in
  if negb (status_length =? 0) then
    let status_length :=
      Detail.wrap (status_length + (Str.size (lstatus_ _self) +
                                    Str.size (rstatus_ _self))) in
    let status_num :=
      bool_to_Z (Z.testbit opt bit_index.per) +
      bool_to_Z (Z.testbit opt bit_index.cnt) +
      bool_to_Z (Z.testbit opt bit_index.rate) +
      bool_to_Z (Z.testbit opt bit_index.timer) in
    Detail.wrap (status_length +
                 (if 1 <? status_num
                  then (status_num - 1) * Str.size division else 0))
  else status_length.

Definition init_length (update_cnt_len : bool) (_self : pgbar) : pgbar :=
  let _self :=
    if update_cnt_len then
      with_cnt_length
        (Detail.wrap
           (Detail.wrap
              (log10_plus_one (Detail.deref (Detail.end_ (task_cnt_ _self)))
               * 2) + 1)) _self
    else _self in
  with_status_length (status_length_of _self) _self.

(** The private constructor [pgbar( StreamObj* )]; [tty] is the result of
    [check_output_stream]. *)
Definition pgbar_stream (tty : bool) : pgbar :=
  mk_pgbar false (mk_singlethread false 0) [] Style.entire
    EmptyString EmptyString EmptyString EmptyString EmptyString EmptyString EmptyString EmptyString EmptyString (Detail.counter_new 0 0) 30 1 0 tty.

(** [pgbar( _total_tsk, _each_step, _ostream )] *)
Definition pgbar_new (_total_tsk _each_step : Z) (tty : bool) : pgbar :=
  let b := pgbar_stream tty in
  let b := with_todo_col Style.dye_none b in
  let b := with_done_col Style.dye_none b in
  let b := with_status_col Style.dye_cyan b in
  let b := with_todo_ch (Str.fill 1 blank) b in
  let b := with_done_ch (Str.fill 1 "-"%char) b in
  let b := with_startpoint (Str.fill 1 "["%char) b in
  let b := with_endpoint (Str.fill 1 "]"%char) b in
  let b := with_lstatus "[ " b in
  let b := with_rstatus " ]" b in
  let b :=
    with_task_cnt
      (Detail.assign_counter (Detail.counter_new _total_tsk _each_step)) b in
  init_length true b.

(* ------------------------------------------------------------------ *)
(** ** [class pgbar]: the public member functions *)

Definition do_update (invokable : M unit) : M unit :=
  b <- this ;;
  if is_done b then throw full_bar_error
  else if Detail.eq_value (Detail.end_ (task_cnt_ b)) 0
  then throw zero_tasks_error
  else
    when (negb (is_updated b)) (active rendering) ;;
    invokable ;;
    render rendering ;;
    b <- this ;;
    when (Detail.is_ended (task_cnt_ b)) (suspend rendering).

(** [void update()] *)
Definition update : M unit :=
  do_update
    (modify_this (fun b => with_task_cnt (Detail.pre_increment (task_cnt_ b)) b)).

(** [void update( SizeT next_step )] *)
Definition update_n (next_step : Z) : M unit :=
  do_update
    (modify_this (fun b =>
       with_task_cnt (Detail.add_assign (task_cnt_ b) next_step) b)).

Definition reset : M unit :=
  b <- this ;;
  if negb (is_updated b) then ret tt
  else
    modify_this (fun b => with_task_cnt (Detail.assign_value (task_cnt_ b) 0) b) ;;
    suspend rendering ;;
    modify_this (with_update_flag false).

Definition set_step (_step : Z) : M unit :=
  b <- this ;;
  if is_updated b then ret tt
  else if _step =? 0 then throw zero_step_error
  else modify_this (fun b => with_task_cnt (Detail.set_step (task_cnt_ b) _step) b).

Definition set_task (_total_tsk : Z) : M unit :=
  b <- this ;;
  if is_updated b then ret tt
  else if _total_tsk =? 0 then throw zero_tasks_error
  else
    modify_this (fun b =>
      with_task_cnt (Detail.set_task (task_cnt_ b) _total_tsk) b) ;;
    modify_this (init_length true).

Definition set_done (_done_ch : string) : M unit :=
  b <- this ;;
  when (negb (is_updated b)) (modify_this (with_done_ch _done_ch)).

Definition set_todo (_todo_ch : string) : M unit :=
  b <- this ;;
  when (negb (is_updated b)) (modify_this (with_todo_ch _todo_ch)).

Definition set_startpoint (_startpoint : string) : M unit :=
  b <- this ;;
  when (negb (is_updated b)) (modify_this (with_startpoint _startpoint)).

Definition set_endpoint (_endpoint : string) : M unit :=
  b <- this ;;
  when (negb (is_updated b)) (modify_this (with_endpoint _endpoint)).

Definition set_lstatus (_lstatus : string) : M unit :=
  b <- this ;;
  when (negb (is_updated b)) (modify_this (with_lstatus _lstatus)) ;;
  modify_this (init_length false).

Definition set_rstatus (_rstatus : string) : M unit :=
  b <- this ;;
  when (negb (is_updated b)) (modify_this (with_rstatus _rstatus)) ;;
  modify_this (init_length false).

Definition set_bar_length (_length : Z) : M unit :=
  b <- this ;;
  when (negb (is_updated b)) (modify_this (with_bar_length _length)).

Definition set_todo_col (_dye : string) : M unit :=
  b <- this ;;
  when (negb (is_updated b)) (modify_this (with_todo_col _dye)).

Definition set_done_col (_dye : string) : M unit :=
  b <- this ;;
  when (negb (is_updated b)) (modify_this (with_done_col _dye)).

Definition set_status_col (_dye : string) : M unit :=
  b <- this ;;
  when (negb (is_updated b)) (modify_this (with_status_col _dye)).

(** [set_style( style::Type _selection )]: the [uint8_t] initialises the
    [std::bitset<8>]. *)
Definition set_style (_selection : Z) : M unit :=
  b <- this ;;
  when (negb (is_updated b)) (modify_this (with_option (_selection mod 256))) ;;
  modify_this (init_length false).

Definition or_keep {A} (o : Datatypes.option A) (keep : A) : A :=
  match o with
  | Some v => v
  | None => keep
  end.

(** The assignments of [set_style( style _selection )]: an unset field
    keeps the member. *)
Definition apply_style (_selection : Style.t) (b : pgbar) : pgbar :=
  let b := with_option
             (or_keep (option_map (fun v => v mod 256)
                         (Style.option _selection)) (option_ b)) b in
  let b := with_todo_col
             (or_keep (Style.todo_color _selection) (todo_col_ b)) b in
  let b := with_done_col
             (or_keep (Style.done_color _selection) (done_col_ b)) b in
  let b := with_status_col
             (or_keep (Style.status_color _selection) (status_col_ b)) b in
  let b := with_todo_ch
             (or_keep (Style.todo_char _selection) (todo_ch_ b)) b in
  let b := with_done_ch
             (or_keep (Style.done_char _selection) (done_ch_ b)) b in
  let b := with_startpoint
             (or_keep (Style.startpoint _selection) (startpoint_ b)) b in
  let b := with_endpoint
             (or_keep (Style.endpoint _selection) (endpoint_ b)) b in
  let b := with_lstatus
             (or_keep (Style.left_status _selection) (lstatus_ b)) b in
  let b := with_rstatus
             (or_keep (Style.right_status _selection) (rstatus_ b)) b in
  let b :=
    match Style.total_tasks _selection with
    | Some v => with_task_cnt (Detail.set_task (task_cnt_ b) v) b
    | None => b
    end in
  let b :=
    match Style.each_setp _selection with
    | Some v => with_task_cnt (Detail.set_step (task_cnt_ b) v) b
    | None => b
    end in
  with_bar_length (or_keep (Style.bar_length _selection) (bar_length_ b)) b.

(** [set_style( style _selection )] of the C++20 build. *)
Definition set_style_bundle (_selection : Style.t) : M unit :=
  b <- this ;;
  if is_updated b then ret tt
  else
    modify_this (apply_style _selection) ;;
    modify_this (init_length true).

(** *** Running a program of calls *)

(** The state in which a freshly constructed bar starts: zero-initialised
    statics and the clock [clk]. *)
Definition start (clk : nat -> Z) (b : pgbar) : ctx :=
  mk_ctx (globals_init clk) b.

(** Runs [m] and keeps the state, whether or not it threw (the caller
    catches the exception). *)
Definition exec {A} (m : M A) (s : ctx) : ctx := snd (m s).

(** [n] calls of [update()] in a row, with the outcome of each. *)
Fixpoint updates (n : nat) (s : ctx) : list (outcome unit) * ctx :=
  match n with
  | O => ([], s)
  | S k =>
      let '(rs, s1) := updates k s in
      let '(r, s2) := update s1 in
      ((rs ++ [r])%list, s2)
  end.

(** The calls of the public interface. *)
Inductive call : Type :=
| CUpdate
| CUpdateN (next_step : Z)
| CReset
| CSetStep (_step : Z)
| CSetTask (_total_tsk : Z)
| CSetDone (_done_ch : string)
| CSetTodo (_todo_ch : string)
| CSetStartpoint (_startpoint : string)
| CSetEndpoint (_endpoint : string)
| CSetLstatus (_lstatus : string)
| CSetRstatus (_rstatus : string)
| CSetBarLength (_length : Z)
| CSetTodoCol (_dye : string)
| CSetDoneCol (_dye : string)
| CSetStatusCol (_dye : string)
| CSetStyle (_selection : Z)
| CSetStyleBundle (_selection : Style.t).

Definition run_call (c : call) : M unit :=
  match c with
  | CUpdate => update
  | CUpdateN n => update_n n
  | CReset => reset
  | CSetStep n => set_step n
  | CSetTask n => set_task n
  | CSetDone v => set_done v
  | CSetTodo v => set_todo v
  | CSetStartpoint v => set_startpoint v
  | CSetEndpoint v => set_endpoint v
  | CSetLstatus v => set_lstatus v
  | CSetRstatus v => set_rstatus v
  | CSetBarLength n => set_bar_length n
  | CSetTodoCol v => set_todo_col v
  | CSetDoneCol v => set_done_col v
  | CSetStatusCol v => set_status_col v
  | CSetStyle v => set_style v
  | CSetStyleBundle v => set_style_bundle v
  end.

(** The configuration setters: every call but [update] and [reset]. *)
Definition is_setter (c : call) : bool :=
  match c with
  | CUpdate | CUpdateN _ | CReset => false
  | _ => true
  end.

(** The two forms of [update]. *)
Definition is_advance (c : call) : bool :=
  match c with
  | CUpdate | CUpdateN _ => true
  | _ => false
  end.

(** A sequence of calls, the caller catching what they throw. *)
Fixpoint run_calls (cs : list call) (s : ctx) : ctx :=
  match cs with
  | [] => s
  | c :: rest => run_calls rest (exec (run_call c) s)
  end.

(** The states a bar goes through: constructed by [pgbar( total, step )]
    under any value of the statics, then driven by calls. *)
Inductive reachable : ctx -> Prop :=
| reach_new : forall (g : globals) (_total_tsk _each_step : Z) (tty : bool),
    reachable (mk_ctx g (pgbar_new _total_tsk _each_step tty))
| reach_call : forall (s : ctx) (c : call),
    reachable s -> reachable (exec (run_call c) s).

(** *** Observations used by the statements *)

Definition current (s : ctx) : Z := Detail.current_ (task_cnt_ (self s)).
Definition total (s : ctx) : Z := Detail.num_tasks_ (task_cnt_ (self s)).
Definition step (s : ctx) : Z := Detail.step_ (task_cnt_ (self s)).

(** The counter invariant [current <= total]. *)
Definition counter_bounded (s : ctx) : Prop := current s <= total s.

(** [ceil( T / S )] *)
Definition ceil_div (T S : Z) : Z := (T + S - 1) / S.

(** "[is_done()] becomes true after exactly [n] calls of [update()]":
    it is false after fewer calls and true after [n] or more. *)
Definition finishes_after_exactly (s : ctx) (n : Z) : Prop :=
  forall k : nat,
    is_done (self (snd (updates k s))) = (n <=? Z.of_nat k).

(** The number of columns a string takes on the terminal: characters
    outside the escape sequences [ESC ... m], control characters apart. *)
Fixpoint printed_width_from (in_escape : bool) (s : string) : nat :=
  match s with
  | EmptyString => 0%nat
  | String c rest =>
      if in_escape then
        printed_width_from (negb (Ascii.eqb c "m"%char)) rest
      else if Ascii.eqb c Style.esc then printed_width_from true rest
      else if (Ascii.nat_of_ascii c <? 32)%nat then
        printed_width_from false rest
      else S (printed_width_from false rest)
  end.

Definition printed_width (s : string) : nat := printed_width_from false s.

(** "The erase prefix of every frame has as many backspaces as the previous
    frame was wide, and the first frame has none." *)
Fixpoint erase_matches_previous (previous_width : nat) (frames : list frame)
  : Prop :=
  match frames with
  | [] => True
  | f :: rest =>
      String.length (fst f) = previous_width /\
      erase_matches_previous (printed_width (snd f)) rest
  end.

Definition erase_prefix_claim (frames : list frame) : Prop :=
  erase_matches_previous 0%nat frames.

(** The invariant that [init_length] establishes: [status_length_] is the
    value [init_length] computes from the other members. *)
Definition status_length_ok (b : pgbar) : Prop :=
  status_length_ b = status_length_of b.

(* ------------------------------------------------------------------ *)
(** ** Two bars of one instantiation [pgbar<StreamObj, singlethread>]

    Each object has its data members; the function-local statics exist
    once. *)

Record program : Type := mk_program {
  shared : globals;
  bar_a : pgbar;
  bar_b : pgbar
}.

Inductive which : Type := BarA | BarB.

Definition other (i : which) : which :=
  match i with
  | BarA => BarB
  | BarB => BarA
  end.

Definition get_bar (i : which) (w : program) : pgbar :=
  match i with
  | BarA => bar_a w
  | BarB => bar_b w
  end.

(** Calls a member function on the bar [i]. *)
Definition on {A} (i : which) (m : M A) (w : program) : outcome A * program :=
  let '(r, s) := m (mk_ctx (shared w) (get_bar i w)) in
  (r, match i with
      | BarA => mk_program (statics s) (self s) (bar_b w)
      | BarB => mk_program (statics s) (bar_a w) (self s)
      end).

(** The render state: the done flag, the last bar progress, the per-step
    interval and the rolling rate average, the first-invoked time. *)
Definition render_state (g : globals) : bool * Q * Z * Z * Z :=
  (done_flag g, last_bar_progress_ g, invoke_interval g,
   rate_invoke_interval g, first_invoked g).

(** What a call on bar [i] adds to its output. *)
Definition output_of (i : which) (m : M unit) (w : program) : list frame :=
  skipn (List.length (stream_ (get_bar i w)))
        (stream_ (get_bar i (snd (on i m w)))).

(** "A call [m] on one bar changes neither the render state nor what a
    later call [m'] on the other bar prints." *)
Definition isolated_at (w : program) (i : which) (m m' : M unit) : Prop :=
  render_state (shared (snd (on i m w))) = render_state (shared w) /\
  output_of (other i) m' (snd (on i m w)) = output_of (other i) m' w.

(* ------------------------------------------------------------------ *)
(** ** Reasoning about member functions *)

(** [hoare P m Q]: from a state in [P], [m] returns normally (it neither
    throws nor faults) in a state in [Q]. *)
Definition hoare {A} (P : ctx -> Prop) (m : M A) (Q : A -> ctx -> Prop)
  : Prop :=
  forall s, P s -> exists a s', m s = (Ok a, s') /\ Q a s'.

(** A bar without what [rendering] writes: the started flag and the
    output. *)
Definition core_of (b : pgbar) : pgbar :=
  with_stream [] (with_update_flag false b).

(** A bar without its run-time members: the style configuration alone. *)
Definition style_of (b : pgbar) : pgbar :=
  with_rndrer (mk_singlethread false 0)
    (with_task_cnt (Detail.counter_new 0 0) (core_of b)).

(** The invariant of the states a bar goes through. *)
Definition bar_inv (b : pgbar) : Prop :=
  status_length_ok b /\
  (update_flag_ b = true -> Detail.num_tasks_ (task_cnt_ b) <> 0) /\
  (update_flag_ b = false -> active_flag_ (rndrer_ b) = false).

(** A statement about the bar that survives what [rendering] and the
    driver write: the output, the started flag once set, the driver. *)
Definition render_stable (J : pgbar -> Prop) : Prop :=
  (forall b v, J b -> J (with_stream v b)) /\
  (forall b, J b -> J (with_update_flag true b)) /\
  (forall b v, J b -> J (with_rndrer v b)).

(** Statements about [*this] alone. *)
Definition on_self (J : pgbar -> Prop) : ctx -> Prop := fun s => J (self s).

(* ------------------------------------------------------------------ *)
(** ** Concrete runs *)

(** A clock that gives the listed readings and then stays at the last. *)
Definition clock_of (readings : list Z) : nat -> Z :=
  fun n => nth n readings (last readings 0).

(** A clock that advances one millisecond between two readings. *)
Definition clock_1ms : nat -> Z :=
  fun n => Detail.milliseconds (Z.of_nat n).

(** [pgbar bar( 4, 1 )] on a terminal, after its first [update()]. *)
Definition first_update_frames : list frame :=
  stream_ (self (exec update (start clock_1ms (pgbar_new 4 1 true)))).

(** Two bars on a terminal, [a( 1, 1 )] and [b( 4, 1 )], just constructed. *)
Definition fresh_bars : program :=
  mk_program (globals_init clock_1ms) (pgbar_new 1 1 true) (pgbar_new 4 1 true).

(** The same after one [update()] of [b]. *)
Definition two_bars : program := snd (on BarB update fresh_bars).

(** The statics that one [update()] of [a] leaves from [fresh_bars], [a]
    being finished by it, with the done flag cleared. *)
Definition cleared_statics : globals :=
  with_done_flag false (shared (snd (on BarA update fresh_bars))).

(** The frames that one [update()] of [pgbar bar( 4, 1 )] prints when the
    driver's [render()] reads the clock [elapsed] nanoseconds after
    [active()] did. *)
Definition frames_after (elapsed : Z) : list frame :=
  stream_ (self (exec update
                   (start (clock_of [0; 0; 0; elapsed])
                      (pgbar_new 4 1 true)))).

(** What a sequence of [update] calls maintains when the step fits in the
    total. *)
Definition fits (T S : Z) (b : pgbar) : Prop :=
  Detail.num_tasks_ (task_cnt_ b) = T /\
  Detail.step_ (task_cnt_ b) = S /\
  0 <= Detail.current_ (task_cnt_ b) <= T /\
  (update_flag_ b = false ->
   Detail.current_ (task_cnt_ b) = 0 /\ active_flag_ (rndrer_ b) = false).

(* ------------------------------------------------------------------ *)
(** ** Two runs side by side *)

(** [rhoare P m1 m2 Q]: from two states related by [P], [m1] and [m2]
    both return normally, in states and with results related by [Q]. *)
Definition rhoare {A} (P : ctx -> ctx -> Prop) (m1 m2 : M A)
    (Q : A -> A -> ctx -> ctx -> Prop) : Prop :=
  forall s1 s2, P s1 s2 ->
    exists a1 a2 s1' s2',
      m1 s1 = (Ok a1, s1') /\ m2 s2 = (Ok a2, s2') /\ Q a1 a2 s1' s2'.

(** Two states with the same bar and the same clock. *)
Definition agree_core (s1 s2 : ctx) : Prop :=
  self s1 = self s2 /\
  clock (statics s1) = clock (statics s2) /\
  reads (statics s1) = reads (statics s2).

(** The statics that a started bar reads: the done flag and, on a
    terminal, the progress and timing statics, the rate average counting
    only when the rate field is enabled. *)
Definition agree_statics (s1 s2 : ctx) : Prop :=
  done_flag (statics s1) = done_flag (statics s2) /\
  (in_tty_ (self s1) = true ->
   last_bar_progress_ (statics s1) = last_bar_progress_ (statics s2) /\
   invoke_interval (statics s1) = invoke_interval (statics s2) /\
   first_invoked (statics s1) = first_invoked (statics s2) /\
   (Z.testbit (option_ (self s1)) bit_index.rate = true ->
    rate_invoke_interval (statics s1) = rate_invoke_interval (statics s2))).

(** Two states that differ at most in statics that the bar will not read:
    all of the render state while the bar has not started. *)
Definition agree (s1 s2 : ctx) : Prop :=
  agree_core s1 s2 /\
  (update_flag_ (self s1) = true -> agree_statics s1 s2).

(** Two states of a started bar that agree. *)
Definition started_agree (s1 s2 : ctx) : Prop :=
  agree_core s1 s2 /\ agree_statics s1 s2 /\ update_flag_ (self s1) = true.

(** While a first render of the bar [b] initialises the statics; [tty_done]
    tells whether the statics of the terminal branch are written. *)
Definition starting_agree (b : pgbar) (tty_done : bool) (s1 s2 : ctx) : Prop :=
  agree_core s1 s2 /\ with_stream [] (self s1) = with_stream [] b /\
  done_flag (statics s1) = done_flag (statics s2) /\
  last_bar_progress_ (statics s1) = last_bar_progress_ (statics s2) /\
  (tty_done = true ->
   invoke_interval (statics s1) = invoke_interval (statics s2) /\
   first_invoked (statics s1) = first_invoked (statics s2) /\
   (Z.testbit (option_ b) bit_index.rate = true ->
    rate_invoke_interval (statics s1) = rate_invoke_interval (statics s2))).

(** Two states of the started bar [b], up to its output, that agree. *)
Definition running_agree (b : pgbar) (s1 s2 : ctx) : Prop :=
  started_agree s1 s2 /\ with_stream [] (self s1) = with_stream [] b.

(* ------------------------------------------------------------------ *)
(** ** The output and the driver *)

(** A statement about the bar that survives what [rendering] and the
    driver do to it: a frame appended to the output of a bar on a terminal,
    the started flag set, the driver written. *)
Definition output_stable (J : pgbar -> Prop) : Prop :=
  (forall b info, J b -> in_tty_ b = true ->
     J (with_stream (stream_ b ++ [info])%list b)) /\
  (forall b, J b -> J (with_update_flag true b)) /\
  (forall b v, J b -> J (with_rndrer v b)).

(** The driver runs exactly while the bar has started and its counter has
    not ended. *)
Definition driver_tracks (b : pgbar) : Prop :=
  active_flag_ (rndrer_ b)
  = is_updated b && negb (Detail.is_ended (task_cnt_ b)).

(** The bar [b'] is the bar [b] but for its output, which has grown, and
    on a terminal only. *)
Definition output_grown (b b' : pgbar) : Prop :=
  exists more,
    stream_ b' = (stream_ b ++ more)%list /\
    (in_tty_ b = false -> more = []).

(** Of the two bars [a( 1, 1 )] and [b( 4, 1 )]: the bar [b] after one
    [update()] of its own, under the statics that one [update()] of [a]
    then leaves, [a] being finished by it. *)
Definition overtaken_bar : ctx :=
  mk_ctx (shared (snd (on BarA update two_bars))) (bar_b two_bars).

(** The invariant that [init_length( _self, true )] establishes:
    [cnt_length_] is the value it computes from the total. *)
Definition cnt_length_ok (b : pgbar) : Prop :=
  cnt_length_ b = cnt_length_ (init_length true b).

(** The four status bits of a controller are those of [option_]; the bar
    bit may differ, [rendering] clearing it in the frames that leave the
    bar out. *)
Definition status_bits_agree (ctrller : Z) (b : pgbar) : Prop :=
  Z.testbit ctrller bit_index.per = Z.testbit (option_ b) bit_index.per /\
  Z.testbit ctrller bit_index.cnt = Z.testbit (option_ b) bit_index.cnt /\
  Z.testbit ctrller bit_index.rate = Z.testbit (option_ b) bit_index.rate /\
  Z.testbit ctrller bit_index.timer = Z.testbit (option_ b) bit_index.timer.

(** The characters of a line that are colour sequences: those around the
    bar when it is drawn, and those around the status when there is one. *)
Definition colour_length (b : pgbar) (ctrller : Z) : Z :=
  (if Z.testbit ctrller bit_index.bar
   then Str.size (done_col_ b) + Str.size (todo_col_ b)
        + Str.size Style.PGBAR_DEFAULT_COL
   else 0) +
  (if negb (status_length_ b =? 0)
   then Str.size font_fmt + Str.size (status_col_ b) + Str.size default_col
   else 0).

(* ------------------------------------------------------------------ *)
(** ** [class pgbar]: copy and move *)

(** [pod_copy( _to, _from )]: the counter is assigned with
    [counter_iterator::operator=( const counter_iterator& )]. *)
Definition pod_copy (_to _from : pgbar) : pgbar :=
  let _to := with_task_cnt (Detail.assign_counter (task_cnt_ _from)) _to in
  let _to := with_bar_length (bar_length_ _from) _to in
  let _to := with_cnt_length (cnt_length_ _from) _to in
  with_status_length (status_length_ _from) _to.

(** [npod_copy( _to, _from )] *)
Definition npod_copy (_to _from : pgbar) : pgbar :=
  let _to := with_option (option_ _from) _to in
  let _to := with_todo_col (todo_col_ _from) _to in
  let _to := with_done_col (done_col_ _from) _to in
  let _to := with_status_col (status_col_ _from) _to in
  let _to := with_todo_ch (todo_ch_ _from) _to in
  let _to := with_done_ch (done_ch_ _from) _to in
  let _to := with_startpoint (startpoint_ _from) _to in
  let _to := with_endpoint (endpoint_ _from) _to in
  let _to := with_lstatus (lstatus_ _from) _to in
  with_rstatus (rstatus_ _from) _to.

(** [npod_move( _to, _from )], as far as [_to] goes. *)
Definition npod_move (_to _from : pgbar) : pgbar := npod_copy _to _from.

(** [pgbar( const pgbar& _lhs )]; [tty] is the result of
    [check_output_stream] on the stream of [_lhs]. *)
Definition pgbar_copy (_lhs : pgbar) (tty : bool) : pgbar :=
  pod_copy (npod_copy (pgbar_stream tty) _lhs) _lhs.

(** [pgbar( pgbar&& _rhs )] *)
Definition pgbar_move (_rhs : pgbar) (tty : bool) : pgbar :=
  pod_copy (npod_move (pgbar_stream tty) _rhs) _rhs.

(** The right operand of an assignment: [*this] itself, or another bar. *)
Inductive operand : Type :=
| Itself
| Another (b : pgbar).

(** [operator=( const pgbar& _lhs )]; [this == &_lhs] holds when the
    operand is the bar itself. *)
Definition copy_assign (_lhs : operand) : M unit :=
  b <- this ;;
  match _lhs with
  | Itself => ret tt
  | Another _lhs =>
      if is_updated b then ret tt
      else modify_this (fun b => pod_copy (npod_copy b _lhs) _lhs)
  end.

(** [operator=( pgbar&& _rhs )] from another bar. *)
Definition move_assign (_rhs : pgbar) : M unit :=
  modify_this (fun b => pod_copy (npod_move b _rhs) _rhs).

(* ------------------------------------------------------------------ *)
(** ** The closing line *)

(** A frame whose line ends with the newline of the last render. *)
Definition closes_line (f : frame) : Prop :=
  exists line, snd f = line ++ newline.

(** An output whose last frame closes the line. *)
Definition closed (frames : list frame) : Prop :=
  exists older f, frames = (older ++ [f])%list /\ closes_line f.

(** What one render of a bar leaves: the bar is the same but for its
    output, which has grown, and it is started; the static [done_flag]
    tells whether the counter has ended; and if it has, on a terminal, the
    line is closed. *)
Definition rendered (s s' : ctx) : Prop :=
  core_of (self s') = core_of (self s) /\
  update_flag_ (self s') = true /\
  done_flag (statics s') = Detail.is_ended (task_cnt_ (self s)) /\
  output_grown (self s) (self s') /\
  (in_tty_ (self s) = true ->
   Detail.is_ended (task_cnt_ (self s)) = true ->
   closed (stream_ (self s'))).

(** A statement about the bar under a value of the static [done_flag]. *)
Definition under_done_flag (d : bool) (J : pgbar -> Prop) : ctx -> Prop :=
  fun s => J (self s) /\ done_flag (statics s) = d.

(** The bar [b] is the started bar [b0] after some renders: the same but
    for its output, which has grown, and started. *)
Definition rendered_from (b0 b : pgbar) : Prop :=
  core_of b = core_of b0 /\ update_flag_ b = true /\ output_grown b0 b.

(** A started bar in the middle of a call of [update]: its style is that
    of [b0], its counter is [c], its driver runs or not as [a] tells, its
    output is that of [b0] and more, the static [done_flag] is [d], and if
    the flag is set, on a terminal, the line is closed. *)
Definition at_render (b0 : pgbar) (c : Detail.counter_iterator) (a d : bool)
    (s : ctx) : Prop :=
  style_of (self s) = style_of b0 /\
  task_cnt_ (self s) = c /\
  update_flag_ (self s) = true /\
  active_flag_ (rndrer_ (self s)) = a /\
  output_grown b0 (self s) /\
  done_flag (statics s) = d /\
  (d = true -> in_tty_ b0 = true -> closed (stream_ (self s))).

(** What the static [done_flag] tells of a started bar, when no other bar
    writes it: whether the counter has ended; and when it is set, on a
    terminal, the line is closed. *)
Definition closing_inv (s : ctx) : Prop :=
  update_flag_ (self s) = true ->
  done_flag (statics s) = Detail.is_ended (task_cnt_ (self s)) /\
  (done_flag (statics s) = true -> in_tty_ (self s) = true ->
   closed (stream_ (self s))).

(** ** The limits of [double] and of [std::string]

    A [double] holds every integer up to [2^53]: a bar length below it is
    converted without rounding, and its product with a proportion between
    0 and 1, rounded, stays between 0 and the bar length. *)
Definition double_exact_bound : Z := 2 ^ 53.

(** An upper bound of the size of every string [show_bar] builds. *)
Definition bar_text_bound (b : pgbar) : Z :=
  Str.size (startpoint_ b) + Str.size (done_col_ b)
  + bar_length_ b * Str.size (done_ch_ b)
  + Str.size (todo_col_ b)
  + bar_length_ b * Str.size (todo_ch_ b)
  + Str.size Style.PGBAR_DEFAULT_COL + Str.size (endpoint_ b) + 1.

(** An upper bound of the size of every string [generate_barcode]
    builds for a total below [log10_exact_bound]: the bar, the two
    captions, the colour of the status and less than a hundred characters
    of fields, separators and colour sequences of fixed width. *)
Definition line_text_bound (b : pgbar) : Z :=
  bar_text_bound b + Str.size (lstatus_ b) + Str.size (rstatus_ b)
  + Str.size (status_col_ b) + 100.


(* ------------------------------------------------------------------ *)
(** ** The erase prefix of the frames a bar prints *)

(** The width [generate_barcode] erases before a frame drawn under the
    controller [ctrller]: the local [total_length], written out, for
    sizes that do not wrap.  The bar slot counts when the bar bit of the
    controller is set; the status length counts when it is not zero. *)
Definition erase_width (b : pgbar) (ctrller : Z) : Z :=
  (if Z.testbit ctrller bit_index.bar
   then bar_length_ b + Str.size (startpoint_ b) + Str.size (endpoint_ b) + 1
   else 0)
  + status_length_ b.

(** The frame [f] is what [rendering] writes of a call of
    [generate_barcode] on the bar [b] under the controller [ctrller]: the
    erase prefix and the line it returns, the line followed by the
    newline in the last frame of a bar. *)
Definition composed (b : pgbar) (ctrller : Z) (f : frame) : Prop :=
  exists num_per num_done interval avg line avg',
    generate_barcode b ctrller num_per num_done interval avg
    = Some ((fst f, line), avg') /\
    (snd f = line \/ snd f = line ++ newline).

(** The controllers of [rendering]: [option_], with its bar bit cleared
    in the frames that leave the bar out. *)
Definition controller_of (b : pgbar) (ctrller : Z) : Prop :=
  ctrller = option_ b \/ ctrller = Z.clearbit (option_ b) bit_index.bar.

(** The frame [f] is composed under the controller [ctrller] for a bar
    styled as [b0], started or not as [started] tells. *)
Definition drawn (b0 : pgbar) (started : bool) (ctrller : Z) (f : frame)
  : Prop :=
  exists b,
    style_of b = style_of b0 /\ is_updated b = started /\
    composed b ctrller f.

(** The first frame of a bar, composed before it has started: nothing is
    erased. *)
Definition first_frame (b0 : pgbar) (f : frame) : Prop :=
  fst f = EmptyString /\ drawn b0 false (option_ b0) f.

(** A frame composed once the bar has started: what is erased is the
    width of the fields enabled in the controller of this very frame. *)
Definition later_frame (b0 : pgbar) (f : frame) : Prop :=
  exists ctrller,
    controller_of b0 ctrller /\
    fst f = Str.fill (erase_width b0 ctrller) backspace /\
    drawn b0 true ctrller f.

(** The frames [more] that one call on the bar [b0] prints: all of them
    are later frames, but the first one if the bar had not started. *)
Definition erase_prefixes (b0 : pgbar) (more : list frame) : Prop :=
  match more with
  | [] => True
  | f0 :: rest =>
      (if is_updated b0 then later_frame b0 f0 else first_frame b0 f0) /\
      Forall (later_frame b0) rest
  end.

(** The sizes from which [total_length] is made do not wrap. *)
Definition erase_fits (b : pgbar) : Prop :=
  0 <= bar_length_ b /\ 0 <= status_length_ b /\
  bar_length_ b + Str.size (startpoint_ b) + Str.size (endpoint_ b) + 1
  + status_length_ b < Detail.SizeT_modulus.

(** A statement about a started bar that survives what [rendering] and
    the driver do to it: a frame of [rendering] appended to the output
    of a bar on a terminal, the driver written. *)
Definition frame_stable (J : pgbar -> Prop) : Prop :=
  (forall b ctrller f, J b -> in_tty_ b = true ->
     controller_of b ctrller -> composed b ctrller f ->
     J (with_stream (stream_ b ++ [f])%list b)) /\
  (forall b, J b -> update_flag_ b = true) /\
  (forall b v, J b -> J (with_rndrer v b)).

(** A started bar in the middle of a call on the bar [b0]: its style is
    that of [b0], its counter is [c], and its output is that of [b0]
    followed by frames that satisfy [F]. *)
Definition writing (b0 : pgbar) (F : list frame -> Prop)
    (c : Detail.counter_iterator) (b : pgbar) : Prop :=
  style_of b = style_of b0 /\ task_cnt_ b = c /\ update_flag_ b = true /\
  exists more,
    stream_ b = (stream_ b0 ++ more)%list /\
    (in_tty_ b0 = false -> more = []) /\ F more.

(** The frames of a call on a bar that had started, and on one that had
    not. *)
Definition later_frames (b0 : pgbar) (more : list frame) : Prop :=
  Forall (later_frame b0) more.

Definition first_and_later_frames (b0 : pgbar) (more : list frame) : Prop :=
  in_tty_ b0 = true ->
  exists f0 rest,
    more = f0 :: rest /\ first_frame b0 f0 /\ Forall (later_frame b0) rest.

(* ================================================================== *)
(** * Properties *)

(** ** Arithmetic of [SizeT] *)

Lemma wrap_small z : Detail.in_SizeT z -> Detail.wrap z = z.
Proof. unfold Detail.in_SizeT, Detail.wrap. intros H. now apply Z.mod_small. Qed.

Lemma wrap_range z : Detail.in_SizeT (Detail.wrap z).
Proof.
  unfold Detail.in_SizeT, Detail.wrap. apply Z.mod_pos_bound. reflexivity.
Qed.

(** ** The rules of [hoare] *)

Section HoareRules.
Context {A B : Type}.

Lemma hoare_ret (P : ctx -> Prop) (a : A) (Q : A -> ctx -> Prop) :
  (forall s, P s -> Q a s) -> hoare P (ret a) Q.
Proof. intros H s Hs. exists a, s. split; [reflexivity | auto]. Qed.

Lemma hoare_bind (P : ctx -> Prop) (m : M A) (R : A -> ctx -> Prop)
    (k : A -> M B) (Q : B -> ctx -> Prop) :
  hoare P m R -> (forall a, hoare (R a) (k a) Q) -> hoare P (bind m k) Q.
Proof.
  intros Hm Hk s Hs.
  destruct (Hm s Hs) as (a & s1 & E1 & H1).
  destruct (Hk a s1 H1) as (b & s2 & E2 & H2).
  exists b, s2. split; [| exact H2].
  unfold bind. rewrite E1. exact E2.
Qed.

Lemma hoare_conseq (P P' : ctx -> Prop) (m : M A) (Q Q' : A -> ctx -> Prop) :
  hoare P' m Q' -> (forall s, P s -> P' s) ->
  (forall a s, Q' a s -> Q a s) -> hoare P m Q.
Proof.
  intros Hm HP HQ s Hs.
  destruct (Hm s (HP s Hs)) as (a & s1 & E1 & H1).
  exists a, s1. auto.
Qed.
End HoareRules.

Lemma hoare_this (P : ctx -> Prop) :
  hoare P this (fun b s => P s /\ b = self s).
Proof. intros s Hs. exists (self s), s. auto. Qed.

Lemma hoare_the_statics (P : ctx -> Prop) :
  hoare P the_statics (fun g s => P s /\ g = statics s).
Proof. intros s Hs. exists (statics s), s. auto. Qed.

Lemma hoare_modify_this (P : ctx -> Prop) f (Q : unit -> ctx -> Prop) :
  (forall s, P s -> Q tt (mk_ctx (statics s) (f (self s)))) ->
  hoare P (modify_this f) Q.
Proof. intros H s Hs. eexists _, _. split; [reflexivity | auto]. Qed.

Lemma hoare_when (P : ctx -> Prop) (c : bool) m (Q : unit -> ctx -> Prop) :
  (c = true -> hoare P m Q) -> (c = false -> forall s, P s -> Q tt s) ->
  hoare P (when c m) Q.
Proof.
  intros Ht Hf. destruct c; simpl.
  - auto.
  - apply hoare_ret. auto.
Qed.

(** Statements about [*this] alone survive what touches only the statics. *)

Lemma hoare_modify_statics (J : pgbar -> Prop) f :
  hoare (on_self J) (modify_statics f) (fun _ => on_self J).
Proof. intros s Hs. eexists _, _. split; [reflexivity | exact Hs]. Qed.

Lemma hoare_now (J : pgbar -> Prop) :
  hoare (on_self J) now (fun _ => on_self J).
Proof. intros s Hs. eexists _, _. split; [reflexivity | exact Hs]. Qed.

Lemma hoare_statics (J : pgbar -> Prop) :
  hoare (on_self J) the_statics (fun _ => on_self J).
Proof. intros s Hs. eexists _, _. split; [reflexivity | exact Hs]. Qed.

Lemma hoare_self (J : pgbar -> Prop) :
  hoare (on_self J) this (fun _ => on_self J).
Proof. intros s Hs. eexists _, _. split; [reflexivity | exact Hs]. Qed.

Lemma hoare_checked_div (J : pgbar -> Prop) a b :
  b <> 0 -> hoare (on_self J) (checked_div a b) (fun _ => on_self J).
Proof.
  intros Hb s Hs. unfold checked_div.
  destruct (Z.eqb_spec b 0) as [E | _]; [contradiction |].
  eexists _, _. split; [reflexivity | exact Hs].
Qed.

(** ** The formatters never divide by zero *)

Lemma rate_frequency_some avg : exists f, rate_frequency avg = Some f.
Proof.
  unfold rate_frequency, duration_div.
  destruct (avg =? 0); simpl; eauto.
Qed.

Lemma show_rate_some b interval avg :
  exists txt,
    show_rate b interval avg
    = Some (txt, if is_updated b then rate_average avg interval else 0).
Proof.
  unfold show_rate.
  destruct (is_updated b); simpl.
  - destruct (rate_frequency_some (rate_average avg interval)) as [f ->].
    eauto.
  - eauto.
Qed.

Lemma generate_barcode_some b ctrller num_per num_done interval avg :
  exists line avg',
    generate_barcode b ctrller num_per num_done interval avg
    = Some ((if is_updated b then Str.fill (total_length b ctrller) backspace
             else EmptyString, line), avg').
Proof.
  unfold generate_barcode.
  destruct (Z.testbit ctrller bit_index.rate).
  - destruct (show_rate_some b interval avg) as [txt ->]. eauto.
  - eauto.
Qed.

Lemma hoare_call_generate_barcode (J : pgbar -> Prop) ctrller num_per
    num_done interval :
  hoare (on_self J) (call_generate_barcode ctrller num_per num_done interval)
    (fun _ => on_self J).
Proof.
  intros s Hs. unfold call_generate_barcode.
  destruct (generate_barcode_some (self s) ctrller num_per num_done interval
              (rate_invoke_interval (statics s))) as (line & avg' & ->).
  eexists _, _. split; [reflexivity | exact Hs].
Qed.

(** ** [rendering] *)

Lemma core_of_with_stream v b : core_of (with_stream v b) = core_of b.
Proof. reflexivity. Qed.

Lemma core_of_with_update_flag v b : core_of (with_update_flag v b) = core_of b.
Proof. reflexivity. Qed.

Lemma hoare_write (J : pgbar -> Prop) info :
  (forall b v, J b -> J (with_stream v b)) ->
  hoare (on_self J) (write info) (fun _ => on_self J).
Proof.
  intros HJ. apply hoare_modify_this. intros s Hs. apply HJ. exact Hs.
Qed.

Ltac hprim :=
  first [ apply hoare_modify_statics | apply hoare_now | apply hoare_statics
        | apply hoare_call_generate_barcode | apply hoare_self ].

Ltac hseq :=
  cbv beta; eapply hoare_bind; [ hprim | intros ?; cbv beta ].

(** [rendering] returns normally; it changes nothing of the bar but the
    output and the started flag, which it leaves set. *)
Lemma hoare_rendering (J : pgbar -> Prop) :
  (forall b v, J b -> J (with_stream v b)) ->
  (forall b, J b -> J (with_update_flag true b)) ->
  hoare (on_self J) rendering
    (fun _ => on_self (fun b => J b /\ update_flag_ b = true)).
Proof.
  intros Hw Hf. unfold rendering.
  eapply hoare_bind; [apply hoare_this | intros b].
  eapply hoare_bind
    with (R := fun _ => on_self (fun b => J b /\ update_flag_ b = true)).
  { apply hoare_when.
    - intros Hb.
      eapply hoare_conseq with (P' := on_self J)
        (Q' := fun _ => on_self (fun b => J b /\ update_flag_ b = true));
        [| intros s [Hs _]; exact Hs | auto].
      hseq. hseq.
      eapply hoare_bind with (R := fun _ => on_self J).
      + apply hoare_when; [intros _ | auto].
        hseq. hseq. hseq. hseq. apply hoare_write. exact Hw.
      + intros _. apply hoare_modify_this. intros s Hs.
        split; [apply Hf; exact Hs | reflexivity].
    - intros Hb s [Hs ->]. split; [exact Hs |].
      unfold is_updated in Hb. now destruct (update_flag_ (self s)). }
  intros _.
  assert (HJ' : forall b v, J b /\ update_flag_ b = true ->
                  J (with_stream v b) /\ update_flag_ (with_stream v b) = true).
  { intros b0 v [H1 H2]. split; [apply Hw; exact H1 | exact H2]. }
  set (J' := fun b => J b /\ update_flag_ b = true) in *.
  hseq.
  match goal with |- hoare _ (if ?c then _ else _) _ => destruct c end.
  { apply hoare_ret. auto. }
  hseq.
  eapply hoare_bind with (R := fun _ => on_self J').
  { apply hoare_when; [intros _ | auto].
    hseq. hseq.
    eapply hoare_bind with (R := fun _ => on_self J').
    { match goal with
      | |- context [Detail.neq_value ?c 0] =>
          destruct (Detail.neq_value c 0) eqn:E
      end; apply hoare_checked_div; [| discriminate].
      unfold Detail.neq_value, Detail.eq_value in E. unfold Detail.deref.
      intros E0. rewrite E0 in E. discriminate. }
    intros interval. hseq.
    eapply hoare_bind with (R := fun _ => on_self J').
    { match goal with |- hoare _ (if ?c then _ else _) _ => destruct c end.
      - apply hoare_ret. auto.
      - hseq. apply hoare_ret. auto. }
    intros controller. hseq. apply hoare_write. exact HJ'. }
  intros _. hseq.
  apply hoare_when; [intros _ | auto].
  eapply hoare_bind with (R := fun _ => on_self J').
  { apply hoare_when; [intros _ | auto].
    hseq. hseq. apply hoare_write. exact HJ'. }
  intros _. apply hoare_modify_statics.
Qed.

Lemma rendering_run s :
  exists s',
    rendering s = (Ok tt, s') /\
    core_of (self s') = core_of (self s) /\
    update_flag_ (self s') = true.
Proof.
  destruct (hoare_rendering (fun b => core_of b = core_of (self s))) with s
    as ([] & s' & E & H1 & H2); try (intros; assumption).
  - reflexivity.
  - exists s'. auto.
Qed.

(** ** The driver *)

Lemma render_stable_and_started J :
  render_stable J -> render_stable (fun b => J b /\ update_flag_ b = true).
Proof.
  intros (Hw & Hf & Hr). repeat split; intros; try tauto.
  - apply Hw; tauto.
  - apply Hf; tauto.
  - apply Hr; tauto.
Qed.

Lemma hoare_set_active_flag (J : pgbar -> Prop) v :
  render_stable J ->
  hoare (on_self J) (set_active_flag v)
    (fun _ => on_self (fun b => J b /\ active_flag_ (rndrer_ b) = v)).
Proof.
  intros (_ & _ & Hr). apply hoare_modify_this. intros s Hs.
  split; [apply Hr; exact Hs | reflexivity].
Qed.

Lemma hoare_set_last_invoke (J : pgbar -> Prop) v :
  render_stable J ->
  hoare (on_self J) (set_last_invoke v) (fun _ => on_self J).
Proof.
  intros (_ & _ & Hr). apply hoare_modify_this. intros s Hs.
  apply Hr; exact Hs.
Qed.

Lemma hoare_task (J : pgbar -> Prop) :
  render_stable J ->
  hoare (on_self J) rendering
    (fun _ => on_self (fun b => J b /\ update_flag_ b = true)).
Proof. intros (Hw & Hf & _). now apply hoare_rendering. Qed.

(** [active()] on a parked driver runs the task: the bar is started. *)
Lemma hoare_active (J : pgbar -> Prop) :
  render_stable J ->
  hoare (on_self (fun b => J b /\ active_flag_ (rndrer_ b) = false))
    (active rendering)
    (fun _ => on_self (fun b => J b /\ update_flag_ b = true)).
Proof.
  intros HJ.
  assert (H : hoare (on_self J)
                (t <- now ;; set_last_invoke t ;; rendering ;;
                 set_active_flag true)
                (fun _ => on_self (fun b => J b /\ update_flag_ b = true))).
  { hseq.
    eapply hoare_bind; [apply hoare_set_last_invoke; exact HJ |].
    intros ?; cbv beta.
    eapply hoare_bind; [apply hoare_task; exact HJ |].
    intros ?; cbv beta.
    eapply hoare_conseq;
      [apply hoare_set_active_flag, render_stable_and_started, HJ
      | auto | cbv beta; unfold on_self; tauto]. }
  intros s [Hs Ha]. unfold active.
  unfold bind at 1, this at 1. rewrite Ha.
  exact (H s Hs).
Qed.

(** [suspend()] leaves the driver parked. *)
Lemma hoare_suspend (J : pgbar -> Prop) :
  render_stable J ->
  hoare (on_self J) (suspend rendering)
    (fun _ => on_self (fun b => J b /\ active_flag_ (rndrer_ b) = false)).
Proof.
  intros HJ s Hs. unfold suspend.
  unfold bind at 1, this at 1.
  destruct (active_flag_ (rndrer_ (self s))) eqn:Ha; simpl.
  - assert (H : hoare (on_self J) (rendering ;; set_active_flag false)
                 (fun _ => on_self
                    (fun b => J b /\ active_flag_ (rndrer_ b) = false))).
    { eapply hoare_bind; [apply hoare_task; exact HJ |].
      intros ?; cbv beta.
      eapply hoare_conseq;
        [apply hoare_set_active_flag, render_stable_and_started, HJ
        | auto | cbv beta; unfold on_self; tauto]. }
    exact (H s Hs).
  - exists tt, s. split; [reflexivity |]. split; assumption.
Qed.

Lemma hoare_render (J : pgbar -> Prop) :
  render_stable J ->
  hoare (on_self J) (render rendering) (fun _ => on_self J).
Proof.
  intros HJ s Hs. unfold render.
  unfold bind at 1, this at 1.
  destruct (active_flag_ (rndrer_ (self s))) eqn:Ha; simpl.
  - assert (H : forall last, hoare (on_self J)
                 (current_time <- now ;;
                  if current_time - last <? Detail.reflash_rate then ret tt
                  else set_last_invoke current_time ;; rendering)
                 (fun _ => on_self J)).
    { intros last. hseq.
      match goal with |- hoare _ (if ?c then _ else _) _ => destruct c end.
      - apply hoare_ret. auto.
      - eapply hoare_bind; [apply hoare_set_last_invoke; exact HJ |].
        intros ?; cbv beta.
        eapply hoare_conseq; [apply hoare_task; exact HJ | auto |].
        cbv beta; unfold on_self; tauto. }
    exact (H _ s Hs).
  - exists tt, s. split; [reflexivity | assumption].
Qed.

(** ** [do_update], [update] and [reset] *)

Lemma do_update_full invokable s :
  is_done (self s) = true ->
  do_update invokable s = (Throw full_bar_error, s).
Proof.
  intros H. unfold do_update. unfold bind at 1, this at 1.
  rewrite H. reflexivity.
Qed.

Lemma do_update_zero invokable s :
  is_done (self s) = false ->
  Detail.num_tasks_ (task_cnt_ (self s)) = 0 ->
  do_update invokable s = (Throw zero_tasks_error, s).
Proof.
  intros H H0. unfold do_update. unfold bind at 1, this at 1.
  rewrite H. unfold Detail.eq_value, Detail.end_. simpl.
  rewrite H0. reflexivity.
Qed.

Lemma do_update_run (J J' : pgbar -> Prop) g s :
  render_stable J -> render_stable J' ->
  (forall b, J b -> update_flag_ b = true -> J' (g b)) ->
  (forall b, update_flag_ (g b) = update_flag_ b) ->
  J (self s) ->
  is_done (self s) = false ->
  Detail.num_tasks_ (task_cnt_ (self s)) <> 0 ->
  (update_flag_ (self s) = false -> active_flag_ (rndrer_ (self s)) = false) ->
  exists s',
    do_update (modify_this g) s = (Ok tt, s') /\
    J' (self s') /\ update_flag_ (self s') = true.
Proof.
  intros HJ HJ' Hg Hgf Hs Hd Hn Ha.
  unfold do_update. unfold bind at 1, this at 1.
  rewrite Hd. unfold Detail.eq_value, Detail.end_. simpl.
  destruct (Z.eqb_spec (Detail.num_tasks_ (task_cnt_ (self s))) 0) as [E | _];
    [contradiction |].
  set (S1 := fun b => J b /\ update_flag_ b = true).
  set (S2 := fun b => J' b /\ update_flag_ b = true).
  assert (HS2 : render_stable S2) by (apply render_stable_and_started, HJ').
  assert (H : hoare
            (on_self (fun b => J b /\ update_flag_ b = update_flag_ (self s)
                               /\ active_flag_ (rndrer_ b)
                                  = active_flag_ (rndrer_ (self s))))
            (when (negb (is_updated (self s))) (active rendering) ;;
             modify_this g ;;
             render rendering ;;
             b <- this ;;
             when (Detail.is_ended (task_cnt_ b)) (suspend rendering))
            (fun _ => on_self S2)).
  { eapply hoare_bind with (R := fun _ => on_self S1).
    { apply hoare_when.
      - intros Hu. unfold is_updated in Hu.
        destruct (update_flag_ (self s)) eqn:Eu; [discriminate |].
        eapply hoare_conseq; [apply hoare_active; exact HJ | | auto].
        intros s0 (H1 & _ & H3). split; [exact H1 |].
        rewrite H3. auto.
      - intros Hu s0 (H1 & H2 & _). split; [exact H1 |].
        rewrite H2. unfold is_updated in Hu.
        now destruct (update_flag_ (self s)). }
    intros ?; cbv beta.
    eapply hoare_bind with (R := fun _ => on_self S2).
    { apply hoare_modify_this. intros s0 [H1 H2]. split.
      - apply Hg; assumption.
      - simpl. rewrite Hgf. exact H2. }
    intros ?; cbv beta.
    eapply hoare_bind; [apply hoare_render; exact HS2 |].
    intros ?; cbv beta. hseq.
    apply hoare_when; [intros _ | auto].
    eapply hoare_conseq; [apply hoare_suspend; exact HS2 | auto |].
    cbv beta; unfold on_self; tauto. }
  destruct (H s) as ([] & s' & E & H1 & H2).
  - repeat split; auto.
  - exists s'. auto.
Qed.

Lemma render_stable_style_counter sigma c :
  render_stable (fun b => style_of b = sigma /\ task_cnt_ b = c).
Proof. repeat split; intros; destruct H; assumption. Qed.

(** A call of [update] that passes the two checks: the counter is moved by
    the closure, the bar is started, its style is untouched. *)
Lemma advance_run (f : Detail.counter_iterator -> Detail.counter_iterator) s :
  is_done (self s) = false ->
  Detail.num_tasks_ (task_cnt_ (self s)) <> 0 ->
  (update_flag_ (self s) = false -> active_flag_ (rndrer_ (self s)) = false) ->
  exists s',
    do_update (modify_this (fun b => with_task_cnt (f (task_cnt_ b)) b)) s
    = (Ok tt, s') /\
    style_of (self s') = style_of (self s) /\
    task_cnt_ (self s') = f (task_cnt_ (self s)) /\
    update_flag_ (self s') = true.
Proof.
  intros Hd Hn Ha.
  destruct (do_update_run
              (fun b => style_of b = style_of (self s)
                        /\ task_cnt_ b = task_cnt_ (self s))
              (fun b => style_of b = style_of (self s)
                        /\ task_cnt_ b = f (task_cnt_ (self s)))
              (fun b => with_task_cnt (f (task_cnt_ b)) b) s)
    as (s' & E & [H1 H2] & H3);
    try apply render_stable_style_counter; auto.
  - intros b [H1 H2] _. split; [exact H1 |]. simpl. now rewrite H2.
  - exists s'. auto.
Qed.

Lemma reset_idle s : update_flag_ (self s) = false -> reset s = (Ok tt, s).
Proof.
  intros H. unfold reset. unfold bind at 1, this at 1.
  unfold is_updated. rewrite H. reflexivity.
Qed.

Lemma reset_run s :
  update_flag_ (self s) = true ->
  exists s',
    reset s = (Ok tt, s') /\
    style_of (self s') = style_of (self s) /\
    task_cnt_ (self s') = Detail.assign_value (task_cnt_ (self s)) 0 /\
    update_flag_ (self s') = false /\
    active_flag_ (rndrer_ (self s')) = false.
Proof.
  intros Hu. unfold reset. unfold bind at 1, this at 1.
  unfold is_updated. rewrite Hu. simpl.
  set (J := fun b => style_of b = style_of (self s) /\
                     task_cnt_ b = Detail.assign_value (task_cnt_ (self s)) 0).
  assert (HJ : render_stable J) by apply render_stable_style_counter.
  assert (H : hoare (fun s0 => s0 = s)
            (modify_this
               (fun b => with_task_cnt (Detail.assign_value (task_cnt_ b) 0) b) ;;
             suspend rendering ;;
             modify_this (with_update_flag false))
            (fun _ => on_self
               (fun b => J b /\ update_flag_ b = false
                         /\ active_flag_ (rndrer_ b) = false))).
  { eapply hoare_bind with (R := fun _ => on_self J).
    { apply hoare_modify_this. intros s0 ->. split; reflexivity. }
    intros ?; cbv beta.
    eapply hoare_bind; [apply hoare_suspend; exact HJ |].
    intros ?; cbv beta.
    apply hoare_modify_this. intros s0 [[H1 H2] H3].
    repeat split; assumption. }
  destruct (H s eq_refl) as ([] & s' & E & [H1 H2] & H3 & H4).
  exists s'. auto.
Qed.

(** ** The style invariant *)

Lemma init_length_ok c b : status_length_ok (init_length c b).
Proof. unfold status_length_ok, init_length. destruct c; reflexivity. Qed.

Lemma init_length_fixed b : status_length_ok b -> init_length false b = b.
Proof.
  unfold status_length_ok, init_length. intros H. rewrite <- H.
  destruct b; reflexivity.
Qed.

Lemma status_length_ok_style b b' :
  style_of b' = style_of b -> status_length_ok b -> status_length_ok b'.
Proof.
  unfold status_length_ok. intros E H.
  change (status_length_ (style_of b') = status_length_of (style_of b')).
  rewrite E. exact H.
Qed.

(** Once the bar has started, a configuration setter changes nothing. *)
Lemma setter_noop c s :
  is_setter c = true ->
  update_flag_ (self s) = true ->
  status_length_ok (self s) ->
  run_call c s = (Ok tt, s).
Proof.
  intros Hc Hu Hok.
  assert (Hi : modify_this (init_length false) s = (Ok tt, s)).
  { unfold modify_this. rewrite init_length_fixed by exact Hok.
    destruct s; reflexivity. }
  destruct c; try discriminate Hc; simpl;
    unfold set_step, set_task, set_done, set_todo, set_startpoint,
      set_endpoint, set_lstatus, set_rstatus, set_bar_length, set_todo_col,
      set_done_col, set_status_col, set_style, set_style_bundle;
    unfold bind at 1, this at 1; unfold is_updated; rewrite Hu; simpl;
    try reflexivity;
    unfold bind, ret; exact Hi.
Qed.

Lemma bar_inv_new _total_tsk _each_step tty :
  bar_inv (pgbar_new _total_tsk _each_step tty).
Proof.
  unfold bar_inv, pgbar_new. split; [apply init_length_ok |].
  split; [discriminate | reflexivity].
Qed.

(** A setter on a bar that has not started: the bar it leaves. *)
Lemma bar_inv_modify (f : pgbar -> pgbar) b :
  update_flag_ b = false ->
  update_flag_ (f b) = false ->
  rndrer_ (f b) = rndrer_ b ->
  status_length_ok (f b) ->
  bar_inv b -> bar_inv (f b).
Proof.
  intros Hu Hf Hr Hok (_ & _ & H3). repeat split.
  - exact Hok.
  - rewrite Hf. discriminate.
  - intros _. rewrite Hr. auto.
Qed.

Lemma bar_inv_call c s :
  bar_inv (self s) -> bar_inv (self (exec (run_call c) s)).
Proof.
  intros Hinv. pose proof Hinv as (Hok & Hn & Ha).
  destruct (update_flag_ (self s)) eqn:Hu.
  - (* started *)
    destruct (is_setter c) eqn:Hc.
    + unfold exec. rewrite setter_noop; auto.
    + destruct c; try discriminate Hc; unfold exec; simpl.
      * (* update *)
        unfold update.
        destruct (is_done (self s)) eqn:Hd.
        { rewrite do_update_full; auto. }
        destruct (advance_run Detail.pre_increment s) as (s' & E & H1 & H2 & H3);
          [exact Hd | auto | intros; congruence |].
        rewrite E. simpl. repeat split.
        -- eapply status_length_ok_style; eauto.
        -- intros _. rewrite H2. simpl. auto.
        -- rewrite H3. discriminate.
      * unfold update_n.
        destruct (is_done (self s)) eqn:Hd.
        { rewrite do_update_full; auto. }
        destruct (advance_run (fun c => Detail.add_assign c next_step) s)
          as (s' & E & H1 & H2 & H3);
          [exact Hd | auto | intros; congruence |].
        rewrite E. simpl. repeat split.
        -- eapply status_length_ok_style; eauto.
        -- intros _. rewrite H2. simpl. auto.
        -- rewrite H3. discriminate.
      * destruct (reset_run s Hu) as (s' & E & H1 & H2 & H3 & H4).
        rewrite E. simpl. repeat split.
        -- eapply status_length_ok_style; eauto.
        -- rewrite H3. discriminate.
        -- auto.
  - (* not started *)
    assert (Hd : is_done (self s) = false).
    { unfold is_done, is_updated. rewrite Hu. reflexivity. }
    destruct c; unfold exec; simpl.
    + unfold update.
      destruct (Z.eq_dec (Detail.num_tasks_ (task_cnt_ (self s))) 0) as [E0 | E0].
      { rewrite do_update_zero; auto. }
      destruct (advance_run Detail.pre_increment s) as (s' & E & H1 & H2 & H3);
        [exact Hd | auto | auto |].
      rewrite E. simpl. repeat split.
      * eapply status_length_ok_style; eauto.
      * intros _. rewrite H2. simpl. auto.
      * rewrite H3. discriminate.
    + unfold update_n.
      destruct (Z.eq_dec (Detail.num_tasks_ (task_cnt_ (self s))) 0) as [E0 | E0].
      { rewrite do_update_zero; auto. }
      destruct (advance_run (fun c => Detail.add_assign c next_step) s)
        as (s' & E & H1 & H2 & H3); [exact Hd | auto | auto |].
      rewrite E. simpl. repeat split.
      * eapply status_length_ok_style; eauto.
      * intros _. rewrite H2. simpl. auto.
      * rewrite H3. discriminate.
    + rewrite reset_idle; auto.
    + unfold set_step. unfold bind at 1, this at 1. unfold is_updated.
      rewrite Hu. destruct (_step =? 0); simpl; [exact Hinv |].
      apply (bar_inv_modify
               (fun b => with_task_cnt (Detail.set_step (task_cnt_ b) _step) b));
        auto.
    + unfold set_task. unfold bind at 1, this at 1. unfold is_updated.
      rewrite Hu. destruct (_total_tsk =? 0); simpl; [exact Hinv |].
      apply (bar_inv_modify
               (fun b => init_length true
                  (with_task_cnt (Detail.set_task (task_cnt_ b) _total_tsk) b)));
        auto.
      apply init_length_ok.
    + unfold set_done. unfold bind at 1, this at 1. unfold is_updated.
      rewrite Hu. simpl. apply (bar_inv_modify (with_done_ch _done_ch)); auto.
    + unfold set_todo. unfold bind at 1, this at 1. unfold is_updated.
      rewrite Hu. simpl. apply (bar_inv_modify (with_todo_ch _todo_ch)); auto.
    + unfold set_startpoint. unfold bind at 1, this at 1. unfold is_updated.
      rewrite Hu. simpl.
      apply (bar_inv_modify (with_startpoint _startpoint)); auto.
    + unfold set_endpoint. unfold bind at 1, this at 1. unfold is_updated.
      rewrite Hu. simpl.
      apply (bar_inv_modify (with_endpoint _endpoint)); auto.
    + unfold set_lstatus. unfold bind at 1, this at 1. unfold is_updated.
      rewrite Hu. simpl.
      apply (bar_inv_modify
               (fun b => init_length false (with_lstatus _lstatus b))); auto.
      apply init_length_ok.
    + unfold set_rstatus. unfold bind at 1, this at 1. unfold is_updated.
      rewrite Hu. simpl.
      apply (bar_inv_modify
               (fun b => init_length false (with_rstatus _rstatus b))); auto.
      apply init_length_ok.
    + unfold set_bar_length. unfold bind at 1, this at 1. unfold is_updated.
      rewrite Hu. simpl.
      apply (bar_inv_modify (with_bar_length _length)); auto.
    + unfold set_todo_col. unfold bind at 1, this at 1. unfold is_updated.
      rewrite Hu. simpl. apply (bar_inv_modify (with_todo_col _dye)); auto.
    + unfold set_done_col. unfold bind at 1, this at 1. unfold is_updated.
      rewrite Hu. simpl. apply (bar_inv_modify (with_done_col _dye)); auto.
    + unfold set_status_col. unfold bind at 1, this at 1. unfold is_updated.
      rewrite Hu. simpl. apply (bar_inv_modify (with_status_col _dye)); auto.
    + unfold set_style. unfold bind at 1, this at 1. unfold is_updated.
      rewrite Hu. simpl.
      apply (bar_inv_modify
               (fun b => init_length false
                           (with_option (_selection mod 256) b))); auto.
      apply init_length_ok.
    + unfold set_style_bundle. unfold bind at 1, this at 1. unfold is_updated.
      rewrite Hu.
      apply (bar_inv_modify
               (fun b => init_length true (apply_style _selection b))); auto.
      * unfold apply_style.
        destruct (Style.total_tasks _selection), (Style.each_setp _selection);
          exact Hu.
      * unfold apply_style.
        destruct (Style.total_tasks _selection), (Style.each_setp _selection);
          reflexivity.
      * apply init_length_ok.
Qed.

Lemma reachable_inv s : reachable s -> bar_inv (self s).
Proof.
  induction 1 as [g T S tty | s c _ IH].
  - apply bar_inv_new.
  - apply bar_inv_call. exact IH.
Qed.

(* ================================================================== *)
(** * The counter *)

(** C10: [is_ended] is defined in every counter state: evaluated with a
    subtraction that reports a wrap below zero it still returns, and the
    same value, so the subtraction [num_tasks_ - current_] is never reached
    when it would wrap; and it is true whenever [current_ >= num_tasks_],
    the overshoot states [current_ > num_tasks_] included. *)
Theorem C10_is_ended_total (c : Detail.counter_iterator) :
  Detail.in_SizeT (Detail.num_tasks_ c) ->
  Detail.in_SizeT (Detail.current_ c) ->
  Detail.is_ended_checked c = Some (Detail.is_ended c) /\
  (Detail.num_tasks_ c <= Detail.current_ c -> Detail.is_ended c = true).
Proof.
  intros Ht Hc.
  unfold Detail.is_ended_checked, Detail.is_ended, Detail.checked_sub.
  destruct (Z.leb_spec (Detail.num_tasks_ c) (Detail.current_ c)) as [H | H].
  - split; reflexivity.
  - split; [| lia].
    destruct (Z.leb_spec (Detail.current_ c) (Detail.num_tasks_ c)); [| lia].
    rewrite wrap_small; [reflexivity |].
    unfold Detail.in_SizeT in *. lia.
Qed.

Lemma C10_is_ended_total_witness :
  Detail.in_SizeT 1 /\ Detail.in_SizeT 2 /\
  Detail.is_ended_checked (Detail.mk_counter 1 2 2)
  = Some (Detail.is_ended (Detail.mk_counter 1 2 2)) /\
  (1 <= 2 -> Detail.is_ended (Detail.mk_counter 1 2 2) = true).
Proof.
  assert (H1 : Detail.in_SizeT 1)
    by (unfold Detail.in_SizeT, Detail.SizeT_modulus; lia).
  assert (H2 : Detail.in_SizeT 2)
    by (unfold Detail.in_SizeT, Detail.SizeT_modulus; lia).
  split; [exact H1 |]. split; [exact H2 |].
  exact (C10_is_ended_total (Detail.mk_counter 1 2 2) H1 H2).
Defined.

(* ================================================================== *)
(** * The rate formatter *)

Lemma rate_text_saturates frequency :
  Qltb (99999 # 100) (inject_Z frequency / inject_Z 1000000000) = true ->
  rate_text frequency = "> 1.00 GHz".
Proof.
  intros H.
  assert (Hf : 999990000000 < frequency).
  { unfold Qltb, Qle_bool in H. simpl in H.
    destruct (Z.leb_spec (frequency * 1 * 100) 99999000000000); [discriminate | lia]. }
  unfold rate_text. rewrite H.
  assert (E : forall n, n <= 1000000000 ->
                Qltb (inject_Z frequency) (inject_Z n) = false).
  { intros n Hn. unfold Qltb, Qle_bool. simpl.
    destruct (Z.leb_spec (n * 1) (frequency * 1)); [reflexivity | lia]. }
  rewrite !E by lia. reflexivity.
Qed.

(** C9: once the bar has started the rate formatter returns for every
    interval, never dividing by zero; a zero average interval gives the
    maximum value of [SizeT] as frequency; and every frequency whose value
    in GHz exceeds 999.99 is rendered as ["> 1.00 GHz"]. *)
Theorem C9_rate_formatter_never_fails (b : pgbar) (interval avg : Z) :
  is_updated b = true ->
  (exists txt,
     show_rate b interval avg = Some (txt, rate_average avg interval)) /\
  (rate_average avg interval = 0 ->
     rate_frequency (rate_average avg interval) = Some Detail.SizeT_max /\
     show_rate b interval avg = Some ("> 1.00 GHz", 0)) /\
  (forall frequency,
     rate_frequency (rate_average avg interval) = Some frequency ->
     Qltb (99999 # 100) (inject_Z frequency / inject_Z 1000000000) = true ->
     show_rate b interval avg
     = Some ("> 1.00 GHz", rate_average avg interval)).
Proof.
  intros Hu. repeat split.
  - destruct (show_rate_some b interval avg) as [txt E].
    rewrite Hu in E. eauto.
  - rewrite H. reflexivity.
  - unfold show_rate. rewrite Hu. simpl. rewrite H. reflexivity.
  - intros frequency Hf Hq. unfold show_rate. rewrite Hu. simpl.
    rewrite Hf. rewrite (rate_text_saturates _ Hq). reflexivity.
Qed.

Lemma C9_rate_formatter_never_fails_witness :
  is_updated (with_update_flag true (pgbar_new 4 1 true)) = true /\
  show_rate (with_update_flag true (pgbar_new 4 1 true)) 0 0
  = Some ("> 1.00 GHz", 0).
Proof.
  assert (H : is_updated (with_update_flag true (pgbar_new 4 1 true)) = true)
    by reflexivity.
  split; [exact H |].
  apply (C9_rate_formatter_never_fails
           (with_update_flag true (pgbar_new 4 1 true)) 0 0 H).
  reflexivity.
Defined.

(* ================================================================== *)
(** * The line assembler *)

Lemma size_fill n c : 0 <= n -> Str.size (Str.fill n c) = n.
Proof.
  intros Hn. unfold Str.size, Str.fill.
  assert (E : forall k, String.length (Str.replicate k c) = k).
  { induction k; simpl; congruence. }
  rewrite E. lia.
Qed.

Lemma total_length_nonneg b ctrller : 0 <= total_length b ctrller.
Proof.
  unfold total_length.
  assert (H : forall z, 0 <= Detail.wrap z) by (intros; apply wrap_range).
  destruct (Z.testbit ctrller bit_index.bar), (negb (status_length_ b =? 0));
    auto; lia.
Qed.

(** The erase prefix [generate_barcode] returns: nothing before the bar
    has started, [total_length] backspaces afterwards. *)
Lemma generate_barcode_erase (b : pgbar) (ctrller : Z)
    (num_per : Q) (num_done interval avg : Z) :
  exists erase line avg',
    generate_barcode b ctrller num_per num_done interval avg
    = Some ((erase, line), avg') /\
    erase = (if is_updated b
             then Str.fill (total_length b ctrller) backspace else EmptyString) /\
    Str.size erase = (if is_updated b then total_length b ctrller else 0).
Proof.
  destruct (generate_barcode_some b ctrller num_per num_done interval avg)
    as (line & avg' & E).
  eexists _, line, avg'. split; [exact E |]. split; [reflexivity |].
  destruct (is_updated b); [| reflexivity].
  apply size_fill, total_length_nonneg.
Qed.

(** C3, counterexample: the first [update()] of [pgbar bar( 4, 1 )] prints
    a first frame 77 columns wide (bar and status), then a frame whose
    erase prefix has 44 backspaces, the status width alone. *)
Lemma C3_erase_prefix_counterexample :
  ~ erase_prefix_claim first_update_frames.
Proof.
  assert (E : exists f0 f1 rest,
            first_update_frames = f0 :: f1 :: rest /\
            printed_width (snd f0) = 77%nat /\
            String.length (fst f1) = 44%nat).
  { vm_compute. do 3 eexists. repeat split. }
  destruct E as (f0 & f1 & rest & E & H0 & H1).
  unfold erase_prefix_claim. rewrite E. simpl.
  rewrite H0, H1. intros (_ & H & _). discriminate H.
Qed.

(* ================================================================== *)
(** * The refresh cadence *)

(** C4 (what the code does): [reflash_rate] is 35 microseconds, a thousand
    times shorter than 35 milliseconds; a [render()] that comes 35
    microseconds after the last redraw redraws (three frames instead of
    two), one nanosecond earlier it does not. *)
Theorem C4_reflash_rate_is_35_microseconds :
  Detail.reflash_rate = Detail.microseconds 35 /\
  Detail.reflash_rate * 1000 = Detail.milliseconds 35 /\
  List.length (frames_after (Detail.microseconds 35)) = 3%nat /\
  List.length (frames_after (Detail.microseconds 35 - 1)) = 2%nat.
Proof. repeat split; vm_compute; reflexivity. Qed.

(* ================================================================== *)
(** * The update contract *)

(** C6: [update()] and [update( n )] on a finished bar throw the
    "updating a full progress bar" exception (InvalidState); on a bar that
    is not finished and whose total is zero they throw the "number of tasks
    is zero" exception (InvalidConfig); both are thrown before anything is
    written, the state after the throw being the state before the call.  In
    every state the bar goes through, a total of zero means that the bar is
    not finished, so the second case is the case of a zero total. *)
Theorem C6_update_errors_leave_the_state (s : ctx) (n : Z) :
  (is_done (self s) = true ->
   update s = (Throw full_bar_error, s) /\
   update_n n s = (Throw full_bar_error, s)) /\
  (is_done (self s) = false -> total s = 0 ->
   update s = (Throw zero_tasks_error, s) /\
   update_n n s = (Throw zero_tasks_error, s)) /\
  (reachable s -> total s = 0 ->
   update s = (Throw zero_tasks_error, s) /\
   update_n n s = (Throw zero_tasks_error, s)) /\
  kind_of full_bar_error = InvalidState /\
  kind_of zero_tasks_error = InvalidConfig.
Proof.
  assert (Hr : reachable s -> total s = 0 -> is_done (self s) = false).
  { intros Hr H0. destruct (reachable_inv s Hr) as (_ & Hn & _).
    unfold is_done, is_updated.
    destruct (update_flag_ (self s)); [| reflexivity].
    exfalso. apply Hn; [reflexivity | exact H0]. }
  split; [| split; [| split; [| split; reflexivity]]].
  - intros Hd. split; apply do_update_full; exact Hd.
  - intros Hd H0. split; apply do_update_zero; assumption.
  - intros H H0. split; apply do_update_zero; auto.
Qed.

Lemma C6_update_errors_leave_the_state_witness :
  let finished := exec update (start clock_1ms (pgbar_new 1 1 false)) in
  let empty := start clock_1ms (pgbar_new 0 1 false) in
  (is_done (self finished) = true /\
   update finished = (Throw full_bar_error, finished)) /\
  (is_done (self empty) = false /\ total empty = 0 /\
   update empty = (Throw zero_tasks_error, empty)).
Proof.
  intros finished empty.
  assert (H1 : is_done (self finished) = true) by (vm_compute; reflexivity).
  assert (H2 : is_done (self empty) = false) by (vm_compute; reflexivity).
  assert (H3 : total empty = 0) by (vm_compute; reflexivity).
  split.
  - split; [exact H1 |].
    exact (proj1 (proj1 (C6_update_errors_leave_the_state finished 0) H1)).
  - split; [exact H2 |]. split; [exact H3 |].
    exact (proj1
             (proj1 (proj2 (C6_update_errors_leave_the_state empty 0)) H2 H3)).
Defined.

(* ================================================================== *)
(** * [reset] *)

(** C7: [reset()] on a finished bar returns normally and leaves a bar that
    is not finished, whose counter is at zero with the same total and the
    same step; a second [reset()] on that bar returns leaving the whole
    state, statics included, as the first one left it. *)
Theorem C7_reset_rearms_and_is_idempotent (s : ctx) :
  is_done (self s) = true ->
  exists s1,
    reset s = (Ok tt, s1) /\
    is_done (self s1) = false /\
    current s1 = 0 /\ total s1 = total s /\ step s1 = step s /\
    reset s1 = (Ok tt, s1).
Proof.
  intros Hd.
  assert (Hu : update_flag_ (self s) = true).
  { unfold is_done, is_updated in Hd. now destruct (update_flag_ (self s)). }
  destruct (reset_run s Hu) as (s1 & E & _ & Hc & Hf & _).
  exists s1. split; [exact E |].
  unfold is_done, is_updated, current, total, step.
  rewrite Hf, Hc. simpl.
  repeat split; try reflexivity.
  apply reset_idle. exact Hf.
Qed.

Lemma C7_reset_rearms_and_is_idempotent_witness :
  let finished := exec update (start clock_1ms (pgbar_new 1 1 true)) in
  is_done (self finished) = true /\
  exists s1,
    reset finished = (Ok tt, s1) /\
    is_done (self s1) = false /\
    current s1 = 0 /\ total s1 = total finished /\ step s1 = step finished /\
    reset s1 = (Ok tt, s1).
Proof.
  intros finished.
  assert (H : is_done (self finished) = true) by (vm_compute; reflexivity).
  split; [exact H |].
  apply (C7_reset_rearms_and_is_idempotent finished). exact H.
Defined.

(* ================================================================== *)
(** * The setters *)

(** C8: in every state the bar goes through, once the bar has started
    ([update_flag_] set) each configuration setter ([set_task], [set_step],
    [set_done], [set_todo], [set_startpoint], [set_endpoint], [set_lstatus],
    [set_rstatus], [set_bar_length], the three colour setters and both
    [set_style]) returns normally and leaves the whole state as it was,
    while [reset()] clears the started flag. *)
Theorem C8_setters_change_nothing_once_started (s : ctx) (c : call) :
  reachable s ->
  is_updated (self s) = true ->
  (is_setter c = true -> run_call c s = (Ok tt, s)) /\
  (exists s', reset s = (Ok tt, s') /\ is_updated (self s') = false).
Proof.
  intros Hr Hu. unfold is_updated in Hu.
  destruct (reachable_inv s Hr) as (Hok & _ & _).
  split.
  - intros Hc. apply setter_noop; assumption.
  - destruct (reset_run s Hu) as (s' & E & _ & _ & Hf & _).
    exists s'. split; [exact E | exact Hf].
Qed.

Lemma C8_setters_change_nothing_once_started_witness :
  let started :=
    exec (run_call CUpdate) (mk_ctx (globals_init clock_1ms) (pgbar_new 4 1 true)) in
  is_updated (self started) = true /\
  run_call (CSetLstatus "<") started = (Ok tt, started).
Proof.
  intros started.
  assert (H : is_updated (self started) = true) by (vm_compute; reflexivity).
  split; [exact H |].
  apply (C8_setters_change_nothing_once_started started (CSetLstatus "<")).
  - apply reach_call, reach_new.
  - exact H.
  - reflexivity.
Defined.

(* ================================================================== *)
(** * The counter under [update] *)

Lemma task_cnt_pgbar_new T S tty :
  task_cnt_ (pgbar_new T S tty) = Detail.mk_counter T S 0.
Proof. reflexivity. Qed.

Lemma add_assign_saturates c n :
  Detail.current_ (Detail.add_assign c n) <= Detail.num_tasks_ c.
Proof.
  unfold Detail.add_assign. simpl.
  destruct (Z.ltb_spec (Detail.num_tasks_ c)
              (Detail.wrap (Detail.current_ c + n))); lia.
Qed.

Lemma fits_advance T S c s :
  1 <= S -> S <= T -> T < Detail.SizeT_modulus ->
  is_advance c = true ->
  fits T S (self s) -> fits T S (self (exec (run_call c) s)).
Proof.
  intros HS HST HT Hc (Ht & Hs & Hcur & Hidle).
  assert (Hn : Detail.num_tasks_ (task_cnt_ (self s)) <> 0) by lia.
  assert (Ha : update_flag_ (self s) = false ->
               active_flag_ (rndrer_ (self s)) = false) by (intros; tauto).
  destruct (is_done (self s)) eqn:Hd.
  { destruct c; try discriminate Hc; unfold exec; simpl;
      [unfold update | unfold update_n]; rewrite do_update_full by exact Hd;
      repeat split; tauto. }
  destruct c; try discriminate Hc; unfold exec; simpl.
  - unfold update.
    destruct (advance_run Detail.pre_increment s Hd Hn Ha)
      as (s' & E & _ & Hcnt & Hf).
    rewrite E. simpl. unfold fits. rewrite Hcnt, Hf. simpl.
    rewrite Ht, Hs.
    assert (Hsum : 0 <= Detail.current_ (task_cnt_ (self s)) + S <= T).
    { unfold is_done, is_updated in Hd.
      destruct (update_flag_ (self s)) eqn:Hu.
      - simpl in Hd. unfold Detail.is_ended in Hd. rewrite Ht, Hs in Hd.
        destruct (Z.leb_spec T (Detail.current_ (task_cnt_ (self s))));
          [discriminate |].
        rewrite wrap_small in Hd by (unfold Detail.in_SizeT; lia).
        destruct (Z.ltb_spec (T - Detail.current_ (task_cnt_ (self s))) S);
          [discriminate | lia].
      - destruct Hidle as [H0 _]; [reflexivity |]. rewrite H0. lia. }
    rewrite wrap_small by (unfold Detail.in_SizeT; lia).
    repeat split; try lia; discriminate.
  - unfold update_n.
    destruct (advance_run (fun c => Detail.add_assign c next_step) s Hd Hn Ha)
      as (s' & E & _ & Hcnt & Hf).
    rewrite E. simpl. unfold fits. rewrite Hcnt, Hf.
    pose proof (add_assign_saturates (task_cnt_ (self s)) next_step) as Hsat.
    assert (H0 : 0 <= Detail.current_
                        (Detail.add_assign (task_cnt_ (self s)) next_step)).
    { unfold Detail.add_assign. simpl.
      pose proof (wrap_range (Detail.current_ (task_cnt_ (self s)) + next_step))
        as [Hw _].
      destruct (Z.ltb_spec (Detail.num_tasks_ (task_cnt_ (self s)))
                  (Detail.wrap (Detail.current_ (task_cnt_ (self s))
                                + next_step))); lia. }
    repeat split; try discriminate.
    + simpl. exact Ht.
    + simpl. exact Hs.
    + exact H0.
    + rewrite <- Ht. exact Hsat.
Qed.

(** C1 (as the code has it): for a bar constructed with a step that fits
    in the total, [1 <= S <= T], [current <= total] holds after every
    sequence of [update()] and [update( n )] calls; [update( n )] clamps at
    the total from any counter state, [update()] adds the step unclamped
    and stays within the total because a started bar refuses the call once
    less than a step is left. *)
Theorem C1_counter_bounded_when_step_fits (g : globals) (T S : Z)
    (tty : bool) (cs : list call) :
  1 <= S -> S <= T -> T < Detail.SizeT_modulus ->
  forallb is_advance cs = true ->
  counter_bounded (run_calls cs (mk_ctx g (pgbar_new T S tty))) /\
  (forall c n,
     Detail.current_ (Detail.add_assign c n) <= Detail.num_tasks_ c).
Proof.
  intros HS HST HT Hcs. split; [| apply add_assign_saturates].
  assert (H : forall s, fits T S (self s) -> fits T S (self (run_calls cs s))).
  { induction cs as [| c rest IH]; intros s Hs; simpl; [exact Hs |].
    simpl in Hcs. apply andb_prop in Hcs. destruct Hcs as [Hc Hrest].
    apply IH; [exact Hrest |].
    apply fits_advance; assumption. }
  destruct (H (mk_ctx g (pgbar_new T S tty))) as (Ht & _ & Hc & _).
  - unfold fits. cbn [self]. rewrite task_cnt_pgbar_new. cbn [Detail.num_tasks_ Detail.step_ Detail.current_].
    repeat split; try reflexivity; lia.
  - unfold counter_bounded, current, total. rewrite Ht. lia.
Qed.

Lemma C1_counter_bounded_when_step_fits_witness :
  1 <= 2 /\ 2 <= 5 /\ 5 < Detail.SizeT_modulus /\
  counter_bounded
    (run_calls [CUpdate; CUpdateN 7; CUpdate]
       (start clock_1ms (pgbar_new 5 2 true))).
Proof.
  assert (H1 : 1 <= 2) by lia.
  assert (H2 : 2 <= 5) by lia.
  assert (H3 : 5 < Detail.SizeT_modulus) by reflexivity.
  split; [exact H1 |]. split; [exact H2 |]. split; [exact H3 |].
  refine (proj1 (C1_counter_bounded_when_step_fits (globals_init clock_1ms)
                   5 2 true [CUpdate; CUpdateN 7; CUpdate] H1 H2 H3 _)).
  reflexivity.
Defined.

(** C1, counterexample: [pgbar bar( 1, 2 )], total 1 and step 2; the first
    [update()] leaves [current = 2]. *)
Lemma C1_counter_bounded_counterexample :
  ~ counter_bounded (run_calls [CUpdate] (start clock_1ms (pgbar_new 1 2 true))).
Proof.
  assert (E : let s := run_calls [CUpdate] (start clock_1ms (pgbar_new 1 2 true))
              in current s = 2 /\ total s = 1)
    by (vm_compute; split; reflexivity).
  destruct E as [E1 E2]. unfold counter_bounded. rewrite E1, E2. lia.
Qed.

(* ================================================================== *)
(** * The number of [update()] calls that finish a bar *)

Lemma updates_succ k s :
  updates (S k) s
  = (let '(rs, s1) := updates k s in
     let '(r, s2) := update s1 in ((rs ++ [r])%list, s2)).
Proof. reflexivity. Qed.

(** At a multiple of the step the counter is ended exactly from
    [floor( T / S )] steps on. *)
Lemma is_ended_at_multiple T S k :
  1 <= T < Detail.SizeT_modulus -> 1 <= S -> 0 <= k ->
  Detail.is_ended (Detail.mk_counter T S (k * S)) = (T / S <=? k).
Proof.
  intros HT HS Hk. unfold Detail.is_ended. simpl.
  destruct (Z.leb_spec T (k * S)) as [H | H].
  - symmetry. apply Z.leb_le. apply Z.div_le_upper_bound; lia.
  - rewrite wrap_small by (unfold Detail.in_SizeT; nia).
    destruct (Z.ltb_spec (T - k * S) S) as [H1 | H1]; symmetry.
    + apply Z.leb_le.
      assert (T / S < k + 1) by (apply Z.div_lt_upper_bound; lia). lia.
    + apply Z.leb_gt.
      assert (k + 1 <= T / S) by (apply Z.div_le_lower_bound; lia). lia.
Qed.

Section Finishing.
Variables (g : globals) (T S : Z) (tty : bool).
Hypothesis HT : 1 <= T < Detail.SizeT_modulus.
Hypothesis HS : 1 <= S < Detail.SizeT_modulus.

Local Abbreviation s0 := (mk_ctx g (pgbar_new T S tty)).
Local Abbreviation N := (Z.max 1 (T / S)).

(** The first [N] calls succeed and move the counter by one step each. *)
Lemma updates_prefix (k : nat) :
  Z.of_nat k <= N ->
  Forall (fun r => r = Ok tt) (fst (updates k s0)) /\
  task_cnt_ (self (snd (updates k s0)))
  = Detail.mk_counter T S (Z.of_nat k * S) /\
  update_flag_ (self (snd (updates k s0))) = (1 <=? Z.of_nat k) /\
  (k = 0%nat -> active_flag_ (rndrer_ (self (snd (updates k s0)))) = false).
Proof.
  pose proof (Z.div_mod T S ltac:(lia)) as Hdm.
  pose proof (Z.mod_pos_bound T S ltac:(lia)) as Hmod.
  induction k as [| k IH]; intros Hk.
  - simpl. repeat split; auto.
  - destruct IH as (Hok & Hcnt & Hflag & Hidle); [lia |].
    rewrite updates_succ.
    destruct (updates k s0) as [rs s1] eqn:Ek. simpl in Hok, Hcnt, Hflag, Hidle.
    assert (Hd : is_done (self s1) = false).
    { unfold is_done, is_updated. rewrite Hflag, Hcnt.
      destruct (Z.leb_spec 1 (Z.of_nat k)) as [H1 | H1]; [| reflexivity].
      simpl. rewrite is_ended_at_multiple by lia.
      apply Z.leb_gt. lia. }
    destruct (advance_run Detail.pre_increment s1 Hd) as (s2 & E & _ & Hc2 & Hf2).
    { rewrite Hcnt. simpl. lia. }
    { intros Hu. apply Hidle. rewrite Hflag in Hu.
      destruct (Z.leb_spec 1 (Z.of_nat k)); [discriminate | lia]. }
    unfold update. rewrite E. cbn [fst snd].
    repeat split.
    + apply Forall_app. split; [exact Hok | repeat constructor].
    + rewrite Hc2, Hcnt. unfold Detail.pre_increment.
      cbn [Detail.num_tasks_ Detail.step_ Detail.current_].
      rewrite wrap_small; [f_equal; lia |].
      unfold Detail.in_SizeT.
      set (q := T / S) in *. nia.
    + rewrite Hf2. symmetry. apply Z.leb_le. lia.
    + discriminate.
Qed.

(** A finished bar stays as it is under further calls. *)
Lemma updates_frozen (k j : nat) :
  is_done (self (snd (updates k s0))) = true ->
  snd (updates (j + k) s0) = snd (updates k s0).
Proof.
  intros Hd. induction j as [| j IH]; [reflexivity |].
  change (Datatypes.S j + k)%nat with (Datatypes.S (j + k)). rewrite updates_succ.
  destruct (updates (j + k) s0) as [rs s1]. simpl in IH. subst s1.
  unfold update. rewrite do_update_full by exact Hd. reflexivity.
Qed.

Lemma is_done_after (k : nat) :
  Z.of_nat k <= N ->
  is_done (self (snd (updates k s0))) = (N <=? Z.of_nat k).
Proof.
  intros Hk. destruct (updates_prefix k Hk) as (_ & Hcnt & Hflag & _).
  unfold is_done, is_updated. rewrite Hflag, Hcnt.
  rewrite is_ended_at_multiple by lia.
  destruct (Z.leb_spec 1 (Z.of_nat k)), (Z.leb_spec (T / S) (Z.of_nat k));
    simpl; symmetry; try (apply Z.leb_le; lia); apply Z.leb_gt; lia.
Qed.

Lemma finishes_after_floor : finishes_after_exactly s0 N.
Proof.
  assert (HN : 0 <= N) by lia.
  intros k. destruct (Z.le_gt_cases (Z.of_nat k) N) as [Hk | Hk].
  - apply is_done_after. exact Hk.
  - assert (Hn : is_done (self (snd (updates (Z.to_nat N) s0))) = true).
    { rewrite is_done_after by lia. apply Z.leb_le. lia. }
    replace k with ((k - Z.to_nat N) + Z.to_nat N)%nat by lia.
    rewrite updates_frozen by exact Hn.
    rewrite Hn. symmetry. apply Z.leb_le. lia.
Qed.

Lemma floor_is_ceil : T mod S = 0 \/ T < S -> N = ceil_div T S.
Proof.
  pose proof (Z.div_mod T S ltac:(lia)) as Hdm.
  pose proof (Z.mod_pos_bound T S ltac:(lia)) as Hmod.
  unfold ceil_div. intros [H | H].
  - assert (E : (T + S - 1) / S = T / S).
    { symmetry. apply (Z.div_unique (T + S - 1) S (T / S) (S - 1)); lia. }
    rewrite E. assert (1 <= T / S) by nia. lia.
  - rewrite (Z.div_small T S) by lia.
    assert (E : (T + S - 1) / S = 1).
    { symmetry. apply (Z.div_unique (T + S - 1) S 1 (T - 1)); lia. }
    rewrite E. lia.
Qed.
End Finishing.

(** C2 (as the code has it): for every total [T >= 1] and step [S >= 1],
    from a fresh bar [is_done()] is false after fewer than
    [max( 1, floor( T / S ) )] calls of [update()] and true after that
    many or more; each of these first calls returns normally; the number
    is [ceil( T / S )] when [S] divides [T] or exceeds it. *)
Theorem C2_finishes_after_floor_steps (g : globals) (T S : Z) (tty : bool) :
  1 <= T < Detail.SizeT_modulus ->
  1 <= S < Detail.SizeT_modulus ->
  finishes_after_exactly (mk_ctx g (pgbar_new T S tty)) (Z.max 1 (T / S)) /\
  (forall k : nat,
     Z.of_nat k <= Z.max 1 (T / S) ->
     Forall (fun r => r = Ok tt)
       (fst (updates k (mk_ctx g (pgbar_new T S tty))))) /\
  (T mod S = 0 \/ T < S -> Z.max 1 (T / S) = ceil_div T S).
Proof.
  intros HT HS. split; [| split].
  - apply finishes_after_floor; assumption.
  - intros k Hk. apply (updates_prefix g T S tty HT HS k Hk).
  - apply floor_is_ceil; assumption.
Qed.

Lemma C2_finishes_after_floor_steps_witness :
  1 <= 5 < Detail.SizeT_modulus /\ 1 <= 2 < Detail.SizeT_modulus /\
  finishes_after_exactly (start clock_1ms (pgbar_new 5 2 true)) 2.
Proof.
  assert (H1 : 1 <= 5 < Detail.SizeT_modulus) by (split; reflexivity || discriminate).
  assert (H2 : 1 <= 2 < Detail.SizeT_modulus) by (split; reflexivity || discriminate).
  split; [exact H1 |]. split; [exact H2 |].
  exact (proj1 (C2_finishes_after_floor_steps (globals_init clock_1ms)
                  5 2 true H1 H2)).
Defined.

(** C2, counterexample: total 5 and step 2; [ceil( 5 / 2 )] is 3 and the
    bar is finished after 2 calls. *)
Lemma C2_ceil_counterexample :
  ~ finishes_after_exactly (start clock_1ms (pgbar_new 5 2 true))
      (ceil_div 5 2).
Proof.
  intros H. specialize (H 2%nat).
  assert (E : is_done
                (self (snd (updates 2 (start clock_1ms (pgbar_new 5 2 true)))))
              = true) by (vm_compute; reflexivity).
  rewrite E in H. discriminate H.
Qed.

(* ================================================================== *)
(** * Two runs from states that agree *)

Section RelationalRules.
Context {A B : Type}.

Lemma rhoare_ret (P : ctx -> ctx -> Prop) (a1 a2 : A)
  (Q : A -> A -> ctx -> ctx -> Prop) :
(forall s1 s2, P s1 s2 -> Q a1 a2 s1 s2) -> rhoare P (ret a1) (ret a2) Q.
Proof. intros H s1 s2 Hs. exists a1, a2, s1, s2. auto. Qed.

Lemma rhoare_bind (P : ctx -> ctx -> Prop) (m1 m2 : M A)
  (R : A -> A -> ctx -> ctx -> Prop) (k1 k2 : A -> M B)
  (Q : B -> B -> ctx -> ctx -> Prop) :
rhoare P m1 m2 R ->
(forall a1 a2, rhoare (R a1 a2) (k1 a1) (k2 a2) Q) ->
rhoare P (bind m1 k1) (bind m2 k2) Q.
Proof.
intros Hm Hk s1 s2 Hs.
destruct (Hm s1 s2 Hs) as (a1 & a2 & t1 & t2 & E1 & E2 & Ht).
destruct (Hk a1 a2 t1 t2 Ht) as (b1 & b2 & u1 & u2 & F1 & F2 & Hu).
exists b1, b2, u1, u2. unfold bind. rewrite E1, E2. auto.
Qed.

Lemma rhoare_conseq (P P' : ctx -> ctx -> Prop) (m1 m2 : M A)
  (Q Q' : A -> A -> ctx -> ctx -> Prop) :
rhoare P' m1 m2 Q' ->
(forall s1 s2, P s1 s2 -> P' s1 s2) ->
(forall a1 a2 s1 s2, Q' a1 a2 s1 s2 -> Q a1 a2 s1 s2) ->
rhoare P m1 m2 Q.
Proof.
intros Hm HP HQ s1 s2 Hs.
destruct (Hm s1 s2 (HP s1 s2 Hs)) as (a1 & a2 & t1 & t2 & E1 & E2 & Ht).
exists a1, a2, t1, t2. auto.
Qed.

(** A fact that the precondition implies may be used to prove the triple. *)
Lemma rhoare_pure (P : ctx -> ctx -> Prop) (fact : Prop) (m1 m2 : M A)
  (Q : A -> A -> ctx -> ctx -> Prop) :
(forall s1 s2, P s1 s2 -> fact) ->
(fact -> rhoare P m1 m2 Q) -> rhoare P m1 m2 Q.
Proof. intros Hf Hm s1 s2 Hs. exact (Hm (Hf s1 s2 Hs) s1 s2 Hs). Qed.
End RelationalRules.

Lemma rhoare_this (P : ctx -> ctx -> Prop) :
  rhoare P this this
    (fun b1 b2 s1 s2 => P s1 s2 /\ b1 = self s1 /\ b2 = self s2).
Proof. intros s1 s2 Hs. exists (self s1), (self s2), s1, s2. auto. Qed.

Lemma rhoare_the_statics (P : ctx -> ctx -> Prop) :
  rhoare P the_statics the_statics
    (fun g1 g2 s1 s2 => P s1 s2 /\ g1 = statics s1 /\ g2 = statics s2).
Proof. intros s1 s2 Hs. exists (statics s1), (statics s2), s1, s2. auto. Qed.

Lemma rhoare_modify_this (P : ctx -> ctx -> Prop) f
    (Q : unit -> unit -> ctx -> ctx -> Prop) :
  (forall s1 s2, P s1 s2 ->
     Q tt tt (mk_ctx (statics s1) (f (self s1)))
             (mk_ctx (statics s2) (f (self s2)))) ->
  rhoare P (modify_this f) (modify_this f) Q.
Proof. intros H s1 s2 Hs. eexists _, _, _, _. repeat split. auto. Qed.

Lemma rhoare_modify_statics (P : ctx -> ctx -> Prop) f1 f2
    (Q : unit -> unit -> ctx -> ctx -> Prop) :
  (forall s1 s2, P s1 s2 ->
     Q tt tt (mk_ctx (f1 (statics s1)) (self s1))
             (mk_ctx (f2 (statics s2)) (self s2))) ->
  rhoare P (modify_statics f1) (modify_statics f2) Q.
Proof. intros H s1 s2 Hs. eexists _, _, _, _. repeat split. auto. Qed.

Lemma rhoare_now (P : ctx -> ctx -> Prop)
    (Q : Z -> Z -> ctx -> ctx -> Prop) :
  (forall s1 s2, P s1 s2 ->
     Q (clock (statics s1) (reads (statics s1)))
       (clock (statics s2) (reads (statics s2)))
       (mk_ctx (with_reads (S (reads (statics s1))) (statics s1)) (self s1))
       (mk_ctx (with_reads (S (reads (statics s2))) (statics s2)) (self s2))) ->
  rhoare P now now Q.
Proof. intros H s1 s2 Hs. eexists _, _, _, _. repeat split. auto. Qed.

Lemma rhoare_checked_div (P : ctx -> ctx -> Prop) a b :
  b <> 0 ->
  rhoare P (checked_div a b) (checked_div a b)
    (fun r1 r2 s1 s2 => P s1 s2 /\ r1 = r2).
Proof.
  intros Hb s1 s2 Hs. unfold checked_div.
  destruct (Z.eqb_spec b 0) as [E | _]; [contradiction |].
  eexists _, _, _, _. repeat split. exact Hs.
Qed.

Lemma rhoare_when (P : ctx -> ctx -> Prop) (c : bool) m1 m2
    (Q : unit -> unit -> ctx -> ctx -> Prop) :
  (c = true -> rhoare P m1 m2 Q) ->
  (c = false -> forall s1 s2, P s1 s2 -> Q tt tt s1 s2) ->
  rhoare P (when c m1) (when c m2) Q.
Proof.
  intros Ht Hf. destruct c; simpl.
  - auto.
  - apply rhoare_ret. auto.
Qed.

(** The line that [generate_barcode] composes reads the static of
    [show_rate] only for a started bar with the rate field enabled. *)
Lemma generate_barcode_agree b ctrller num_per num_done interval avg1 avg2 :
  (is_updated b = true -> Z.testbit ctrller bit_index.rate = true ->
   avg1 = avg2) ->
  exists info a1 a2,
    generate_barcode b ctrller num_per num_done interval avg1
    = Some (info, a1) /\
    generate_barcode b ctrller num_per num_done interval avg2
    = Some (info, a2) /\
    (Z.testbit ctrller bit_index.rate = true -> a1 = a2) /\
    (Z.testbit ctrller bit_index.rate = false -> a1 = avg1 /\ a2 = avg2).
Proof.
  intros H. unfold generate_barcode.
  destruct (Z.testbit ctrller bit_index.rate) eqn:Er.
  - destruct (show_rate_some b interval avg1) as [txt1 E1].
    destruct (show_rate_some b interval avg2) as [txt2 E2].
    assert (E : show_rate b interval avg1 = show_rate b interval avg2).
    { unfold show_rate. destruct (is_updated b) eqn:Eu; simpl.
      - rewrite (H eq_refl eq_refl). reflexivity.
      - reflexivity. }
    rewrite E, E2. eexists _, _, _. repeat split; discriminate.
  - eexists _, _, _. repeat split; discriminate.
Qed.

Lemma rhoare_call_generate_barcode (P : ctx -> ctx -> Prop) ctrller num_per
    num_done interval (Q : frame -> frame -> ctx -> ctx -> Prop) :
  (forall s1 s2, P s1 s2 ->
     self s1 = self s2 /\
     (is_updated (self s1) = true ->
      Z.testbit ctrller bit_index.rate = true ->
      rate_invoke_interval (statics s1) = rate_invoke_interval (statics s2))) ->
  (forall s1 s2 info a1 a2, P s1 s2 ->
     (Z.testbit ctrller bit_index.rate = true -> a1 = a2) ->
     (Z.testbit ctrller bit_index.rate = false ->
      a1 = rate_invoke_interval (statics s1) /\
      a2 = rate_invoke_interval (statics s2)) ->
     Q info info
       (mk_ctx (with_rate_invoke_interval a1 (statics s1)) (self s1))
       (mk_ctx (with_rate_invoke_interval a2 (statics s2)) (self s2))) ->
  rhoare P (call_generate_barcode ctrller num_per num_done interval)
    (call_generate_barcode ctrller num_per num_done interval) Q.
Proof.
  intros Hpre Hpost s1 s2 Hs. unfold call_generate_barcode.
  destruct (Hpre s1 s2 Hs) as [Eself Havg].
  destruct (generate_barcode_agree (self s1) ctrller num_per num_done interval
              (rate_invoke_interval (statics s1))
              (rate_invoke_interval (statics s2)) Havg)
    as (info & a1 & a2 & E1 & E2 & H1 & H2).
  rewrite Eself in E2. rewrite E1, E2.
  eexists _, _, _, _. repeat split. apply Hpost; assumption.
Qed.

Lemma same_but_output_fields x y :
  with_stream [] x = with_stream [] y ->
  in_tty_ x = in_tty_ y /\ option_ x = option_ y /\
  task_cnt_ x = task_cnt_ y /\ update_flag_ x = update_flag_ y.
Proof.
  intros H. repeat split.
  - exact (f_equal in_tty_ H).
  - exact (f_equal option_ H).
  - exact (f_equal task_cnt_ H).
  - exact (f_equal update_flag_ H).
Qed.

Ltac unfold_agree :=
  unfold running_agree, started_agree, starting_agree, agree, agree_core,
    agree_statics in *;
  cbn [statics self clock reads done_flag last_bar_progress_ invoke_interval
       first_invoked rate_invoke_interval with_reads with_done_flag
       with_last_bar_progress with_invoke_interval with_first_invoked
       with_rate_invoke_interval] in *.

Ltac break_hyps :=
  repeat match goal with
         | H : _ /\ _ |- _ => destruct H
         | H : with_stream [] ?x = with_stream [] ?y |- _ =>
             lazymatch goal with
             | _ : in_tty_ x = in_tty_ y |- _ => fail
             | _ => pose proof (same_but_output_fields x y H)
             end
         end.

Ltac use_fields :=
  repeat match goal with
         | H : in_tty_ (self ?s) = in_tty_ ?b |- _ => rewrite H in *; clear H
         | H : option_ (self ?s) = option_ ?b |- _ => rewrite H in *; clear H
         | H : update_flag_ (self ?s) = update_flag_ ?b |- _ =>
             rewrite H in *; clear H
         | H : task_cnt_ (self ?s) = task_cnt_ ?b |- _ => rewrite H in *; clear H
         end.

Ltac rsolve :=
  unfold_agree; intros; break_hyps; repeat split; intros;
  cbn [in_tty_ option_ update_flag_ task_cnt_ with_update_flag with_stream] in *;
  use_fields;
  try discriminate; try congruence; auto;
  try solve [intuition congruence].

Ltac rnext rule := eapply rhoare_bind; [ rule | intros ? ?; cbv beta ].

(** The first render of a bar, from two states with the same bar and
    clock, leaves states that agree. *)
Lemma rhoare_first_render b :
  is_updated b = false ->
  rhoare (fun s1 s2 => agree_core s1 s2 /\ self s1 = b)
    (modify_statics (with_done_flag false) ;;
     modify_statics (with_last_bar_progress 0%Q) ;;
     when (in_tty_ b)
       (modify_statics (with_invoke_interval 0) ;;
        t <- now ;;
        modify_statics (with_first_invoked t) ;;
        info <- call_generate_barcode (option_ b) 0%Q 0 0 ;;
        write info) ;;
     modify_this (with_update_flag true))
    (modify_statics (with_done_flag false) ;;
     modify_statics (with_last_bar_progress 0%Q) ;;
     when (in_tty_ b)
       (modify_statics (with_invoke_interval 0) ;;
        t <- now ;;
        modify_statics (with_first_invoked t) ;;
        info <- call_generate_barcode (option_ b) 0%Q 0 0 ;;
        write info) ;;
     modify_this (with_update_flag true))
    (fun _ _ => started_agree).
Proof.
  intros Hb.
  rnext ltac:(apply rhoare_modify_statics
                with (Q := fun _ _ s1 s2 =>
                             agree_core s1 s2 /\ self s1 = b /\
                             done_flag (statics s1) = done_flag (statics s2))).
  { rsolve. }
  rnext ltac:(apply rhoare_modify_statics
                with (Q := fun _ _ => starting_agree b false)).
  { rsolve. }
  eapply rhoare_bind with (R := fun _ _ => starting_agree b (in_tty_ b)).
  { apply rhoare_when.
    - intros Htty. rewrite Htty.
      rnext ltac:(apply rhoare_modify_statics
                    with (Q := fun _ _ s1 s2 =>
                       starting_agree b false s1 s2 /\
                       invoke_interval (statics s1)
                       = invoke_interval (statics s2))).
      { rsolve. }
      eapply rhoare_bind;
        [apply rhoare_now
           with (Q := fun t1 t2 s1 s2 =>
                        (starting_agree b false s1 s2 /\
                         invoke_interval (statics s1)
                         = invoke_interval (statics s2)) /\ t1 = t2)
        | intros t t'; cbv beta].
      { rsolve. }
      apply rhoare_pure with (fact := t = t'); [intros s1 s2 [_ H]; auto |].
      intros <-.
      rnext ltac:(apply rhoare_modify_statics
                    with (Q := fun _ _ s1 s2 =>
                       starting_agree b false s1 s2 /\
                       invoke_interval (statics s1)
                       = invoke_interval (statics s2) /\
                       first_invoked (statics s1)
                       = first_invoked (statics s2))).
      { rsolve. }
      eapply rhoare_bind;
        [apply rhoare_call_generate_barcode
           with (Q := fun i1 i2 s1 s2 =>
                        starting_agree b true s1 s2 /\ i1 = i2)
        | intros info info'; cbv beta].
      { unfold is_updated in *. rsolve. }
      { rsolve. }
      apply rhoare_pure with (fact := info = info');
        [intros s1 s2 [_ H]; auto |].
      intros <-.
      apply rhoare_modify_this. rsolve.
    - intros Htty s1 s2 H. rewrite Htty. exact H. }
  intros ? ?; cbv beta.
  apply rhoare_modify_this. unfold is_updated in *. rsolve.
Qed.

Lemma testbit_rate_clearbit_bar o :
  Z.testbit (Z.clearbit o bit_index.bar) bit_index.rate
  = Z.testbit o bit_index.rate.
Proof. apply Z.clearbit_neq. discriminate. Qed.

(** A frame of a started bar on a terminal. *)
Lemma rhoare_frame b :
  in_tty_ b = true ->
  rhoare (running_agree b)
    (t <- now ;;
     st <- the_statics ;;
     let elapsed := Detail.wrap (t - first_invoked st) in
     interval <-
       (if Detail.neq_value (task_cnt_ b) 0
        then checked_div elapsed (Detail.deref (task_cnt_ b))
        else checked_div elapsed 1) ;;
     modify_statics (with_invoke_interval interval) ;;
     let num_percent :=
       (inject_Z (Detail.deref (task_cnt_ b)) /
        inject_Z (Detail.deref (Detail.end_ (task_cnt_ b))))%Q in
     controller <-
       (if Qltb (num_percent - last_bar_progress_ st) (1 # 100)
        then ret (Z.clearbit (option_ b) bit_index.bar)
        else modify_statics (with_last_bar_progress num_percent) ;;
             ret (option_ b)) ;;
     info <- call_generate_barcode controller num_percent
               (Detail.deref (task_cnt_ b)) interval ;;
     write info)
    (t <- now ;;
     st <- the_statics ;;
     let elapsed := Detail.wrap (t - first_invoked st) in
     interval <-
       (if Detail.neq_value (task_cnt_ b) 0
        then checked_div elapsed (Detail.deref (task_cnt_ b))
        else checked_div elapsed 1) ;;
     modify_statics (with_invoke_interval interval) ;;
     let num_percent :=
       (inject_Z (Detail.deref (task_cnt_ b)) /
        inject_Z (Detail.deref (Detail.end_ (task_cnt_ b))))%Q in
     controller <-
       (if Qltb (num_percent - last_bar_progress_ st) (1 # 100)
        then ret (Z.clearbit (option_ b) bit_index.bar)
        else modify_statics (with_last_bar_progress num_percent) ;;
             ret (option_ b)) ;;
     info <- call_generate_barcode controller num_percent
               (Detail.deref (task_cnt_ b)) interval ;;
     write info)
    (fun _ _ => running_agree b).
Proof.
  intros Htty. unfold running_agree.
  eapply rhoare_bind;
    [apply rhoare_now
       with (Q := fun t1 t2 s1 s2 => running_agree b s1 s2 /\ t1 = t2)
    | intros t t'; cbv beta].
  { unfold running_agree. rsolve. }
  apply rhoare_pure with (fact := t = t'); [intros s1 s2 [_ H]; auto |].
  intros <-.
  eapply rhoare_bind; [apply rhoare_the_statics | intros st st'; cbv beta zeta].
  apply rhoare_pure
    with (fact := first_invoked st = first_invoked st' /\
                  last_bar_progress_ st = last_bar_progress_ st').
  { intros s1 s2 ((H & _) & -> & ->). unfold running_agree in H. rsolve. }
  intros [-> ->].
  eapply rhoare_conseq with (P' := running_agree b)
    (Q' := fun _ _ => running_agree b);
    [| intros s1 s2 ((H & _) & _); exact H | auto].
  eapply rhoare_bind with
    (R := fun i1 i2 s1 s2 => running_agree b s1 s2 /\ i1 = i2).
  { destruct (Detail.neq_value (task_cnt_ b) 0) eqn:E;
      apply rhoare_checked_div; [| discriminate].
    unfold Detail.neq_value, Detail.eq_value in E. unfold Detail.deref.
    intros E0. rewrite E0 in E. discriminate. }
  intros interval interval'. cbv beta.
  apply rhoare_pure with (fact := interval = interval');
    [intros s1 s2 [_ H]; auto |].
  intros <-.
  eapply rhoare_bind;
    [apply rhoare_modify_statics with (Q := fun _ _ => running_agree b)
    | intros ? ?; cbv beta].
  { intros s1 s2 [H _]. unfold running_agree in *. rsolve. }
  eapply rhoare_bind with
    (R := fun c1 c2 s1 s2 =>
            running_agree b s1 s2 /\ c1 = c2 /\
            Z.testbit c1 bit_index.rate = Z.testbit (option_ b) bit_index.rate).
  { match goal with |- rhoare _ (if ?c then _ else _) _ _ => destruct c end.
    - apply rhoare_ret. intros s1 s2 H. split; [exact H |].
      split; [reflexivity | apply testbit_rate_clearbit_bar].
    - eapply rhoare_bind;
        [apply rhoare_modify_statics with (Q := fun _ _ => running_agree b)
        | intros ? ?; cbv beta].
      { intros s1 s2 H. unfold running_agree in *. rsolve. }
      apply rhoare_ret. intros s1 s2 H. auto. }
  intros controller controller'. cbv beta.
  apply rhoare_pure
    with (fact := controller = controller' /\
                  Z.testbit controller bit_index.rate
                  = Z.testbit (option_ b) bit_index.rate);
    [intros s1 s2 (_ & H1 & H2); auto |].
  intros [<- Hc].
  eapply rhoare_bind;
    [apply rhoare_call_generate_barcode
       with (Q := fun i1 i2 s1 s2 => running_agree b s1 s2 /\ i1 = i2)
    | intros info info'; cbv beta].
  { intros s1 s2 (H & _). unfold running_agree in H. rewrite Hc.
    unfold is_updated. rsolve. }
  { intros s1 s2 info0 v1 v2 (H & _) Ha _. rewrite Hc in Ha.
    unfold running_agree in *. rsolve. }
  apply rhoare_pure with (fact := info = info');
    [intros s1 s2 [_ H]; auto |].
  intros <-.
  apply rhoare_modify_this. intros s1 s2 [H _].
  unfold running_agree in *. rsolve.
Qed.

(** The final frame and the done flag. *)
Lemma rhoare_final b :
  rhoare (running_agree b)
    (when (in_tty_ b)
       (st <- the_statics ;;
        info <- call_generate_barcode (option_ b) 1%Q
                  (Detail.deref (Detail.end_ (task_cnt_ b)))
                  (invoke_interval st) ;;
        write (fst info, snd info ++ newline)) ;;
     modify_statics (with_done_flag true))
    (when (in_tty_ b)
       (st <- the_statics ;;
        info <- call_generate_barcode (option_ b) 1%Q
                  (Detail.deref (Detail.end_ (task_cnt_ b)))
                  (invoke_interval st) ;;
        write (fst info, snd info ++ newline)) ;;
     modify_statics (with_done_flag true))
    (fun _ _ => running_agree b).
Proof.
  eapply rhoare_bind with (R := fun _ _ => running_agree b).
  { apply rhoare_when; [intros Htty | auto].
    eapply rhoare_bind; [apply rhoare_the_statics | intros st st'; cbv beta].
    apply rhoare_pure
      with (fact := invoke_interval st = invoke_interval st').
    { intros s1 s2 (H & -> & ->). unfold running_agree in H. rsolve. }
    intros ->.
    eapply rhoare_conseq with (P' := running_agree b)
      (Q' := fun _ _ => running_agree b);
      [| intros s1 s2 (H & _); exact H | auto].
    eapply rhoare_bind;
      [apply rhoare_call_generate_barcode
         with (Q := fun i1 i2 s1 s2 => running_agree b s1 s2 /\ i1 = i2)
      | intros info info'; cbv beta].
    { intros s1 s2 H. unfold running_agree in H. unfold is_updated. rsolve. }
    { intros s1 s2 info0 v1 v2 H Ha _. unfold running_agree in *. rsolve. }
    apply rhoare_pure with (fact := info = info');
      [intros s1 s2 [_ H]; auto |].
    intros <-.
    apply rhoare_modify_this. intros s1 s2 [H _].
    unfold running_agree in *. rsolve. }
  intros ? ?; cbv beta.
  apply rhoare_modify_statics. intros s1 s2 H.
  unfold running_agree in *. rsolve.
Qed.

(** [rendering] keeps two states in agreement: a started bar reads only
    statics on which they agree, and a first render writes every static
    that it reads afterwards. *)
Lemma rhoare_rendering :
  rhoare agree rendering rendering (fun _ _ => started_agree).
Proof.
  unfold rendering.
  eapply rhoare_bind; [apply rhoare_this | intros b b'; cbv beta].
  apply rhoare_pure with (fact := b = b').
  { intros s1 s2 (H & -> & ->). unfold agree, agree_core in H. tauto. }
  intros <-.
  eapply rhoare_bind with (R := fun _ _ => started_agree).
  { apply rhoare_when.
    - intros Hb.
      eapply rhoare_conseq; [apply (rhoare_first_render b) | | auto].
      + now destruct (is_updated b).
      + intros s1 s2 (H & -> & _). unfold agree in H. tauto.
    - intros Hb s1 s2 (H & -> & _). unfold is_updated in Hb.
      unfold started_agree, agree in *.
      destruct (update_flag_ (self s1)); [tauto | discriminate]. }
  intros ? ?; cbv beta.
  eapply rhoare_bind; [apply rhoare_the_statics | intros st st'; cbv beta].
  apply rhoare_pure with (fact := done_flag st = done_flag st').
  { intros s1 s2 (H & -> & ->). rsolve. }
  intros ->.
  eapply rhoare_conseq with (P' := started_agree)
    (Q' := fun _ _ => started_agree);
    [| intros s1 s2 (H & _); exact H | auto].
  destruct (done_flag st').
  { apply rhoare_ret. auto. }
  eapply rhoare_bind; [apply rhoare_this | intros b1 b1'; cbv beta].
  apply rhoare_pure with (fact := b1 = b1').
  { intros s1 s2 (H & -> & ->). rsolve. }
  intros <-.
  eapply rhoare_bind with (R := fun _ _ => started_agree).
  { eapply rhoare_conseq with (P' := running_agree b1)
      (Q' := fun _ _ => running_agree b1);
      [| intros s1 s2 (H & -> & _); split; [exact H | reflexivity]
       | intros ? ? s1 s2 [H _]; exact H].
    apply rhoare_when; [apply rhoare_frame | auto]. }
  intros ? ?; cbv beta.
  eapply rhoare_bind; [apply rhoare_this | intros b2 b2'; cbv beta].
  apply rhoare_pure with (fact := b2 = b2').
  { intros s1 s2 (H & -> & ->). rsolve. }
  intros <-.
  eapply rhoare_conseq with (P' := running_agree b2)
    (Q' := fun _ _ => running_agree b2);
    [| intros s1 s2 (H & -> & _); split; [exact H | reflexivity]
     | intros ? ? s1 s2 [H _]; exact H].
  apply rhoare_when; [intros _; apply rhoare_final | auto].
Qed.

(** *** The driver and the calls *)

(** A change of the bar that keeps what [agree] looks at. *)
Lemma agree_modify_this (f : pgbar -> pgbar) s1 s2 :
  (forall b, update_flag_ (f b) = true ->
     update_flag_ b = true /\ in_tty_ (f b) = in_tty_ b /\
     option_ (f b) = option_ b) ->
  agree s1 s2 ->
  agree (mk_ctx (statics s1) (f (self s1)))
        (mk_ctx (statics s2) (f (self s2))).
Proof.
  intros Hf ((E & Hc & Hr) & Hs).
  unfold agree, agree_core, agree_statics in *. cbn [statics self].
  rewrite <- E. repeat split; try assumption;
    destruct (Hf (self s1) H) as (Hu & Ht & Ho);
    rewrite ?Ht, ?Ho in *; intuition auto.
Qed.

Lemma started_agree_agree s1 s2 : started_agree s1 s2 -> agree s1 s2.
Proof. unfold started_agree, agree. tauto. Qed.

Lemma rhoare_set_last_invoke v :
  rhoare agree (set_last_invoke v) (set_last_invoke v) (fun _ _ => agree).
Proof.
  apply rhoare_modify_this. intros s1 s2 H.
  apply (agree_modify_this
           (fun b => with_rndrer
                       (mk_singlethread (active_flag_ (rndrer_ b)) v) b));
    [| exact H].
  intros b Hb. auto.
Qed.

Lemma rhoare_set_active_flag v :
  rhoare agree (set_active_flag v) (set_active_flag v) (fun _ _ => agree).
Proof.
  apply rhoare_modify_this. intros s1 s2 H.
  apply (agree_modify_this
           (fun b => with_rndrer
                       (mk_singlethread v (last_invoke_ (rndrer_ b))) b));
    [| exact H].
  intros b Hb. auto.
Qed.

Lemma rhoare_task :
  rhoare agree rendering rendering (fun _ _ => agree).
Proof.
  eapply rhoare_conseq; [apply rhoare_rendering | auto |].
  intros ? ? s1 s2 H. now apply started_agree_agree.
Qed.

Lemma rhoare_now_agree :
  rhoare agree now now (fun t1 t2 s1 s2 => agree s1 s2 /\ t1 = t2).
Proof. apply rhoare_now. rsolve. Qed.

Lemma rhoare_this_agree :
  rhoare agree this this (fun b1 b2 s1 s2 => agree s1 s2 /\ b1 = b2).
Proof.
  eapply rhoare_conseq with (P' := agree); [apply rhoare_this | auto |].
  cbv beta. intros b1 b2 s1 s2 (H & -> & ->). split; [exact H |].
  unfold agree, agree_core in H. tauto.
Qed.

Lemma rhoare_active :
  rhoare agree (active rendering) (active rendering) (fun _ _ => agree).
Proof.
  unfold active.
  eapply rhoare_bind; [apply rhoare_this_agree | intros b b'; cbv beta].
  apply rhoare_pure with (fact := b = b'); [intros s1 s2 [_ H]; auto |].
  intros <-.
  eapply rhoare_conseq with (P' := agree) (Q' := fun _ _ => agree);
    [| intros s1 s2 [H _]; exact H | auto].
  destruct (active_flag_ (rndrer_ b)).
  { apply rhoare_ret. auto. }
  eapply rhoare_bind; [apply rhoare_now_agree | intros t t'; cbv beta].
  apply rhoare_pure with (fact := t = t'); [intros s1 s2 [_ H]; auto |].
  intros <-.
  eapply rhoare_conseq with (P' := agree) (Q' := fun _ _ => agree);
    [| intros s1 s2 [H _]; exact H | auto].
  eapply rhoare_bind; [apply rhoare_set_last_invoke | intros ? ?; cbv beta].
  eapply rhoare_bind; [apply rhoare_task | intros ? ?; cbv beta].
  apply rhoare_set_active_flag.
Qed.

Lemma rhoare_suspend :
  rhoare agree (suspend rendering) (suspend rendering) (fun _ _ => agree).
Proof.
  unfold suspend.
  eapply rhoare_bind; [apply rhoare_this_agree | intros b b'; cbv beta].
  apply rhoare_pure with (fact := b = b'); [intros s1 s2 [_ H]; auto |].
  intros <-.
  eapply rhoare_conseq with (P' := agree) (Q' := fun _ _ => agree);
    [| intros s1 s2 [H _]; exact H | auto].
  destruct (negb (active_flag_ (rndrer_ b))).
  { apply rhoare_ret. auto. }
  eapply rhoare_bind; [apply rhoare_task | intros ? ?; cbv beta].
  apply rhoare_set_active_flag.
Qed.

Lemma rhoare_render :
  rhoare agree (render rendering) (render rendering) (fun _ _ => agree).
Proof.
  unfold render.
  eapply rhoare_bind; [apply rhoare_this_agree | intros b b'; cbv beta].
  apply rhoare_pure with (fact := b = b'); [intros s1 s2 [_ H]; auto |].
  intros <-.
  eapply rhoare_conseq with (P' := agree) (Q' := fun _ _ => agree);
    [| intros s1 s2 [H _]; exact H | auto].
  destruct (negb (active_flag_ (rndrer_ b))).
  { apply rhoare_ret. auto. }
  eapply rhoare_bind; [apply rhoare_now_agree | intros t t'; cbv beta].
  apply rhoare_pure with (fact := t = t'); [intros s1 s2 [_ H]; auto |].
  intros <-.
  eapply rhoare_conseq with (P' := agree) (Q' := fun _ _ => agree);
    [| intros s1 s2 [H _]; exact H | auto].
  match goal with |- rhoare _ (if ?c then _ else _) _ _ => destruct c end.
  { apply rhoare_ret. auto. }
  eapply rhoare_bind; [apply rhoare_set_last_invoke | intros ? ?; cbv beta].
  apply rhoare_task.
Qed.

Lemma do_update_pass invokable s :
  is_done (self s) = false ->
  Detail.num_tasks_ (task_cnt_ (self s)) <> 0 ->
  do_update invokable s
  = (when (negb (is_updated (self s))) (active rendering) ;;
     invokable ;;
     render rendering ;;
     b <- this ;;
     when (Detail.is_ended (task_cnt_ b)) (suspend rendering)) s.
Proof.
  intros Hd Hn. unfold do_update. unfold bind at 1, this at 1.
  rewrite Hd. unfold Detail.eq_value, Detail.end_. simpl.
  destruct (Z.eqb_spec (Detail.num_tasks_ (task_cnt_ (self s))) 0);
    [contradiction | reflexivity].
Qed.

Lemma do_update_agree (f : Detail.counter_iterator -> Detail.counter_iterator)
    s1 s2 :
  agree s1 s2 ->
  let m := do_update
             (modify_this (fun b => with_task_cnt (f (task_cnt_ b)) b)) in
  fst (m s1) = fst (m s2) /\ agree (snd (m s1)) (snd (m s2)).
Proof.
  intros H m. subst m. pose proof H as ((E & _) & _).
  destruct (is_done (self s1)) eqn:Hd.
  { rewrite !do_update_full by congruence. split; [reflexivity | exact H]. }
  destruct (Z.eq_dec (Detail.num_tasks_ (task_cnt_ (self s1))) 0) as [E0 | E0].
  { rewrite !do_update_zero by congruence. split; [reflexivity | exact H]. }
  rewrite !do_update_pass by congruence. rewrite <- E.
  assert (R : rhoare agree
            (when (negb (is_updated (self s1))) (active rendering) ;;
             modify_this (fun b => with_task_cnt (f (task_cnt_ b)) b) ;;
             render rendering ;;
             b <- this ;;
             when (Detail.is_ended (task_cnt_ b)) (suspend rendering))
            (when (negb (is_updated (self s1))) (active rendering) ;;
             modify_this (fun b => with_task_cnt (f (task_cnt_ b)) b) ;;
             render rendering ;;
             b <- this ;;
             when (Detail.is_ended (task_cnt_ b)) (suspend rendering))
            (fun _ _ => agree)).
  { eapply rhoare_bind with (R := fun _ _ => agree).
    { apply rhoare_when; [intros _; apply rhoare_active | auto]. }
    intros ? ?; cbv beta.
    eapply rhoare_bind with (R := fun _ _ => agree).
    { apply rhoare_modify_this. intros t1 t2 Ht.
      apply (agree_modify_this
               (fun b => with_task_cnt (f (task_cnt_ b)) b)); [| exact Ht].
      intros b Hb. auto. }
    intros ? ?; cbv beta.
    eapply rhoare_bind; [apply rhoare_render | intros ? ?; cbv beta].
    eapply rhoare_bind; [apply rhoare_this_agree | intros b b'; cbv beta].
    apply rhoare_pure with (fact := b = b'); [intros t1 t2 [_ Hb]; auto |].
    intros <-.
    eapply rhoare_conseq with (P' := agree) (Q' := fun _ _ => agree);
      [| intros t1 t2 [Ht _]; exact Ht | auto].
    apply rhoare_when; [intros _; apply rhoare_suspend | auto]. }
  destruct (R s1 s2 H) as ([] & [] & t1 & t2 & E1 & E2 & Ht).
  rewrite E1, E2. split; [reflexivity | exact Ht].
Qed.

Lemma reset_agree s1 s2 :
  agree s1 s2 ->
  fst (reset s1) = fst (reset s2) /\ agree (snd (reset s1)) (snd (reset s2)).
Proof.
  intros H. pose proof H as ((E & _) & _).
  destruct (update_flag_ (self s1)) eqn:Hu.
  2:{ rewrite !reset_idle by congruence. split; [reflexivity | exact H]. }
  assert (Hr : forall s, update_flag_ (self s) = true ->
            reset s
            = (modify_this
                 (fun b => with_task_cnt (Detail.assign_value (task_cnt_ b) 0) b) ;;
               suspend rendering ;;
               modify_this (with_update_flag false)) s).
  { intros s Hs. unfold reset. unfold bind at 1, this at 1.
    unfold is_updated. rewrite Hs. reflexivity. }
  rewrite !Hr by congruence.
  assert (R : rhoare agree
            (modify_this
               (fun b => with_task_cnt (Detail.assign_value (task_cnt_ b) 0) b) ;;
             suspend rendering ;;
             modify_this (with_update_flag false))
            (modify_this
               (fun b => with_task_cnt (Detail.assign_value (task_cnt_ b) 0) b) ;;
             suspend rendering ;;
             modify_this (with_update_flag false))
            (fun _ _ => agree)).
  { eapply rhoare_bind with (R := fun _ _ => agree).
    { apply rhoare_modify_this. intros t1 t2 Ht.
      apply (agree_modify_this
               (fun b => with_task_cnt (Detail.assign_value (task_cnt_ b) 0) b));
        [| exact Ht].
      intros b Hb. auto. }
    intros ? ?; cbv beta.
    eapply rhoare_bind; [apply rhoare_suspend | intros ? ?; cbv beta].
    apply rhoare_modify_this. intros t1 t2 Ht.
    apply (agree_modify_this (with_update_flag false)); [| exact Ht].
    intros b Hb. discriminate Hb. }
  destruct (R s1 s2 H) as ([] & [] & t1 & t2 & E1 & E2 & Ht).
  rewrite E1, E2. split; [reflexivity | exact Ht].
Qed.

(** A setter reads and writes the bar alone, and leaves the started
    flag, the terminal flag and, once started, the field selection. *)
Lemma init_length_keeps c b :
  update_flag_ (init_length c b) = update_flag_ b /\
  in_tty_ (init_length c b) = in_tty_ b /\
  option_ (init_length c b) = option_ b.
Proof. destruct c; repeat split; reflexivity. Qed.

Lemma apply_style_keeps sel b :
  update_flag_ (apply_style sel b) = update_flag_ b /\
  in_tty_ (apply_style sel b) = in_tty_ b.
Proof.
  unfold apply_style.
  destruct (Style.total_tasks sel), (Style.each_setp sel);
    split; reflexivity.
Qed.

Lemma setter_local c :
  is_setter c = true ->
  exists (r : pgbar -> outcome unit) (f : pgbar -> pgbar),
    (forall s, run_call c s = (r (self s), mk_ctx (statics s) (f (self s)))) /\
    (forall b, update_flag_ (f b) = update_flag_ b /\
               in_tty_ (f b) = in_tty_ b /\
               (update_flag_ b = true -> option_ (f b) = option_ b)).
Proof.
  intros Hc.
  assert (simple : forall (g : pgbar -> pgbar) (m : M unit),
            (forall s, m s = (Ok tt,
                              mk_ctx (statics s)
                                (if update_flag_ (self s) then self s
                                 else g (self s)))) ->
            (forall b, update_flag_ (g b) = update_flag_ b /\
                       in_tty_ (g b) = in_tty_ b) ->
            exists (r : pgbar -> outcome unit) (f : pgbar -> pgbar),
              (forall s, m s = (r (self s), mk_ctx (statics s) (f (self s)))) /\
              (forall b, update_flag_ (f b) = update_flag_ b /\
                         in_tty_ (f b) = in_tty_ b /\
                         (update_flag_ b = true -> option_ (f b) = option_ b))).
  { intros g m Hm Hg.
    exists (fun _ => Ok tt), (fun b => if update_flag_ b then b else g b).
    split; [exact Hm |].
    intros b. destruct (Hg b) as [H1 H2].
    destruct (update_flag_ b) eqn:E; repeat split; auto; discriminate. }
  destruct c; try discriminate Hc; simpl.
  - (* set_step *)
    exists (fun b => if update_flag_ b then Ok tt
                     else if _step =? 0 then Throw zero_step_error else Ok tt),
           (fun b => if update_flag_ b then b
                     else if _step =? 0 then b
                     else with_task_cnt (Detail.set_step (task_cnt_ b) _step) b).
    split.
    + intros [g b]. unfold set_step, bind, this, is_updated, ret, throw,
        modify_this. simpl.
      destruct (update_flag_ b); [reflexivity |].
      destruct (_step =? 0); reflexivity.
    + intros b. destruct (update_flag_ b) eqn:E, (_step =? 0);
        repeat split; auto.
  - (* set_task *)
    exists (fun b => if update_flag_ b then Ok tt
                     else if _total_tsk =? 0 then Throw zero_tasks_error
                     else Ok tt),
           (fun b => if update_flag_ b then b
                     else if _total_tsk =? 0 then b
                     else init_length true
                            (with_task_cnt
                               (Detail.set_task (task_cnt_ b) _total_tsk) b)).
    split.
    + intros [g b]. unfold set_task, bind, this, is_updated, ret, throw,
        modify_this. cbn [self statics].
      destruct (update_flag_ b); [reflexivity |].
      destruct (_total_tsk =? 0); reflexivity.
    + intros b. destruct (update_flag_ b) eqn:E, (_total_tsk =? 0);
        repeat split; auto; try discriminate.
  - apply (simple (with_done_ch _done_ch)); [| auto].
    intros [g b]. unfold set_done, bind, this, when, is_updated, ret,
      modify_this. cbn [self statics]. destruct (update_flag_ b); reflexivity.
  - apply (simple (with_todo_ch _todo_ch)); [| auto].
    intros [g b]. unfold set_todo, bind, this, when, is_updated, ret,
      modify_this. cbn [self statics]. destruct (update_flag_ b); reflexivity.
  - apply (simple (with_startpoint _startpoint)); [| auto].
    intros [g b]. unfold set_startpoint, bind, this, when, is_updated, ret,
      modify_this. cbn [self statics]. destruct (update_flag_ b); reflexivity.
  - apply (simple (with_endpoint _endpoint)); [| auto].
    intros [g b]. unfold set_endpoint, bind, this, when, is_updated, ret,
      modify_this. cbn [self statics]. destruct (update_flag_ b); reflexivity.
  - (* set_lstatus *)
    exists (fun _ => Ok tt),
           (fun b => init_length false
                       (if update_flag_ b then b else with_lstatus _lstatus b)).
    split.
    + intros [g b]. unfold set_lstatus, bind, this, when, is_updated, ret,
        modify_this. cbn [self statics]. destruct (update_flag_ b); reflexivity.
    + intros b. destruct (update_flag_ b) eqn:E; repeat split;
        try apply init_length_keeps; auto.
  - (* set_rstatus *)
    exists (fun _ => Ok tt),
           (fun b => init_length false
                       (if update_flag_ b then b else with_rstatus _rstatus b)).
    split.
    + intros [g b]. unfold set_rstatus, bind, this, when, is_updated, ret,
        modify_this. cbn [self statics]. destruct (update_flag_ b); reflexivity.
    + intros b. destruct (update_flag_ b) eqn:E; repeat split;
        try apply init_length_keeps; auto.
  - apply (simple (with_bar_length _length)); [| auto].
    intros [g b]. unfold set_bar_length, bind, this, when, is_updated, ret,
      modify_this. cbn [self statics]. destruct (update_flag_ b); reflexivity.
  - apply (simple (with_todo_col _dye)); [| auto].
    intros [g b]. unfold set_todo_col, bind, this, when, is_updated, ret,
      modify_this. cbn [self statics]. destruct (update_flag_ b); reflexivity.
  - apply (simple (with_done_col _dye)); [| auto].
    intros [g b]. unfold set_done_col, bind, this, when, is_updated, ret,
      modify_this. cbn [self statics]. destruct (update_flag_ b); reflexivity.
  - apply (simple (with_status_col _dye)); [| auto].
    intros [g b]. unfold set_status_col, bind, this, when, is_updated, ret,
      modify_this. cbn [self statics]. destruct (update_flag_ b); reflexivity.
  - (* set_style *)
    exists (fun _ => Ok tt),
           (fun b => init_length false
                       (if update_flag_ b then b
                        else with_option (_selection mod 256) b)).
    split.
    + intros [g b]. unfold set_style, bind, this, when, is_updated, ret,
        modify_this. cbn [self statics]. destruct (update_flag_ b); reflexivity.
    + intros b. destruct (update_flag_ b) eqn:E; repeat split;
        try apply init_length_keeps; auto; discriminate.
  - (* set_style, the bundle *)
    apply (simple (fun b => init_length true (apply_style _selection b))).
    + intros [g b]. unfold set_style_bundle, bind, this, is_updated, ret,
        modify_this. cbn [self statics]. destruct (update_flag_ b); reflexivity.
    + intros b. destruct (init_length_keeps true (apply_style _selection b))
        as (H1 & H2 & _).
      destruct (apply_style_keeps _selection b) as (H3 & H4).
      split; congruence.
Qed.

Lemma call_agree c s1 s2 :
  agree s1 s2 ->
  fst (run_call c s1) = fst (run_call c s2) /\
  agree (snd (run_call c s1)) (snd (run_call c s2)).
Proof.
  intros H. destruct (is_setter c) eqn:Hc.
  - destruct (setter_local c Hc) as (r & f & Hrun & Hf).
    rewrite !Hrun. cbn [fst snd]. pose proof H as ((E & _) & _).
    split; [now rewrite E |].
    apply agree_modify_this; [| exact H].
    intros b Hb. destruct (Hf b) as (H1 & H2 & H3).
    rewrite H1 in Hb. auto.
  - destruct c; try discriminate Hc; simpl.
    + apply (do_update_agree Detail.pre_increment); exact H.
    + apply (do_update_agree (fun c => Detail.add_assign c next_step));
        exact H.
    + apply reset_agree; exact H.
Qed.

Lemma run_calls_agree cs s1 s2 :
  agree s1 s2 -> agree (run_calls cs s1) (run_calls cs s2).
Proof.
  revert s1 s2. induction cs as [| c rest IH]; intros s1 s2 H; simpl.
  - exact H.
  - apply IH. unfold exec. apply call_agree. exact H.
Qed.

(* ================================================================== *)
(** * Two bars *)

Lemma clock_with_done_flag v g : clock (with_done_flag v g) = clock g.
Proof. reflexivity. Qed.

Lemma reads_with_done_flag v g : reads (with_done_flag v g) = reads g.
Proof. reflexivity. Qed.

(** What a bar that has not started does from then on depends on the
    statics through the clock alone. *)
Lemma fresh_bar_forgets_render_state (g1 g2 : globals) (b : pgbar)
    (cs : list call) :
  is_updated b = false ->
  clock g1 = clock g2 ->
  reads g1 = reads g2 ->
  self (run_calls cs (mk_ctx g1 b)) = self (run_calls cs (mk_ctx g2 b)).
Proof.
  intros Hb Hc Hr.
  assert (H : agree (mk_ctx g1 b) (mk_ctx g2 b)).
  { unfold agree, agree_core. cbn [self statics]. unfold is_updated in Hb.
    split; [repeat split; assumption |].
    intros Hu. congruence. }
  destruct (run_calls_agree cs _ _ H) as ((E & _) & _). exact E.
Qed.

(** C5 (as the code has it): a call on one bar leaves every data member of
    the other bar as it was (its counter, its style configuration, its
    started flag, its driver and the output it has written); and when the
    other bar has not started, what it does afterwards, under any sequence
    of calls, is what it would do from any other value [g] of the statics
    with the same clock: the render state that the call has left in the
    shared statics is not read. *)
Theorem C5_bars_share_only_the_render_state {A} (i : which) (m : M A)
    (w : program) (g : globals) (cs : list call) :
  get_bar (other i) (snd (on i m w)) = get_bar (other i) w /\
  (is_updated (get_bar (other i) w) = false ->
   clock g = clock (shared (snd (on i m w))) ->
   reads g = reads (shared (snd (on i m w))) ->
   self (run_calls cs
           (mk_ctx (shared (snd (on i m w))) (get_bar (other i) w)))
   = self (run_calls cs (mk_ctx g (get_bar (other i) w)))).
Proof.
  split.
  - unfold on. destruct (m (mk_ctx (shared w) (get_bar i w))) as [r s].
    destruct i; reflexivity.
  - intros Hb Hc Hr. apply fresh_bar_forgets_render_state; auto.
Qed.

Lemma C5_bars_share_only_the_render_state_witness :
  is_updated (get_bar (other BarA) fresh_bars) = false /\
  done_flag (shared (snd (on BarA update fresh_bars))) = true /\
  done_flag cleared_statics = false /\
  self (run_calls [CUpdate; CUpdate]
          (mk_ctx (shared (snd (on BarA update fresh_bars)))
             (get_bar (other BarA) fresh_bars)))
  = self (run_calls [CUpdate; CUpdate]
            (mk_ctx cleared_statics (get_bar (other BarA) fresh_bars))).
Proof.
  assert (H : is_updated (get_bar (other BarA) fresh_bars) = false)
    by reflexivity.
  assert (Hc : clock cleared_statics
               = clock (shared (snd (on BarA update fresh_bars))))
    by apply clock_with_done_flag.
  assert (Hr : reads cleared_statics
               = reads (shared (snd (on BarA update fresh_bars))))
    by apply reads_with_done_flag.
  split; [exact H |].
  split; [vm_compute; reflexivity |].
  split; [reflexivity |].
  exact (proj2 (C5_bars_share_only_the_render_state BarA update fresh_bars
                  cleared_statics [CUpdate; CUpdate]) H Hc Hr).
Defined.

(** C5, counterexample: with [b( 4, 1 )] running, one [update()] of
    [a( 1, 1 )] finishes [a], which sets the static [done_flag]; the next
    [update()] of [b] then prints nothing, where it would have printed a
    frame. *)
Lemma C5_isolation_counterexample :
  ~ isolated_at two_bars BarA update update.
Proof.
  assert (E0 : done_flag (shared two_bars) = false)
    by (vm_compute; reflexivity).
  assert (E1 : done_flag (shared (snd (on BarA update two_bars))) = true)
    by (vm_compute; reflexivity).
  intros [H _]. unfold render_state in H.
  rewrite E0, E1 in H. discriminate H.
Qed.

Example two_bars_output_lost :
  List.length (output_of BarB update two_bars) = 1%nat /\
  output_of BarB update (snd (on BarA update two_bars)) = [].
Proof. split; vm_compute; reflexivity. Qed.

(* ================================================================== *)
(** * Further properties of the header *)

(** ** Strings and the text layout *)

Lemma size_append (s t : string) : Str.size (s ++ t) = Str.size s + Str.size t.
Proof.
  unfold Str.size.
  assert (E : String.length (s ++ t)
              = (String.length s + String.length t)%nat).
  { induction s as [| c s IH]; simpl; congruence. }
  rewrite E. lia.
Qed.

Lemma size_nonneg (s : string) : 0 <= Str.size s.
Proof. unfold Str.size. lia. Qed.

Lemma size_fill_neg n c : n <= 0 -> Str.size (Str.fill n c) = 0.
Proof.
  intros Hn. unfold Str.size, Str.fill.
  replace (Z.to_nat n) with 0%nat by lia. reflexivity.
Qed.

Lemma append_nil_r (s : string) : s ++ EmptyString = s.
Proof. induction s as [| c s IH]; cbn; congruence. Qed.

(** The width of what [formatter] returns. *)
Lemma size_formatter (_style : txt_layout) (_width : Z) (_str : string) :
  Str.size (formatter _style _width _str)
  = (if _width =? 0 then 0 else Z.max _width (Str.size _str)).
Proof.
  unfold formatter.
  destruct (Z.eqb_spec _width 0) as [E | E]; [reflexivity |].
  destruct (Z.leb_spec _width (Str.size _str)) as [H | H]; [lia |].
  destruct _style; rewrite ?size_append.
  - rewrite size_fill by lia. lia.
  - rewrite size_fill by lia. lia.
  - pose proof (Z.div_pos (_width - Str.size _str) 2 ltac:(lia) ltac:(lia)).
    assert ((_width - Str.size _str) / 2 <= _width - Str.size _str)
      by (apply Z.div_le_upper_bound; lia).
    rewrite !size_fill by lia. lia.
Qed.

(** X1: the hand-written body of [formatter], the one compiled before
    C++20 (under [#else] of [#if __PGBAR_CXX20__]), pads and never
    truncates.  For a width of zero it returns the empty string, whatever
    the text.  Otherwise, for a width a string can have, it returns the
    text between [l] blanks and [r] blanks that make up for what the text
    lacks of the width: none if the text is as wide or wider, all on the
    right for [align_left], all on the left for [align_right], and for
    [align_center] split in halves with the odd blank on the left.  (The
    C++20 body, [std::format], differs in the last point only: it puts
    the odd blank on the right.) *)
Theorem X1_formatter_pads_never_truncates (_style : txt_layout) (_width : Z)
    (_str : string) :
  0 <= _width <= Str.max_size ->
  exists l r,
    formatter _style _width _str
    = (if _width =? 0 then EmptyString
       else Str.fill l blank ++ _str ++ Str.fill r blank) /\
    0 <= r /\ 0 <= l /\
    l + r = Z.max 0 (_width - Str.size _str) /\
    match _style with
    | align_left => l = 0
    | align_right => r = 0
    | align_center => r <= l <= r + 1
    end.
Proof.
  intros _.
  pose proof (size_nonneg _str) as Hs.
  unfold formatter.
  destruct (Z.eqb_spec _width 0) as [E | E].
  { exists (Z.max 0 (_width - Str.size _str)), 0.
    split; [reflexivity |]. destruct _style; lia. }
  destruct (Z.leb_spec _width (Str.size _str)) as [H | H].
  { exists 0, 0. split; [cbn; now rewrite append_nil_r |].
    destruct _style; lia. }
  destruct _style.
  - exists 0, (_width - Str.size _str). split; [reflexivity | lia].
  - exists (_width - Str.size _str), 0.
    split; [cbn [Str.fill Z.to_nat Str.replicate]; now rewrite append_nil_r |].
    lia.
  - exists (_width - Str.size _str - (_width - Str.size _str) / 2),
      ((_width - Str.size _str) / 2).
    split; [reflexivity |].
    pose proof (Z.div_mod (_width - Str.size _str) 2 ltac:(lia)).
    pose proof (Z.mod_pos_bound (_width - Str.size _str) 2 ltac:(lia)).
    lia.
Qed.

Lemma X1_formatter_pads_never_truncates_witness :
  0 <= 5 <= Str.max_size /\
  exists l r,
    formatter align_center 5 "ab"
    = (if 5 =? 0 then EmptyString
       else Str.fill l blank ++ "ab" ++ Str.fill r blank) /\
    0 <= r /\ 0 <= l /\
    l + r = Z.max 0 (5 - Str.size "ab") /\
    r <= l <= r + 1.
Proof.
  assert (H : 0 <= 5 <= Str.max_size) by (vm_compute; split; discriminate).
  split; [exact H |].
  exact (X1_formatter_pads_never_truncates align_center 5 "ab" H).
Defined.

Lemma size_append_times n src :
  Str.size (append_times n src) = Z.of_nat n * Str.size src.
Proof.
  induction n as [| n IH].
  - reflexivity.
  - cbn [append_times]. rewrite size_append, IH. lia.
Qed.

(** X2: as long as [n] copies of [src] make a string that can exist, no
    longer than [std::string::max_size()], [bulk_copy( n, src )] has [n]
    times the length of [src]; it is empty for zero copies and for an
    empty source. *)
Theorem X2_bulk_copy_size (_time : Z) (_src : string) :
  0 <= _time ->
  _time * Str.size _src <= Str.max_size ->
  Str.size (bulk_copy _time _src) = _time * Str.size _src /\
  (_time = 0 \/ _src = EmptyString -> bulk_copy _time _src = EmptyString).
Proof.
  intros Ht _. unfold bulk_copy. split.
  - destruct (Z.eqb_spec _time 0) as [E | E]; cbn [orb];
      [subst; reflexivity |].
    destruct (Z.eqb_spec (Str.size _src) 0) as [E0 | E0];
      [rewrite E0; change (Str.size EmptyString) with 0; lia |].
    rewrite size_append_times, Z2Nat.id by exact Ht. reflexivity.
  - intros [-> | ->]; [reflexivity |].
    destruct (_time =? 0); reflexivity.
Qed.

Lemma X2_bulk_copy_size_witness :
  0 <= 3 /\ 3 * Str.size "ab" <= Str.max_size /\
  Str.size (bulk_copy 3 "ab") = 3 * Str.size "ab".
Proof.
  assert (H : 0 <= 3) by lia.
  assert (H' : 3 * Str.size "ab" <= Str.max_size)
    by (vm_compute; discriminate).
  split; [exact H |]. split; [exact H' |].
  exact (proj1 (X2_bulk_copy_size 3 "ab" H H')).
Defined.

(** [std::round] of a fraction of the bar width stays within the bar. *)
Lemma std_round_fraction (n : Z) (p : Q) :
  0 <= n -> (0 <= p)%Q -> (p <= 1)%Q ->
  0 <= Str.std_round (inject_Z n * p) <= n.
Proof.
  intros Hn H0 H1.
  assert (Hq0 : (0 <= inject_Z n * p)%Q).
  { apply Qmult_le_0_compat; [| exact H0].
    change 0%Q with (inject_Z 0). now rewrite <- Zle_Qle. }
  assert (Hq1 : (inject_Z n * p <= inject_Z n)%Q).
  { rewrite <- (Qmult_1_r (inject_Z n)) at 2.
    rewrite (Qmult_comm (inject_Z n) p), (Qmult_comm (inject_Z n) 1).
    apply Qmult_le_compat_r; [exact H1 |].
    change 0%Q with (inject_Z 0). now rewrite <- Zle_Qle. }
  assert (Hh : Qfloor (inject_Z n + (1 # 2)) = n).
  { unfold Qfloor, inject_Z, Qplus. cbn [Qnum Qden].
    change (Z.pos (1 * 2)) with 2.
    replace (n * 2 + 1 * 1) with (1 + n * 2) by lia.
    rewrite Z.div_add by lia. reflexivity. }
  unfold Str.std_round.
  destruct (Qcompare (inject_Z n * p) 0) eqn:E.
  2:{ rewrite <- Qlt_alt in E. exfalso.
      apply (Qlt_irrefl 0). eapply Qle_lt_trans; eauto. }
  all: split.
  all: try (change 0 with (Qfloor 0); apply Qfloor_resp_le;
            apply Qle_trans with (inject_Z n * p)%Q; [exact Hq0 |];
            rewrite <- (Qplus_0_r (inject_Z n * p)) at 1;
            apply Qplus_le_r; discriminate).
  all: rewrite <- Hh at 2; apply Qfloor_resp_le, Qplus_le_l; exact Hq1.
Qed.

(** What [show_bar] draws for a proportion between 0 and 1. *)
Lemma show_bar_shape (b : pgbar) (num_per : Q) :
  Detail.in_SizeT (bar_length_ b) ->
  (0 <= num_per)%Q -> (num_per <= 1)%Q ->
  exists done_len,
    0 <= done_len <= bar_length_ b /\
    show_bar b num_per
    = startpoint_ b ++
      done_col_ b ++ append_times (Z.to_nat done_len) (done_ch_ b) ++
      todo_col_ b ++
      append_times (Z.to_nat (bar_length_ b - done_len)) (todo_ch_ b) ++
      Style.PGBAR_DEFAULT_COL ++ endpoint_ b ++ " ".
Proof.
  intros Hb H0 H1.
  pose proof (std_round_fraction (bar_length_ b) num_per (proj1 Hb) H0 H1)
    as Hd.
  set (d := Str.std_round (inject_Z (bar_length_ b) * num_per)) in *.
  assert (Hw : Detail.wrap (bar_length_ b - d) = bar_length_ b - d).
  { apply wrap_small. unfold Detail.in_SizeT in *. lia. }
  assert (Hcopy : forall n src, 0 <= n ->
            bulk_copy n src = append_times (Z.to_nat n) src).
  { intros n src Hn. unfold bulk_copy.
    destruct (Z.eqb_spec n 0) as [-> | Hn0]; [reflexivity |].
    destruct (Z.eqb_spec (Str.size src) 0) as [E | E]; [| reflexivity].
    cbn [orb]. destruct src; [| discriminate E].
    clear. induction (Z.to_nat n); [reflexivity | assumption]. }
  exists d. split; [exact Hd |].
  unfold show_bar. fold d. rewrite Hw.
  rewrite !Hcopy by lia. reflexivity.
Qed.

(** X3: for a proportion between 0 and 1, a bar length that a [double]
    holds exactly (below [2^53]) and a bar that fits in a string (no
    longer than [std::string::max_size()]), [show_bar] draws exactly
    [bar_length_] glyphs: the copies of the done glyph and of the to-do
    glyph always add up to the bar length, none is lost to rounding and
    the unsigned subtraction does not wrap.  Around them it puts the two
    end points, the three colour sequences and one blank. *)
Theorem X3_show_bar_draws_bar_length_glyphs (b : pgbar) (num_per : Q) :
  0 <= bar_length_ b < double_exact_bound ->
  bar_text_bound b <= Str.max_size ->
  (0 <= num_per)%Q -> (num_per <= 1)%Q ->
  exists done_len,
    0 <= done_len <= bar_length_ b /\
    show_bar b num_per
    = startpoint_ b ++
      done_col_ b ++ append_times (Z.to_nat done_len) (done_ch_ b) ++
      todo_col_ b ++
      append_times (Z.to_nat (bar_length_ b - done_len)) (todo_ch_ b) ++
      Style.PGBAR_DEFAULT_COL ++ endpoint_ b ++ " " /\
    Str.size (show_bar b num_per)
    = Str.size (startpoint_ b) + Str.size (done_col_ b)
      + done_len * Str.size (done_ch_ b)
      + Str.size (todo_col_ b)
      + (bar_length_ b - done_len) * Str.size (todo_ch_ b)
      + Str.size Style.PGBAR_DEFAULT_COL + Str.size (endpoint_ b) + 1.
Proof.
  intros Hbl _ H0 H1.
  assert (Hb : Detail.in_SizeT (bar_length_ b)).
  { unfold Detail.in_SizeT, Detail.SizeT_modulus, double_exact_bound in *.
    lia. }
  destruct (show_bar_shape b num_per Hb H0 H1) as (d & Hd & E).
  exists d. split; [exact Hd |]. split; [exact E |].
  rewrite E. rewrite !size_append, !size_append_times.
  rewrite !Z2Nat.id by lia.
  change (Str.size " ") with 1. lia.
Qed.

Lemma X3_show_bar_draws_bar_length_glyphs_witness :
  exists done_len,
    0 <= done_len <= bar_length_ (pgbar_new 4 1 true) /\
    show_bar (pgbar_new 4 1 true) (1 # 2)
    = startpoint_ (pgbar_new 4 1 true) ++
      done_col_ (pgbar_new 4 1 true) ++
      append_times (Z.to_nat done_len) (done_ch_ (pgbar_new 4 1 true)) ++
      todo_col_ (pgbar_new 4 1 true) ++
      append_times (Z.to_nat (bar_length_ (pgbar_new 4 1 true) - done_len))
        (todo_ch_ (pgbar_new 4 1 true)) ++
      Style.PGBAR_DEFAULT_COL ++ endpoint_ (pgbar_new 4 1 true) ++ " " /\
    Str.size (show_bar (pgbar_new 4 1 true) (1 # 2))
    = Str.size (startpoint_ (pgbar_new 4 1 true))
      + Str.size (done_col_ (pgbar_new 4 1 true))
      + done_len * Str.size (done_ch_ (pgbar_new 4 1 true))
      + Str.size (todo_col_ (pgbar_new 4 1 true))
      + (bar_length_ (pgbar_new 4 1 true) - done_len)
        * Str.size (todo_ch_ (pgbar_new 4 1 true))
      + Str.size Style.PGBAR_DEFAULT_COL
      + Str.size (endpoint_ (pgbar_new 4 1 true)) + 1.
Proof.
  apply (X3_show_bar_draws_bar_length_glyphs (pgbar_new 4 1 true) (1 # 2)).
  - vm_compute. split; [discriminate | reflexivity].
  - vm_compute. discriminate.
  - discriminate.
  - discriminate.
Defined.

(** ** The counter *)

(** X4: [operator+=] saturates: as long as the sum [current_ + _increment]
    fits in [SizeT], the new position is the smaller of the sum and
    [num_tasks_]; the counter does not move back and does not pass the
    total. *)
Theorem X4_add_assign_is_min (c : Detail.counter_iterator) (n : Z) :
  0 <= Detail.current_ c -> 0 <= n ->
  Detail.current_ c + n < Detail.SizeT_modulus ->
  Detail.current_ (Detail.add_assign c n)
  = Z.min (Detail.num_tasks_ c) (Detail.current_ c + n) /\
  Detail.num_tasks_ (Detail.add_assign c n) = Detail.num_tasks_ c /\
  Detail.step_ (Detail.add_assign c n) = Detail.step_ c.
Proof.
  intros Hc Hn Hsum. unfold Detail.add_assign.
  cbn [Detail.current_ Detail.num_tasks_ Detail.step_].
  rewrite wrap_small by (unfold Detail.in_SizeT; lia).
  destruct (Z.ltb_spec (Detail.num_tasks_ c) (Detail.current_ c + n));
    repeat split; lia.
Qed.

Lemma X4_add_assign_is_min_witness :
  Detail.current_ (Detail.add_assign (Detail.mk_counter 10 1 7) 5)
  = Z.min (Detail.num_tasks_ (Detail.mk_counter 10 1 7))
      (Detail.current_ (Detail.mk_counter 10 1 7) + 5) /\
  Detail.num_tasks_ (Detail.add_assign (Detail.mk_counter 10 1 7) 5)
  = Detail.num_tasks_ (Detail.mk_counter 10 1 7) /\
  Detail.step_ (Detail.add_assign (Detail.mk_counter 10 1 7) 5)
  = Detail.step_ (Detail.mk_counter 10 1 7).
Proof.
  apply (X4_add_assign_is_min (Detail.mk_counter 10 1 7) 5).
  - cbn. lia.
  - lia.
  - vm_compute. reflexivity.
Defined.

(** X5: the sum of [operator+=] is formed before it is compared: when
    [current_ + _increment] passes the largest [SizeT] it wraps, the
    comparison with [num_tasks_] sees the wrapped value, and the counter
    moves backwards instead of saturating. *)
Theorem X5_add_assign_overflow_moves_back (c : Detail.counter_iterator)
    (n : Z) :
  Detail.in_SizeT (Detail.current_ c) -> Detail.in_SizeT n ->
  Detail.SizeT_modulus <= Detail.current_ c + n ->
  Detail.current_ (Detail.add_assign c n)
  = Z.min (Detail.num_tasks_ c)
      (Detail.current_ c + n - Detail.SizeT_modulus) /\
  Detail.current_ (Detail.add_assign c n) < Detail.current_ c.
Proof.
  intros Hc Hn Hsum. unfold Detail.in_SizeT in *.
  assert (Hw : Detail.wrap (Detail.current_ c + n)
               = Detail.current_ c + n - Detail.SizeT_modulus).
  { unfold Detail.wrap. symmetry.
    apply Z.mod_unique with (q := 1); [left |]; lia. }
  unfold Detail.add_assign.
  cbn [Detail.current_ Detail.num_tasks_ Detail.step_]. rewrite Hw.
  destruct (Z.ltb_spec (Detail.num_tasks_ c)
              (Detail.current_ c + n - Detail.SizeT_modulus)); split; lia.
Qed.

Lemma X5_add_assign_overflow_moves_back_witness :
  Detail.current_
    (Detail.add_assign (Detail.mk_counter 10 1 7) Detail.SizeT_max)
  = Z.min (Detail.num_tasks_ (Detail.mk_counter 10 1 7))
      (Detail.current_ (Detail.mk_counter 10 1 7) + Detail.SizeT_max
       - Detail.SizeT_modulus) /\
  Detail.current_
    (Detail.add_assign (Detail.mk_counter 10 1 7) Detail.SizeT_max)
  < Detail.current_ (Detail.mk_counter 10 1 7).
Proof.
  apply (X5_add_assign_overflow_moves_back
           (Detail.mk_counter 10 1 7) Detail.SizeT_max).
  - vm_compute. split; [discriminate | reflexivity].
  - vm_compute. split; [discriminate | reflexivity].
  - vm_compute. discriminate.
Defined.

(** X6: [is_ended] is the guard that makes [operator++] safe.  With values
    in range and a step of at least one, [is_ended] is false exactly when a
    whole step still fits below [num_tasks_]; the increment then neither
    wraps nor passes [num_tasks_]. *)
Theorem X6_is_ended_guards_increment (c : Detail.counter_iterator) :
  Detail.in_SizeT (Detail.num_tasks_ c) ->
  Detail.in_SizeT (Detail.current_ c) ->
  1 <= Detail.step_ c ->
  (Detail.is_ended c = false <->
   Detail.current_ c + Detail.step_ c <= Detail.num_tasks_ c) /\
  (Detail.is_ended c = false ->
   Detail.current_ (Detail.pre_increment c)
   = Detail.current_ c + Detail.step_ c /\
   Detail.current_ (Detail.pre_increment c) <= Detail.num_tasks_ c).
Proof.
  intros Ht Hc Hs. unfold Detail.in_SizeT in *.
  assert (E : Detail.is_ended c = false <->
              Detail.current_ c + Detail.step_ c <= Detail.num_tasks_ c).
  { unfold Detail.is_ended.
    destruct (Z.leb_spec (Detail.num_tasks_ c) (Detail.current_ c)) as [H | H].
    - split; [discriminate | lia].
    - rewrite wrap_small by (unfold Detail.in_SizeT; lia).
      rewrite Z.ltb_ge. lia. }
  split; [exact E |].
  intros He. apply E in He. unfold Detail.pre_increment.
  cbn [Detail.current_ Detail.num_tasks_ Detail.step_].
  rewrite wrap_small by (unfold Detail.in_SizeT; lia). lia.
Qed.

Lemma X6_is_ended_guards_increment_witness :
  (Detail.is_ended (Detail.mk_counter 10 3 6) = false <->
   Detail.current_ (Detail.mk_counter 10 3 6)
   + Detail.step_ (Detail.mk_counter 10 3 6)
   <= Detail.num_tasks_ (Detail.mk_counter 10 3 6)) /\
  (Detail.is_ended (Detail.mk_counter 10 3 6) = false ->
   Detail.current_ (Detail.pre_increment (Detail.mk_counter 10 3 6))
   = Detail.current_ (Detail.mk_counter 10 3 6)
     + Detail.step_ (Detail.mk_counter 10 3 6) /\
   Detail.current_ (Detail.pre_increment (Detail.mk_counter 10 3 6))
   <= Detail.num_tasks_ (Detail.mk_counter 10 3 6)).
Proof.
  apply (X6_is_ended_guards_increment (Detail.mk_counter 10 3 6)).
  - vm_compute. split; [discriminate | reflexivity].
  - vm_compute. split; [discriminate | reflexivity].
  - cbn. lia.
Defined.

(** ** The smoothing of [show_rate] *)

(** X7: the smoothing step [invoke_interval = ( invoke_interval + interval ) / 2]
    of [show_rate], when the sum fits in [SizeT]: the new average lies
    between the old one and the new interval, and because the division
    rounds down, an average one nanosecond below a constant interval never
    reaches it: the fixed points under an interval [i] are [i - 1] and
    [i]. *)
Theorem X7_rate_average_between_and_fixed (old interval : Z) :
  0 <= old -> 0 <= interval -> old + interval < Detail.SizeT_modulus ->
  Z.min old interval <= rate_average old interval <= Z.max old interval /\
  (rate_average old interval = old <->
   old = interval \/ old = interval - 1).
Proof.
  intros Ho Hi Hsum. unfold rate_average.
  rewrite wrap_small by (unfold Detail.in_SizeT; lia).
  pose proof (Z.div_mod (old + interval) 2 ltac:(lia)) as Hd.
  pose proof (Z.mod_pos_bound (old + interval) 2 ltac:(lia)) as Hm.
  split; [lia |]. lia.
Qed.

Lemma X7_rate_average_between_and_fixed_witness :
  Z.min 999 1000 <= rate_average 999 1000 <= Z.max 999 1000 /\
  (rate_average 999 1000 = 999 <-> 999 = 1000 \/ 999 = 1000 - 1).
Proof.
  apply (X7_rate_average_between_and_fixed 999 1000).
  - lia.
  - lia.
  - vm_compute. reflexivity.
Defined.

(** ** What [rendering] and the driver write *)

Lemma hoare_write_tty (J : pgbar -> Prop) info :
  (forall b info, J b -> in_tty_ b = true ->
     J (with_stream (stream_ b ++ [info])%list b)) ->
  hoare (on_self (fun b => J b /\ in_tty_ b = true)) (write info)
    (fun _ => on_self J).
Proof.
  intros HJ. apply hoare_modify_this. intros s [Hs Ht]. apply HJ; assumption.
Qed.

(** [rendering] writes to the output only, and only on a terminal. *)
Lemma hoare_rendering_tty (J : pgbar -> Prop) :
  (forall b info, J b -> in_tty_ b = true ->
     J (with_stream (stream_ b ++ [info])%list b)) ->
  (forall b, J b -> J (with_update_flag true b)) ->
  hoare (on_self J) rendering
    (fun _ => on_self (fun b => J b /\ update_flag_ b = true)).
Proof.
  intros Hw Hf. unfold rendering.
  eapply hoare_bind; [apply hoare_this | intros b].
  eapply hoare_bind
    with (R := fun _ => on_self (fun b => J b /\ update_flag_ b = true)).
  { apply hoare_when.
    - intros Hb.
      eapply hoare_conseq
        with (P' := on_self (fun b' => J b' /\ in_tty_ b' = in_tty_ b))
             (Q' := fun _ => on_self (fun b => J b /\ update_flag_ b = true));
        [| intros s [Hs ->]; split; [exact Hs | reflexivity] | auto].
      hseq. hseq.
      eapply hoare_bind with (R := fun _ => on_self J).
      + apply hoare_when.
        * intros Ht. hseq. hseq. hseq. hseq.
          eapply hoare_conseq; [apply hoare_write_tty; exact Hw | | auto].
          intros s [H1 H2]. split; [exact H1 | congruence].
        * intros _ s [Hs _]. exact Hs.
      + intros _. apply hoare_modify_this. intros s Hs.
        split; [apply Hf; exact Hs | reflexivity].
    - intros Hb s [Hs ->]. split; [exact Hs |].
      unfold is_updated in Hb. now destruct (update_flag_ (self s)). }
  intros _.
  set (J' := fun b => J b /\ update_flag_ b = true).
  assert (Hw' : forall b info, J' b -> in_tty_ b = true ->
                  J' (with_stream (stream_ b ++ [info])%list b)).
  { intros b0 v [H1 H2] Ht. split; [apply Hw; assumption | exact H2]. }
  hseq.
  match goal with |- hoare _ (if ?c then _ else _) _ => destruct c end.
  { apply hoare_ret. auto. }
  eapply hoare_bind; [apply hoare_this | intros b2; cbv beta].
  eapply hoare_bind with (R := fun _ => on_self J').
  { apply hoare_when; [intros Ht | intros _ s [Hs _]; exact Hs].
    eapply hoare_conseq
      with (P' := on_self (fun b' => J' b' /\ in_tty_ b' = true))
           (Q' := fun _ => on_self J');
      [| intros s [Hs ->]; split; [exact Hs | exact Ht] | auto].
    hseq. hseq.
    eapply hoare_bind
      with (R := fun _ => on_self (fun b' => J' b' /\ in_tty_ b' = true)).
    { match goal with
      | |- context [Detail.neq_value ?c 0] =>
          destruct (Detail.neq_value c 0) eqn:E
      end; apply hoare_checked_div; [| discriminate].
      unfold Detail.neq_value, Detail.eq_value in E. unfold Detail.deref.
      intros E0. rewrite E0 in E. discriminate. }
    intros interval. hseq.
    eapply hoare_bind
      with (R := fun _ => on_self (fun b' => J' b' /\ in_tty_ b' = true)).
    { match goal with |- hoare _ (if ?c then _ else _) _ => destruct c end.
      - apply hoare_ret. auto.
      - hseq. apply hoare_ret. auto. }
    intros controller. hseq. apply hoare_write_tty. exact Hw'. }
  intros _.
  eapply hoare_bind; [apply hoare_this | intros b3; cbv beta].
  apply hoare_when; [intros _ | intros _ s [Hs _]; exact Hs].
  eapply hoare_bind with (R := fun _ => on_self J').
  { apply hoare_when; [intros Ht | intros _ s [Hs _]; exact Hs].
    eapply hoare_conseq
      with (P' := on_self (fun b' => J' b' /\ in_tty_ b' = true))
           (Q' := fun _ => on_self J');
      [| intros s [Hs ->]; split; [exact Hs | exact Ht] | auto].
    hseq. hseq. apply hoare_write_tty. exact Hw'. }
  intros _. apply hoare_modify_statics.
Qed.

Lemma output_stable_and_started J :
  output_stable J -> output_stable (fun b => J b /\ update_flag_ b = true).
Proof.
  intros (Hw & Hf & Hr). repeat split; intros; try tauto.
  - apply Hw; tauto.
  - apply Hf; tauto.
  - apply Hr; tauto.
Qed.

Lemma hoare_task_tty (J : pgbar -> Prop) :
  output_stable J ->
  hoare (on_self J) rendering
    (fun _ => on_self (fun b => J b /\ update_flag_ b = true)).
Proof. intros (Hw & Hf & _). apply hoare_rendering_tty; assumption. Qed.

(** [active()] of a parked driver: the task has run, the driver runs. *)
Lemma hoare_active_tty (J : pgbar -> Prop) :
  output_stable J ->
  hoare (on_self (fun b => J b /\ active_flag_ (rndrer_ b) = false))
    (active rendering)
    (fun _ => on_self (fun b => J b /\ update_flag_ b = true
                                /\ active_flag_ (rndrer_ b) = true)).
Proof.
  intros HJ. pose proof HJ as (_ & _ & Hr).
  assert (H : hoare (on_self J)
                (t <- now ;; set_last_invoke t ;; rendering ;;
                 set_active_flag true)
                (fun _ => on_self (fun b => J b /\ update_flag_ b = true
                                   /\ active_flag_ (rndrer_ b) = true))).
  { hseq.
    eapply hoare_bind with (R := fun _ => on_self J).
    { apply hoare_modify_this. intros s Hs. apply Hr. exact Hs. }
    intros ?; cbv beta.
    eapply hoare_bind; [apply hoare_task_tty; exact HJ |].
    intros ?; cbv beta.
    apply hoare_modify_this. intros s [H1 H2].
    split; [apply Hr; exact H1 | split; [exact H2 | reflexivity]]. }
  intros s [Hs Ha]. unfold active.
  unfold bind at 1, this at 1. rewrite Ha.
  exact (H s Hs).
Qed.

(** [render()] leaves the driver running or parked as it was. *)
Lemma hoare_render_tty (J : pgbar -> Prop) a :
  output_stable J ->
  hoare (on_self (fun b => J b /\ active_flag_ (rndrer_ b) = a))
    (render rendering)
    (fun _ => on_self (fun b => J b /\ active_flag_ (rndrer_ b) = a)).
Proof.
  intros HJ. pose proof HJ as (Hw & Hf & Hr).
  set (Ja := fun b => J b /\ active_flag_ (rndrer_ b) = a).
  intros s Hs. unfold render.
  unfold bind at 1, this at 1.
  destruct (active_flag_ (rndrer_ (self s))) eqn:Ha; cbn [negb].
  - assert (H : forall last, hoare (on_self Ja)
                 (current_time <- now ;;
                  if current_time - last <? Detail.reflash_rate then ret tt
                  else set_last_invoke current_time ;; rendering)
                 (fun _ => on_self Ja)).
    { intros last. hseq.
      match goal with |- hoare _ (if ?c then _ else _) _ => destruct c end.
      - apply hoare_ret. auto.
      - eapply hoare_bind with (R := fun _ => on_self Ja).
        { apply hoare_modify_this. intros s0 [H1 H2].
          split; [apply Hr; exact H1 | exact H2]. }
        intros ?; cbv beta.
        eapply hoare_conseq;
          [apply (hoare_rendering_tty Ja) | auto
          | cbv beta; unfold on_self; tauto].
        + intros b info [H1 H2] Ht. split; [apply Hw; assumption | exact H2].
        + intros b [H1 H2]. split; [apply Hf; assumption | exact H2]. }
    exact (H _ s Hs).
  - exists tt, s. split; [reflexivity | exact Hs].
Qed.

(** [suspend()]: the driver is parked. *)
Lemma hoare_suspend_tty (J : pgbar -> Prop) :
  output_stable J ->
  hoare (on_self J) (suspend rendering)
    (fun _ => on_self (fun b => J b /\ active_flag_ (rndrer_ b) = false)).
Proof.
  intros HJ. pose proof HJ as (_ & _ & Hr).
  intros s Hs. unfold suspend.
  unfold bind at 1, this at 1.
  destruct (active_flag_ (rndrer_ (self s))) eqn:Ha; cbn [negb].
  - assert (H : hoare (on_self J) (rendering ;; set_active_flag false)
                 (fun _ => on_self
                    (fun b => J b /\ active_flag_ (rndrer_ b) = false))).
    { eapply hoare_bind; [apply hoare_task_tty; exact HJ |].
      intros ?; cbv beta.
      apply hoare_modify_this. intros s0 [H1 _].
      split; [apply Hr; exact H1 | reflexivity]. }
    exact (H s Hs).
  - exists tt, s. split; [reflexivity |]. split; assumption.
Qed.

Lemma in_tty_style_of b b' : style_of b' = style_of b -> in_tty_ b' = in_tty_ b.
Proof. intros E. change (in_tty_ (style_of b') = in_tty_ (style_of b)). now rewrite E. Qed.

Lemma output_grown_refl b : output_grown b b.
Proof. exists []. split; [now rewrite app_nil_r | reflexivity]. Qed.

Lemma output_grown_same b b' : stream_ b' = stream_ b -> output_grown b b'.
Proof.
  intros E. exists []. split; [now rewrite app_nil_r | reflexivity].
Qed.

Lemma output_grown_trans b1 b2 b3 :
  in_tty_ b2 = in_tty_ b1 ->
  output_grown b1 b2 -> output_grown b2 b3 -> output_grown b1 b3.
Proof.
  intros Et (m1 & E1 & H1) (m2 & E2 & H2). exists (m1 ++ m2)%list. split.
  - rewrite E2, E1. now rewrite app_assoc.
  - intros Hf. rewrite H1 by exact Hf. rewrite H2 by congruence. reflexivity.
Qed.

Lemma output_stable_grown sigma c b0 :
  sigma = style_of b0 ->
  output_stable (fun b => style_of b = sigma /\ task_cnt_ b = c
                          /\ output_grown b0 b).
Proof.
  intros ->. repeat split; intros; try (destruct H as (H1 & H2 & H3); assumption).
  destruct H as (H1 & H2 & (more & E & Hm)).
  exists (more ++ [info])%list. split.
  - cbn [stream_ with_stream]. rewrite E. now rewrite app_assoc.
  - intros Hf. apply in_tty_style_of in H1. congruence.
Qed.

(** A call of [update] that passes the two checks, in full: the counter is
    moved by the closure, the bar is started, its style is untouched, the
    driver runs unless the counter has ended, and the output has grown. *)
Lemma do_update_tracks (f : Detail.counter_iterator -> Detail.counter_iterator)
    s :
  is_done (self s) = false ->
  Detail.num_tasks_ (task_cnt_ (self s)) <> 0 ->
  driver_tracks (self s) ->
  exists s',
    do_update (modify_this (fun b => with_task_cnt (f (task_cnt_ b)) b)) s
    = (Ok tt, s') /\
    style_of (self s') = style_of (self s) /\
    task_cnt_ (self s') = f (task_cnt_ (self s)) /\
    update_flag_ (self s') = true /\
    active_flag_ (rndrer_ (self s'))
    = negb (Detail.is_ended (f (task_cnt_ (self s)))) /\
    output_grown (self s) (self s').
Proof.
  intros Hd Hn Ha.
  unfold do_update. unfold bind at 1, this at 1.
  rewrite Hd. unfold Detail.eq_value, Detail.end_.
  cbn [Detail.current_].
  destruct (Z.eqb_spec (Detail.num_tasks_ (task_cnt_ (self s))) 0) as [E | _];
    [contradiction |].
  set (J := fun c b => style_of b = style_of (self s) /\ task_cnt_ b = c
                       /\ output_grown (self s) b).
  assert (HJ : forall c, output_stable (J c))
    by (intros c; apply output_stable_grown; reflexivity).
  set (c0 := task_cnt_ (self s)).
  assert (H : hoare
            (fun s0 => s0 = s)
            (when (negb (is_updated (self s))) (active rendering) ;;
             modify_this (fun b => with_task_cnt (f (task_cnt_ b)) b) ;;
             render rendering ;;
             b <- this ;;
             when (Detail.is_ended (task_cnt_ b)) (suspend rendering))
            (fun _ => on_self
               (fun b => (J (f c0) b /\ update_flag_ b = true) /\
                         active_flag_ (rndrer_ b)
                         = negb (Detail.is_ended (f c0))))).
  { eapply hoare_bind
      with (R := fun _ => on_self
                   (fun b => J c0 b /\ update_flag_ b = true
                             /\ active_flag_ (rndrer_ b) = true)).
    { apply hoare_when.
      - intros Hu. unfold is_updated in Hu.
        destruct (update_flag_ (self s)) eqn:Eu; [discriminate |].
        eapply hoare_conseq; [apply hoare_active_tty; exact (HJ c0) | | auto].
        intros s0 ->. split.
        + repeat split. apply output_grown_refl.
        + unfold driver_tracks, is_updated in Ha. rewrite Eu in Ha. exact Ha.
      - intros Hu s0 ->. unfold is_updated in Hu.
        destruct (update_flag_ (self s)) eqn:Eu; [| discriminate].
        split; [repeat split; apply output_grown_refl |].
        split; [exact Eu |].
        unfold driver_tracks, is_done, is_updated in Ha, Hd.
        rewrite Eu in Ha, Hd. cbn [andb] in Ha, Hd.
        rewrite Ha, Hd. reflexivity. }
    intros ?; cbv beta.
    eapply hoare_bind
      with (R := fun _ => on_self
                   (fun b => (J (f c0) b /\ update_flag_ b = true)
                             /\ active_flag_ (rndrer_ b) = true)).
    { apply hoare_modify_this. intros s0 ((H1 & H2 & H3) & H4 & H5).
      repeat split; try assumption.
      cbn [self task_cnt_ with_task_cnt]. now rewrite H2. }
    intros ?; cbv beta.
    eapply hoare_bind;
      [apply hoare_render_tty, output_stable_and_started, (HJ (f c0)) |].
    intros ?; cbv beta.
    eapply hoare_bind; [apply hoare_this | intros b; cbv beta].
    apply hoare_when.
    - intros He s0 [[[HJ0 Hu0] Ha0] ->].
      assert (Ee : Detail.is_ended (f c0) = true).
      { destruct HJ0 as (_ & <- & _). exact He. }
      destruct (hoare_suspend_tty _
                  (output_stable_and_started _ (HJ (f c0))) s0
                  (conj HJ0 Hu0))
        as ([] & s1 & E1 & H1 & H2).
      exists tt, s1. split; [exact E1 |]. split; [exact H1 |].
      rewrite H2, Ee. reflexivity.
    - intros He s0 [[[HJ0 Hu0] Ha0] ->].
      assert (Ee : Detail.is_ended (f c0) = false).
      { destruct HJ0 as (_ & <- & _). exact He. }
      split; [split; assumption |].
      rewrite Ha0, Ee. reflexivity. }
  destruct (H s eq_refl) as ([] & s' & E & ((H1 & H2 & H3) & H4) & H5).
  exists s'. repeat split; assumption.
Qed.

(** [reset()] of a started bar, in full. *)
Lemma reset_tracks s :
  update_flag_ (self s) = true ->
  exists s',
    reset s = (Ok tt, s') /\
    style_of (self s') = style_of (self s) /\
    task_cnt_ (self s') = Detail.assign_value (task_cnt_ (self s)) 0 /\
    update_flag_ (self s') = false /\
    active_flag_ (rndrer_ (self s')) = false /\
    output_grown (self s) (self s').
Proof.
  intros Hu. unfold reset. unfold bind at 1, this at 1.
  unfold is_updated. rewrite Hu. cbn [negb].
  set (J := fun b => style_of b = style_of (self s) /\
                     task_cnt_ b = Detail.assign_value (task_cnt_ (self s)) 0 /\
                     output_grown (self s) b).
  assert (HJ : output_stable J) by (apply output_stable_grown; reflexivity).
  assert (H : hoare (fun s0 => s0 = s)
            (modify_this
               (fun b => with_task_cnt (Detail.assign_value (task_cnt_ b) 0) b) ;;
             suspend rendering ;;
             modify_this (with_update_flag false))
            (fun _ => on_self
               (fun b => J b /\ update_flag_ b = false
                         /\ active_flag_ (rndrer_ b) = false))).
  { eapply hoare_bind with (R := fun _ => on_self J).
    { apply hoare_modify_this. intros s0 ->.
      repeat split. apply output_grown_same. reflexivity. }
    intros ?; cbv beta.
    eapply hoare_bind; [apply hoare_suspend_tty; exact HJ |].
    intros ?; cbv beta.
    apply hoare_modify_this. intros s0 [(H1 & H2 & H3) H4].
    repeat split; assumption. }
  destruct (H s eq_refl) as ([] & s' & E & (H1 & H2 & H3) & H4 & H5).
  exists s'. repeat split; assumption.
Qed.

Lemma init_length_frame c b :
  rndrer_ (init_length c b) = rndrer_ b /\
  stream_ (init_length c b) = stream_ b.
Proof. destruct c; split; reflexivity. Qed.

Lemma apply_style_frame sel b :
  rndrer_ (apply_style sel b) = rndrer_ b /\
  stream_ (apply_style sel b) = stream_ b.
Proof.
  destruct sel as [o1 o2 ? ? ? ? ? ? ? ? ? ? ?].
  destruct o1, o2; split; reflexivity.
Qed.

(** A configuration setter on a bar that has not started changes members
    of [*this] only, and among them neither the started flag, nor the
    driver, nor the output. *)
Lemma setter_idle c s :
  is_setter c = true ->
  update_flag_ (self s) = false ->
  exists f,
    exec (run_call c) s = mk_ctx (statics s) (f (self s)) /\
    update_flag_ (f (self s)) = false /\
    rndrer_ (f (self s)) = rndrer_ (self s) /\
    stream_ (f (self s)) = stream_ (self s) /\
    in_tty_ (f (self s)) = in_tty_ (self s).
Proof.
  intros Hc Hu.
  assert (Hid : exists f : pgbar -> pgbar,
            s = mk_ctx (statics s) (f (self s)) /\
            update_flag_ (f (self s)) = false /\
            rndrer_ (f (self s)) = rndrer_ (self s) /\
            stream_ (f (self s)) = stream_ (self s) /\
            in_tty_ (f (self s)) = in_tty_ (self s)).
  { exists (fun b => b). destruct s; repeat split; assumption. }
  destruct c; try discriminate Hc; unfold exec; cbn [run_call];
    unfold set_step, set_task, set_done, set_todo, set_startpoint,
      set_endpoint, set_lstatus, set_rstatus, set_bar_length, set_todo_col,
      set_done_col, set_status_col, set_style, set_style_bundle;
    unfold bind at 1, this at 1; unfold is_updated; rewrite Hu;
    cbn [negb when].
  - destruct (_step =? 0); [exact Hid |].
    eexists (fun b => _ b). repeat split; cbn; assumption.
  - destruct (_total_tsk =? 0); [exact Hid |].
    exists (fun b => init_length true
                       (with_task_cnt (Detail.set_task (task_cnt_ b) _total_tsk) b)).
    repeat split; assumption.
  - eexists (fun b => _ b). repeat split; cbn; assumption.
  - eexists (fun b => _ b). repeat split; cbn; assumption.
  - eexists (fun b => _ b). repeat split; cbn; assumption.
  - eexists (fun b => _ b). repeat split; cbn; assumption.
  - exists (fun b => init_length false (with_lstatus _lstatus b)).
    repeat split; assumption.
  - exists (fun b => init_length false (with_rstatus _rstatus b)).
    repeat split; assumption.
  - eexists (fun b => _ b). repeat split; cbn; assumption.
  - eexists (fun b => _ b). repeat split; cbn; assumption.
  - eexists (fun b => _ b). repeat split; cbn; assumption.
  - eexists (fun b => _ b). repeat split; cbn; assumption.
  - exists (fun b => init_length false (with_option (_selection mod 256) b)).
    repeat split; assumption.
  - exists (fun b => init_length true (apply_style _selection b)).
    destruct (apply_style_keeps _selection (self s)) as [K1 K2].
    destruct (apply_style_frame _selection (self s)) as [K3 K4].
    destruct (init_length_keeps true (apply_style _selection (self s)))
      as (L1 & L2 & _).
    destruct (init_length_frame true (apply_style _selection (self s)))
      as [L3 L4].
    split; [reflexivity |].
    split; [rewrite L1, K1; exact Hu |].
    split; [rewrite L3; exact K3 |].
    split; [rewrite L4; exact K4 | rewrite L2; exact K2].
Qed.

(** One call on a bar in a state the calls lead to. *)
Lemma call_tracks c s :
  bar_inv (self s) -> driver_tracks (self s) ->
  driver_tracks (self (exec (run_call c) s)) /\
  in_tty_ (self (exec (run_call c) s)) = in_tty_ (self s) /\
  output_grown (self s) (self (exec (run_call c) s)) /\
  (is_setter c = true ->
   stream_ (self (exec (run_call c) s)) = stream_ (self s)).
Proof.
  intros (Hok & Hn & Hidle) Ha.
  assert (Hsame : forall s', s' = s ->
            driver_tracks (self s') /\ in_tty_ (self s') = in_tty_ (self s) /\
            output_grown (self s) (self s') /\
            (is_setter c = true -> stream_ (self s') = stream_ (self s))).
  { intros s' ->. repeat split; auto. apply output_grown_refl. }
  assert (Hadv : forall f,
            c = CUpdate \/ (exists n, c = CUpdateN n) ->
            let s' := snd (do_update
                             (modify_this
                                (fun b => with_task_cnt (f (task_cnt_ b)) b)) s) in
            driver_tracks (self s') /\ in_tty_ (self s') = in_tty_ (self s) /\
            output_grown (self s) (self s') /\
            (is_setter c = true -> stream_ (self s') = stream_ (self s))).
  { intros f Hc s'. subst s'.
    assert (Hns : is_setter c = false)
      by (destruct Hc as [-> | [n ->]]; reflexivity).
    destruct (is_done (self s)) eqn:Hd.
    { rewrite do_update_full by exact Hd. apply Hsame. reflexivity. }
    destruct (Z.eq_dec (Detail.num_tasks_ (task_cnt_ (self s))) 0) as [E0 | E0].
    { rewrite do_update_zero by assumption. apply Hsame. reflexivity. }
    destruct (do_update_tracks f s Hd E0 Ha)
      as (s' & E & H1 & H2 & H3 & H4 & H5).
    rewrite E. cbn [snd]. split; [| split; [| split]].
    - unfold driver_tracks, is_updated. rewrite H4, H3, H2. reflexivity.
    - apply in_tty_style_of. exact H1.
    - exact H5.
    - intros Hs. congruence. }
  destruct (is_setter c) eqn:Hc.
  - destruct (update_flag_ (self s)) eqn:Hu.
    + unfold exec. rewrite setter_noop by assumption. apply Hsame. reflexivity.
    + destruct (setter_idle c s Hc Hu) as (f & E & H1 & H2 & H3 & H4).
      rewrite E. cbn [self]. split; [| split; [| split]].
      * unfold driver_tracks, is_updated. rewrite H1, H2. cbn [andb].
        apply Hidle. reflexivity.
      * exact H4.
      * apply output_grown_same. exact H3.
      * intros _. exact H3.
  - destruct c; try discriminate Hc; unfold exec; cbn [run_call].
    + apply (Hadv Detail.pre_increment). left. reflexivity.
    + apply (Hadv (fun c => Detail.add_assign c next_step)).
      right. eexists. reflexivity.
    + destruct (update_flag_ (self s)) eqn:Hu.
      * destruct (reset_tracks s Hu) as (s' & E & H1 & H2 & H3 & H4 & H5).
        rewrite E. cbn [snd]. split; [| split; [| split]].
        -- unfold driver_tracks, is_updated. rewrite H4, H3. reflexivity.
        -- apply in_tty_style_of. exact H1.
        -- exact H5.
        -- discriminate.
      * rewrite reset_idle by exact Hu. apply Hsame. reflexivity.
Qed.

Lemma driver_tracks_new _total_tsk _each_step tty :
  driver_tracks (pgbar_new _total_tsk _each_step tty).
Proof. reflexivity. Qed.

Lemma reachable_tracks s : reachable s -> driver_tracks (self s).
Proof.
  induction 1 as [g T S tty | s c Hr IH].
  - apply driver_tracks_new.
  - apply call_tracks; [apply reachable_inv; exact Hr | exact IH].
Qed.

(** X8: in every state a bar goes through, the refresh driver runs exactly
    while the bar has started and its counter has not ended: [active()] is
    called by the first [update()], and [suspend()] by the [update()] that
    ends the counter and by [reset()]. *)
Theorem X8_driver_runs_while_in_progress (s : ctx) :
  reachable s ->
  active_flag_ (rndrer_ (self s))
  = is_updated (self s) && negb (Detail.is_ended (task_cnt_ (self s))).
Proof.
  intros Hr. change (driver_tracks (self s)).
  induction Hr as [g T S tty | s c Hr IH].
  - apply driver_tracks_new.
  - apply call_tracks; [apply reachable_inv; exact Hr | exact IH].
Qed.

Lemma X8_driver_runs_while_in_progress_witness :
  active_flag_
    (rndrer_
       (self (exec (run_call CUpdate)
                (mk_ctx (globals_init clock_1ms) (pgbar_new 4 1 false)))))
  = is_updated
      (self (exec (run_call CUpdate)
               (mk_ctx (globals_init clock_1ms) (pgbar_new 4 1 false))))
    && negb
         (Detail.is_ended
            (task_cnt_
               (self (exec (run_call CUpdate)
                        (mk_ctx (globals_init clock_1ms)
                           (pgbar_new 4 1 false)))))).
Proof.
  apply (X8_driver_runs_while_in_progress
           (exec (run_call CUpdate)
              (mk_ctx (globals_init clock_1ms) (pgbar_new 4 1 false)))).
  apply reach_call. apply reach_new.
Defined.

(** X9: a bar whose output is not a terminal never writes: whatever calls
    it has gone through, its output is empty. *)
Theorem X9_silent_off_terminal (s : ctx) :
  reachable s -> in_tty_ (self s) = false -> stream_ (self s) = [].
Proof.
  intros Hr.
  induction Hr as [g T S tty | s c Hr IH].
  - reflexivity.
  - destruct (call_tracks c s (reachable_inv s Hr) (reachable_tracks s Hr))
      as (_ & H2 & (more & E & Hm) & _).
    intros Ht. rewrite H2 in Ht.
    rewrite E, (Hm Ht), (IH Ht). reflexivity.
Qed.

Lemma X9_silent_off_terminal_witness :
  stream_
    (self (exec (run_call CUpdate)
             (mk_ctx (globals_init clock_1ms) (pgbar_new 4 1 false))))
  = [].
Proof.
  apply (X9_silent_off_terminal
           (exec (run_call CUpdate)
              (mk_ctx (globals_init clock_1ms) (pgbar_new 4 1 false)))).
  - apply reach_call. apply reach_new.
  - vm_compute. reflexivity.
Defined.

Lemma reachable_run_calls cs s : reachable s -> reachable (run_calls cs s).
Proof.
  revert s. induction cs as [| c cs IH]; intros s Hr; cbn [run_calls].
  - exact Hr.
  - apply IH, reach_call, Hr.
Qed.

(** X10: nothing that was printed is taken back.  Over any sequence of
    calls the output only grows, by whole frames appended at its end; a
    configuration setter appends none; and no call changes whether the bar
    takes its output for a terminal. *)
Theorem X10_output_only_grows (s : ctx) (cs : list call) :
  reachable s ->
  in_tty_ (self (run_calls cs s)) = in_tty_ (self s) /\
  (exists more,
     stream_ (self (run_calls cs s)) = (stream_ (self s) ++ more)%list) /\
  (forallb is_setter cs = true ->
   stream_ (self (run_calls cs s)) = stream_ (self s)).
Proof.
  revert s. induction cs as [| c cs IH]; intros s Hr.
  - cbn [run_calls]. split; [reflexivity |].
    split; [exists []; now rewrite app_nil_r | reflexivity].
  - cbn [run_calls].
    destruct (call_tracks c s (reachable_inv s Hr) (reachable_tracks s Hr))
      as (_ & H2 & (m1 & E1 & _) & Hs).
    destruct (IH (exec (run_call c) s) (reach_call s c Hr))
      as (H4 & (m2 & E2) & Hs2).
    split; [congruence |]. split.
    + exists (m1 ++ m2)%list. rewrite E2, E1. now rewrite app_assoc.
    + cbn [forallb]. intros Hall. apply andb_prop in Hall as [Hc Hcs].
      rewrite (Hs2 Hcs). exact (Hs Hc).
Qed.

Lemma X10_output_only_grows_witness :
  in_tty_
    (self (run_calls [CUpdate; CReset]
             (mk_ctx (globals_init clock_1ms) (pgbar_new 4 1 true))))
  = in_tty_ (self (mk_ctx (globals_init clock_1ms) (pgbar_new 4 1 true))) /\
  (exists more,
     stream_
       (self (run_calls [CUpdate; CReset]
                (mk_ctx (globals_init clock_1ms) (pgbar_new 4 1 true))))
     = (stream_ (self (mk_ctx (globals_init clock_1ms) (pgbar_new 4 1 true)))
        ++ more)%list) /\
  (forallb is_setter [CUpdate; CReset] = true ->
   stream_
     (self (run_calls [CUpdate; CReset]
              (mk_ctx (globals_init clock_1ms) (pgbar_new 4 1 true))))
   = stream_ (self (mk_ctx (globals_init clock_1ms) (pgbar_new 4 1 true)))).
Proof.
  apply (X10_output_only_grows
           (mk_ctx (globals_init clock_1ms) (pgbar_new 4 1 true))
           [CUpdate; CReset]).
  apply reach_new.
Defined.

(** ** The static [done_flag] *)

(** Once the static [done_flag] is set, [rendering] of a started bar does
    nothing. *)
Lemma rendering_done s :
  update_flag_ (self s) = true -> done_flag (statics s) = true ->
  rendering s = (Ok tt, s).
Proof.
  intros Hu Hd. unfold rendering.
  unfold bind at 1, this at 1. unfold is_updated. rewrite Hu.
  cbn [negb when]. unfold bind at 1, ret at 1.
  unfold bind at 1, the_statics at 1. rewrite Hd. reflexivity.
Qed.

Lemma ctx_eta s : s = mk_ctx (statics s) (self s).
Proof. destruct s; reflexivity. Qed.

Lemma with_rndrer_eta b : b = with_rndrer (rndrer_ b) b.
Proof. destruct b; reflexivity. Qed.

Lemma with_reads_eta g : g = with_reads (reads g) g.
Proof. destruct g; reflexivity. Qed.

Lemma render_done s :
  update_flag_ (self s) = true -> done_flag (statics s) = true ->
  exists r n,
    render rendering s
    = (Ok tt, mk_ctx (with_reads n (statics s)) (with_rndrer r (self s))) /\
    active_flag_ r = active_flag_ (rndrer_ (self s)).
Proof.
  intros Hu Hd. unfold render. unfold bind at 1, this at 1.
  destruct (active_flag_ (rndrer_ (self s))) eqn:Ha; cbn [negb].
  - unfold bind at 1, now at 1.
    match goal with |- context [if ?c then _ else _] => destruct c end.
    + exists (rndrer_ (self s)), (S (reads (statics s))).
      rewrite <- with_rndrer_eta. split; [reflexivity | exact Ha].
    + unfold bind at 1, set_last_invoke at 1, modify_this at 1.
      cbn [self statics].
      rewrite rendering_done by assumption.
      eexists _, _. split; [reflexivity |]. cbn. exact Ha.
  - exists (rndrer_ (self s)), (reads (statics s)).
    rewrite <- with_rndrer_eta, <- with_reads_eta, <- ctx_eta.
    split; [reflexivity | exact Ha].
Qed.

Lemma suspend_done s :
  update_flag_ (self s) = true -> done_flag (statics s) = true ->
  exists r,
    suspend rendering s = (Ok tt, mk_ctx (statics s) (with_rndrer r (self s))) /\
    active_flag_ r = false.
Proof.
  intros Hu Hd. unfold suspend. unfold bind at 1, this at 1.
  destruct (active_flag_ (rndrer_ (self s))) eqn:Ha; cbn [negb].
  - unfold bind at 1. rewrite rendering_done by assumption.
    eexists. split; [reflexivity | reflexivity].
  - exists (rndrer_ (self s)).
    rewrite <- with_rndrer_eta, <- ctx_eta. split; [reflexivity | exact Ha].
Qed.

(** A call of [update] on a started bar while [done_flag] is set. *)
Lemma do_update_done (f : Detail.counter_iterator -> Detail.counter_iterator)
    s :
  update_flag_ (self s) = true ->
  done_flag (statics s) = true ->
  Detail.is_ended (task_cnt_ (self s)) = false ->
  Detail.num_tasks_ (task_cnt_ (self s)) <> 0 ->
  exists r n,
    do_update (modify_this (fun b => with_task_cnt (f (task_cnt_ b)) b)) s
    = (Ok tt,
       mk_ctx (with_reads n (statics s))
         (with_rndrer r (with_task_cnt (f (task_cnt_ (self s))) (self s)))).
Proof.
  intros Hu Hd He Hn.
  unfold do_update. unfold bind at 1, this at 1.
  unfold is_done, is_updated. rewrite Hu, He. cbn [andb negb when].
  unfold Detail.eq_value, Detail.end_. cbn [Detail.current_].
  destruct (Z.eqb_spec (Detail.num_tasks_ (task_cnt_ (self s))) 0) as [E | _];
    [contradiction |].
  unfold bind at 1, ret at 1.
  unfold bind at 1, modify_this at 1.
  set (s1 := mk_ctx (statics s)
               (with_task_cnt (f (task_cnt_ (self s))) (self s))).
  destruct (render_done s1 Hu Hd) as (r1 & n1 & E1 & _).
  unfold bind at 1. rewrite E1.
  unfold bind at 1, this at 1. cbn [self].
  destruct (Detail.is_ended (task_cnt_ (with_rndrer r1 (self s1))));
    cbn [when].
  - destruct (suspend_done
                (mk_ctx (with_reads n1 (statics s1)) (with_rndrer r1 (self s1)))
                Hu Hd) as (r2 & E2 & _).
    rewrite E2. exists r2, n1. reflexivity.
  - exists r1, n1. reflexivity.
Qed.

(** X11: the static [done_flag] is shared by the bars of an instantiation
    and is cleared only by the first render of a bar that has not started.
    While it is set, a started bar that has not ended is mute: [update()]
    and [update( n )] return normally and advance the counter, print
    nothing, and leave the render state as it is, the flag included. *)
Theorem X11_done_flag_mutes_started_bar (s : ctx) (c : call) :
  is_advance c = true ->
  update_flag_ (self s) = true ->
  done_flag (statics s) = true ->
  Detail.is_ended (task_cnt_ (self s)) = false ->
  Detail.num_tasks_ (task_cnt_ (self s)) <> 0 ->
  exists s',
    run_call c s = (Ok tt, s') /\
    stream_ (self s') = stream_ (self s) /\
    render_state (statics s') = render_state (statics s) /\
    update_flag_ (self s') = true /\
    task_cnt_ (self s')
    = match c with
      | CUpdateN n => Detail.add_assign (task_cnt_ (self s)) n
      | _ => Detail.pre_increment (task_cnt_ (self s))
      end.
Proof.
  intros Hc Hu Hd He Hn.
  destruct c; try discriminate Hc; cbn [run_call].
  - destruct (do_update_done Detail.pre_increment s Hu Hd He Hn)
      as (r & n & E).
    unfold update. rewrite E. eexists. split; [reflexivity |].
    repeat split. exact Hu.
  - destruct (do_update_done (fun c => Detail.add_assign c next_step)
                s Hu Hd He Hn) as (r & n & E).
    unfold update_n. rewrite E. eexists. split; [reflexivity |].
    repeat split. exact Hu.
Qed.

Lemma X11_done_flag_mutes_started_bar_witness :
  exists s',
    run_call CUpdate overtaken_bar = (Ok tt, s') /\
    stream_ (self s') = stream_ (self overtaken_bar) /\
    render_state (statics s') = render_state (statics overtaken_bar) /\
    update_flag_ (self s') = true /\
    task_cnt_ (self s')
    = match CUpdate with
      | CUpdateN n => Detail.add_assign (task_cnt_ (self overtaken_bar)) n
      | _ => Detail.pre_increment (task_cnt_ (self overtaken_bar))
      end.
Proof.
  apply (X11_done_flag_mutes_started_bar overtaken_bar CUpdate).
  - reflexivity.
  - vm_compute. reflexivity.
  - vm_compute. reflexivity.
  - vm_compute. reflexivity.
  - vm_compute. discriminate.
Defined.

(** ** A step or a total of zero *)

Lemma apply_style_counter sel b :
  Detail.num_tasks_ (task_cnt_ (apply_style sel b))
  = or_keep (Style.total_tasks sel) (Detail.num_tasks_ (task_cnt_ b)) /\
  Detail.step_ (task_cnt_ (apply_style sel b))
  = or_keep (Style.each_setp sel) (Detail.step_ (task_cnt_ b)) /\
  Detail.current_ (task_cnt_ (apply_style sel b))
  = Detail.current_ (task_cnt_ b).
Proof.
  destruct sel as [o1 o2 ? ? ? ? ? ? ? ? ? ? ?].
  destruct o1, o2; repeat split; reflexivity.
Qed.

Lemma init_length_counter c b : task_cnt_ (init_length c b) = task_cnt_ b.
Proof. destruct c; reflexivity. Qed.

(** X12: zero is refused by [set_step] and by [set_task], but only there.
    On a bar that has not started the two setters throw and leave the
    state; [set_style( style )] assigns the total and the step of the
    bundle unchecked, zero included, and returns normally. *)
Theorem X12_zero_refused_by_the_setters_only (s : ctx) (sel : Style.t) :
  update_flag_ (self s) = false ->
  set_step 0 s = (Throw zero_step_error, s) /\
  set_task 0 s = (Throw zero_tasks_error, s) /\
  exists s',
    set_style_bundle sel s = (Ok tt, s') /\
    update_flag_ (self s') = false /\
    Detail.num_tasks_ (task_cnt_ (self s'))
    = or_keep (Style.total_tasks sel) (Detail.num_tasks_ (task_cnt_ (self s))) /\
    Detail.step_ (task_cnt_ (self s'))
    = or_keep (Style.each_setp sel) (Detail.step_ (task_cnt_ (self s))).
Proof.
  intros Hu. split; [| split].
  - unfold set_step. unfold bind at 1, this at 1. unfold is_updated.
    rewrite Hu. reflexivity.
  - unfold set_task. unfold bind at 1, this at 1. unfold is_updated.
    rewrite Hu. reflexivity.
  - unfold set_style_bundle. unfold bind at 1, this at 1. unfold is_updated.
    rewrite Hu. eexists. split; [reflexivity |]. cbn [self].
    destruct (apply_style_keeps sel (self s)) as [K1 _].
    destruct (init_length_keeps true (apply_style sel (self s))) as (L1 & _).
    destruct (apply_style_counter sel (self s)) as (C1 & C2 & _).
    rewrite init_length_counter.
    split; [rewrite L1, K1; exact Hu |]. split; assumption.
Qed.

Lemma X12_zero_refused_by_the_setters_only_witness :
  set_step 0 (start clock_1ms (pgbar_new 4 1 true))
  = (Throw zero_step_error, start clock_1ms (pgbar_new 4 1 true)) /\
  set_task 0 (start clock_1ms (pgbar_new 4 1 true))
  = (Throw zero_tasks_error, start clock_1ms (pgbar_new 4 1 true)) /\
  exists s',
    set_style_bundle
      (Style.mk_style None (Some 0) None None None None None None None None
         None None None)
      (start clock_1ms (pgbar_new 4 1 true)) = (Ok tt, s') /\
    update_flag_ (self s') = false /\
    Detail.num_tasks_ (task_cnt_ (self s'))
    = or_keep
        (Style.total_tasks
           (Style.mk_style None (Some 0) None None None None None None None
              None None None None))
        (Detail.num_tasks_
           (task_cnt_ (self (start clock_1ms (pgbar_new 4 1 true))))) /\
    Detail.step_ (task_cnt_ (self s'))
    = or_keep
        (Style.each_setp
           (Style.mk_style None (Some 0) None None None None None None None
              None None None None))
        (Detail.step_
           (task_cnt_ (self (start clock_1ms (pgbar_new 4 1 true))))).
Proof.
  apply (X12_zero_refused_by_the_setters_only
           (start clock_1ms (pgbar_new 4 1 true))
           (Style.mk_style None (Some 0) None None None None None None None
              None None None None)).
  reflexivity.
Defined.




(** ** Decimal digits *)

(** The value read from the digits [d] after the digits read so far are
    worth [acc]. *)
Lemma of_uint_acc_bounds d : forall acc,
  Z.pos acc * 10 ^ Z.of_nat (Decimal.nb_digits d)
  <= Z.pos (Pos.of_uint_acc d acc)
  < (Z.pos acc + 1) * 10 ^ Z.of_nat (Decimal.nb_digits d).
Proof.
  induction d as [| d IH | d IH | d IH | d IH | d IH | d IH | d IH | d IH
                  | d IH | d IH]; intros acc;
    cbn [Decimal.nb_digits Pos.of_uint_acc];
    [rewrite Z.pow_0_r; lia | ..];
    rewrite Nat2Z.inj_succ, Z.pow_succ_r by lia;
    match goal with
    | |- _ <= Z.pos (Pos.of_uint_acc _ ?a) < _ => specialize (IH a)
    end;
    assert (0 < 10 ^ Z.of_nat (Decimal.nb_digits d))
      by (apply Z.pow_pos_nonneg; lia);
    nia.
Qed.

Lemma length_string_of_uint d :
  String.length (DecimalString.NilEmpty.string_of_uint d)
  = Decimal.nb_digits d.
Proof. induction d; cbn; congruence. Qed.

Lemma to_uint_normal n : Decimal.unorm (N.to_uint n) = N.to_uint n.
Proof.
  rewrite <- DecimalN.Unsigned.to_of, DecimalN.Unsigned.of_to. reflexivity.
Qed.

Lemma to_uint_nonnil n : N.to_uint n <> Decimal.Nil.
Proof.
  destruct n as [| p]; cbn [N.to_uint]; [discriminate |].
  apply DecimalPos.Unsigned.to_uint_nonnil.
Qed.

(** [std::to_string] of [n >= 1] has [d] characters where
    [10^(d-1) <= n < 10^d]. *)
Lemma to_string_digits n :
  1 <= n ->
  10 ^ (Str.size (Str.to_string n) - 1) <= n < 10 ^ Str.size (Str.to_string n).
Proof.
  intros Hn. unfold Str.size, Str.to_string.
  pose proof (DecimalN.Unsigned.of_to (Z.to_N n)) as Hof.
  pose proof (to_uint_normal (Z.to_N n)) as Hnorm.
  pose proof (to_uint_nonnil (Z.to_N n)) as Hnil.
  set (d := N.to_uint (Z.to_N n)) in *.
  assert (Hlen : String.length (DecimalString.NilZero.string_of_uint d)
                 = Decimal.nb_digits d).
  { destruct d; [contradiction | ..]; apply length_string_of_uint. }
  rewrite Hlen.
  assert (Hz : Z.of_N (N.of_uint d) = n) by (rewrite Hof; lia).
  clear Hof Hlen. unfold N.of_uint in Hz.
  destruct d as [| d | d | d | d | d | d | d | d | d | d];
    [contradiction | ..].
  1:{ (* a leading zero: the number is zero *)
    exfalso. unfold Decimal.unorm in Hnorm. cbn [Decimal.nzhead] in Hnorm.
    destruct (Decimal.nzhead d) eqn:Ez; try discriminate Hnorm.
    - injection Hnorm as <-. cbn in Hz. lia.
    - pose proof (DecimalFacts.nzhead_nonzero d u) as Hnz. congruence. }
  all: cbn [Pos.of_uint Z.of_N] in Hz;
    cbn [Decimal.nb_digits];
    rewrite Nat2Z.inj_succ;
    replace (Z.succ (Z.of_nat (Decimal.nb_digits d)) - 1)
      with (Z.of_nat (Decimal.nb_digits d)) by lia;
    rewrite Z.pow_succ_r by lia;
    match type of Hz with
    | Z.pos (Pos.of_uint_acc _ ?a) = _ =>
        pose proof (of_uint_acc_bounds d a) as Hb
    end;
    rewrite Hz in Hb;
    assert (0 < 10 ^ Z.of_nat (Decimal.nb_digits d))
      by (apply Z.pow_pos_nonneg; lia);
    nia.
Qed.

Lemma size_to_string_pos n : 1 <= Str.size (Str.to_string n).
Proof.
  destruct (Z_lt_le_dec n 1) as [H | H].
  - unfold Str.to_string. replace (Z.to_N n) with 0%N by lia. cbn. lia.
  - pose proof (to_string_digits n H) as [_ Hu].
    destruct (Z_lt_le_dec (Str.size (Str.to_string n)) 1) as [H1 | H1];
      [| exact H1].
    exfalso. pose proof (size_nonneg (Str.to_string n)).
    replace (Str.size (Str.to_string n)) with 0 in Hu by lia.
    rewrite Z.pow_0_r in Hu. lia.
Qed.

(** A number below [10^k] has at most [k] digits. *)
Lemma size_to_string_le n k :
  1 <= k -> n < 10 ^ k -> Str.size (Str.to_string n) <= k.
Proof.
  intros Hk Hn.
  destruct (Z_lt_le_dec n 1) as [H | H].
  - unfold Str.to_string. replace (Z.to_N n) with 0%N by lia. cbn. lia.
  - pose proof (to_string_digits n H) as [Hl _].
    pose proof (size_to_string_pos n) as Hp.
    destruct (Z_lt_le_dec k (Str.size (Str.to_string n))) as [Hlt | Hle];
      [| exact Hle].
    exfalso.
    assert (10 ^ k <= 10 ^ (Str.size (Str.to_string n) - 1))
      by (apply Z.pow_le_mono_r; lia).
    lia.
Qed.

(** The number of digits grows with the number. *)
Lemma size_to_string_mono n m :
  n <= m -> Str.size (Str.to_string n) <= Str.size (Str.to_string m).
Proof.
  intros Hnm.
  destruct (Z_lt_le_dec m 1) as [H | H].
  - unfold Str.to_string.
    replace (Z.to_N n) with 0%N by lia. replace (Z.to_N m) with 0%N by lia.
    lia.
  - apply size_to_string_le; [apply size_to_string_pos |].
    pose proof (to_string_digits m H). lia.
Qed.

(** ** [find], [resize] and the decimal point *)

Lemma index_dot_after_digits d rest :
  index 0 "." (DecimalString.NilEmpty.string_of_uint d ++ String "." rest)
  = Some (Decimal.nb_digits d).
Proof.
  induction d; cbn [DecimalString.NilEmpty.string_of_uint Decimal.nb_digits
                      append].
  1:{ assert (E : prefix "." (String "." rest) = true)
        by (cbn; destruct rest; reflexivity).
      cbn [index]. rewrite E. reflexivity. }
  all: cbn [index]; rewrite IHd; reflexivity.
Qed.

Lemma find_dot_after_number n rest :
  Str.find (Str.to_string n ++ String "." rest) "."
  = Str.size (Str.to_string n).
Proof.
  unfold Str.find, Str.size, Str.to_string.
  pose proof (to_uint_nonnil (Z.to_N n)) as Hnil.
  destruct (N.to_uint (Z.to_N n)) eqn:E; [contradiction | ..];
    unfold DecimalString.NilZero.string_of_uint;
    rewrite index_dot_after_digits, length_string_of_uint; reflexivity.
Qed.

Lemma length_substring n s :
  (n <= String.length s)%nat -> String.length (substring 0 n s) = n.
Proof.
  revert s. induction n as [| n IH]; intros s Hn.
  - destruct s; reflexivity.
  - destruct s as [| c s]; cbn in Hn; [lia |].
    cbn. rewrite IH by lia. reflexivity.
Qed.

(** [resize( n )] gives a string of [n] characters. *)
Lemma size_resize s n : 0 <= n -> Str.size (Str.resize s n) = n.
Proof.
  intros Hn. unfold Str.resize.
  destruct (Z.leb_spec n (Str.size s)) as [H | H].
  - unfold Str.size in *. rewrite length_substring by lia. lia.
  - rewrite size_append, size_fill by lia. lia.
Qed.

(** ** [std::to_string( double )] *)

Lemma round_half_even_nonneg q : (0 <= q)%Q -> 0 <= Str.round_half_even q.
Proof.
  intros Hq. unfold Str.round_half_even.
  assert (0 <= Qfloor q).
  { change 0 with (Qfloor 0). apply Qfloor_resp_le. exact Hq. }
  destruct (Qcompare (q - inject_Z (Qfloor q)) (1 # 2));
    [destruct (Z.even (Qfloor q)) | |]; lia.
Qed.

Lemma round_half_even_le q m :
  (q <= inject_Z m)%Q -> Str.round_half_even q <= m.
Proof.
  intros Hq. unfold Str.round_half_even.
  assert (Hf : Qfloor q <= m).
  { rewrite <- (Qfloor_Z m). apply Qfloor_resp_le. exact Hq. }
  destruct (Z.eq_dec (Qfloor q) m) as [E | E].
  - (* the floor is [m]: the fraction is zero *)
    assert (Hlt : Qcompare (q - inject_Z (Qfloor q)) (1 # 2) = Lt).
    { rewrite <- Qlt_alt. rewrite E.
      apply Qle_lt_trans with (y := 0%Q); [| reflexivity].
      unfold Qminus. rewrite <- (Qplus_opp_r (inject_Z m)).
      apply Qplus_le_l. exact Hq. }
    rewrite Hlt. lia.
  - destruct (Qcompare (q - inject_Z (Qfloor q)) (1 # 2));
      [destruct (Z.even (Qfloor q)) | |]; lia.
Qed.

(** The text of a non-negative [double]: the integer part, the point and
    six decimals. *)
Lemma to_string_double_nonneg val :
  (0 <= val)%Q ->
  exists decimals,
    Str.to_string_double val
    = Str.to_string (Str.round_half_even (val * inject_Z 1000000) / 1000000)
      ++ String "." decimals /\
    Str.size decimals = 6.
Proof.
  intros Hv. unfold Str.to_string_double.
  set (n := Str.round_half_even (val * inject_Z 1000000)).
  assert (Hn : 0 <= n).
  { apply round_half_even_nonneg.
    apply Qmult_le_0_compat; [exact Hv | discriminate]. }
  destruct (Z.ltb_spec n 0) as [H | _]; [lia |].
  rewrite Z.abs_eq by exact Hn.
  eexists. split; [reflexivity |].
  rewrite size_append.
  assert (Hf : Str.size (Str.to_string (n mod 1000000)) <= 6).
  { apply size_to_string_le; [lia |].
    pose proof (Z.mod_pos_bound n 1000000 ltac:(lia)). lia. }
  rewrite size_fill by lia. lia.
Qed.

(** The lambdas [splice]: the integer part, the point and [k] decimals. *)
Lemma size_splice val k j :
  (0 <= val)%Q -> 0 <= k <= 6 -> 1 <= j <= 18 ->
  (val * inject_Z 1000000 <= inject_Z (10 ^ j * 1000000 - 1))%Q ->
  1 <= Str.size
         (Str.resize (Str.to_string_double val)
            (Detail.wrap (Str.find (Str.to_string_double val) "." + k))) - k
    <= j.
Proof.
  intros Hv Hk Hj Hle.
  destruct (to_string_double_nonneg val Hv) as (dec & E & Hd).
  rewrite E, find_dot_after_number.
  set (a := Str.round_half_even (val * inject_Z 1000000)) in *.
  assert (Ha : 0 <= a <= 10 ^ j * 1000000 - 1).
  { split.
    - apply round_half_even_nonneg.
      apply Qmult_le_0_compat; [exact Hv | discriminate].
    - apply round_half_even_le. exact Hle. }
  assert (Hq : a / 1000000 < 10 ^ j)
    by (apply Z.div_lt_upper_bound; lia).
  pose proof (size_to_string_pos (a / 1000000)) as Hw1.
  pose proof (size_to_string_le (a / 1000000) j ltac:(lia) Hq) as Hw2.
  set (w := Str.size (Str.to_string (a / 1000000))) in *.
  rewrite wrap_small.
  - rewrite size_resize by lia. lia.
  - unfold Detail.in_SizeT, Detail.SizeT_modulus. lia.
Qed.

(** ** The status fields have the widths [init_length] adds up *)

Lemma Qltb_lt x y : Qltb x y = true -> (x < y)%Q.
Proof.
  unfold Qltb. intros H. apply negb_true_iff in H.
  apply Qnot_le_lt. intros Hle. apply Qle_bool_iff in Hle. congruence.
Qed.

Lemma Qltb_ge x y : Qltb x y = false -> (y <= x)%Q.
Proof.
  unfold Qltb. intros H. apply negb_false_iff in H.
  apply Qle_bool_iff. exact H.
Qed.

(** A quotient of two integers, scaled to the six decimals of ["%f"]. *)
Lemma scaled_quotient_le (n m : Z) (d : positive) :
  n * 1000000 <= m * Z.pos d ->
  (inject_Z n / inject_Z (Z.pos d) * inject_Z 1000000 <= inject_Z m)%Q.
Proof.
  intros H. unfold Qle, Qdiv, Qmult, Qinv, inject_Z.
  cbn [Qnum Qden Pos.mul]. lia.
Qed.

Lemma quotient_nonneg (n : Z) (d : positive) :
  0 <= n -> (0 <= inject_Z n / inject_Z (Z.pos d))%Q.
Proof.
  intros H. unfold Qle, Qdiv, Qmult, Qinv, inject_Z.
  cbn [Qnum Qden Pos.mul]. lia.
Qed.

Lemma scaled_le (n m : Z) :
  n * 1000000 <= m ->
  (inject_Z n * inject_Z 1000000 <= inject_Z m)%Q.
Proof.
  intros H. rewrite <- inject_Z_mult, <- Zle_Qle. exact H.
Qed.

Lemma inject_Z_nonneg n : 0 <= n -> (0 <= inject_Z n)%Q.
Proof. intros H. change 0%Q with (inject_Z 0). now rewrite <- Zle_Qle. Qed.

(** [show_percentage] fills the [ratio_len] columns. *)
Lemma size_show_percentage (b : pgbar) (num_per : Q) :
  (0 <= num_per)%Q -> (num_per <= 1)%Q ->
  Str.size (show_percentage b num_per) = ratio_len.
Proof.
  intros H0 H1. unfold show_percentage.
  destruct (is_updated b); cbn [negb].
  - rewrite size_formatter, size_append.
    assert (Hv : (0 <= num_per * inject_Z 100)%Q)
      by (apply Qmult_le_0_compat; [exact H0 | discriminate]).
    assert (Hle : (num_per * inject_Z 100 * inject_Z 1000000
                   <= inject_Z (10 ^ 3 * 1000000 - 1))%Q).
    { change (inject_Z (10 ^ 3 * 1000000 - 1)) with (999999999 # 1)%Q.
      change (inject_Z 100) with (100 # 1)%Q.
      change (inject_Z 1000000) with (1000000 # 1)%Q.
      Lqa.lra. }
    pose proof (size_splice (num_per * inject_Z 100) 3 3 Hv
                  ltac:(lia) ltac:(lia) Hle) as Hs.
    change (Str.size "%") with 1. change ratio_len with 7.
    cbn [Z.eqb]. lia.
  - reflexivity.
Qed.

Lemma size_total_digits T :
  1 <= T < Detail.SizeT_modulus -> 1 <= Str.size (Str.to_string T) <= 20.
Proof.
  intros HT. split; [apply size_to_string_pos |].
  apply size_to_string_le; [lia |].
  unfold Detail.SizeT_modulus in HT. lia.
Qed.

(** The width [init_length] reserves for the counter field. *)
Lemma cnt_length_init (b : pgbar) :
  1 <= Detail.num_tasks_ (task_cnt_ b) < Detail.SizeT_modulus ->
  cnt_length_ (init_length true b)
  = 2 * Str.size (Str.to_string (Detail.num_tasks_ (task_cnt_ b))) + 1.
Proof.
  intros HT.
  set (T := Detail.num_tasks_ (task_cnt_ b)) in *.
  pose proof (size_total_digits T HT) as Hd.
  unfold init_length.
  cbn [cnt_length_ with_status_length with_cnt_length].
  unfold log10_plus_one, Detail.deref, Detail.end_.
  cbn [Detail.current_]. fold T.
  destruct (Z.eqb_spec T 0) as [E | _]; [lia |].
  rewrite (wrap_small (Str.size (Str.to_string T) * 2))
    by (unfold Detail.in_SizeT, Detail.SizeT_modulus; lia).
  rewrite wrap_small
    by (unfold Detail.in_SizeT, Detail.SizeT_modulus; lia).
  lia.
Qed.

(** The width of the counter field. *)
Lemma size_show_task_counter (b : pgbar) (num_done : Z) :
  num_done <= Detail.num_tasks_ (task_cnt_ b) ->
  Str.size (show_task_counter b num_done)
  = 2 * Str.size (Str.to_string (Detail.num_tasks_ (task_cnt_ b))) + 1.
Proof.
  intros Hdone.
  set (T := Detail.num_tasks_ (task_cnt_ b)) in *.
  pose proof (size_to_string_pos T) as Hd.
  unfold show_task_counter, Detail.deref, Detail.end_.
  cbn [Detail.current_]. fold T.
  rewrite !size_append, size_formatter.
  pose proof (size_to_string_mono num_done T Hdone).
  destruct (Z.eqb_spec (Str.size (Str.to_string T)) 0) as [E | _]; [lia |].
  change (Str.size "/") with 1. lia.
Qed.

(** X14: for a total below [log10_exact_bound], ten to the twelfth, where
    the [double] logarithm of [init_length] has the integer part of the
    exact one, [show_task_counter] fills exactly the [cnt_length_] columns
    that [init_length] computes from the logarithm of the total.  With [d]
    the number of decimal digits of the total, [10^(d-1) <= total < 10^d],
    the width reserved is [2 d + 1], and the field has that width for
    every count up to the total. *)
Theorem X14_show_task_counter_width (b : pgbar) (num_done : Z) :
  1 <= Detail.num_tasks_ (task_cnt_ b) < log10_exact_bound ->
  num_done <= Detail.num_tasks_ (task_cnt_ b) ->
  exists d,
    10 ^ (d - 1) <= Detail.num_tasks_ (task_cnt_ b) < 10 ^ d /\
    cnt_length_ (init_length true b) = 2 * d + 1 /\
    Str.size (show_task_counter b num_done) = 2 * d + 1.
Proof.
  intros HT Hdone.
  exists (Str.size (Str.to_string (Detail.num_tasks_ (task_cnt_ b)))).
  split; [apply to_string_digits; lia |]. split.
  - apply cnt_length_init.
    unfold log10_exact_bound, Detail.SizeT_modulus in *. lia.
  - apply size_show_task_counter. exact Hdone.
Qed.

Lemma X14_show_task_counter_width_witness :
  exists d,
    10 ^ (d - 1) <= Detail.num_tasks_ (task_cnt_ (pgbar_new 1000 1 true))
    < 10 ^ d /\
    cnt_length_ (init_length true (pgbar_new 1000 1 true)) = 2 * d + 1 /\
    Str.size (show_task_counter (pgbar_new 1000 1 true) 999) = 2 * d + 1.
Proof.
  apply (X14_show_task_counter_width (pgbar_new 1000 1 true) 999).
  - vm_compute. split; [discriminate | reflexivity].
  - vm_compute. discriminate.
Defined.

Lemma size_splice2_le val :
  (0 <= val)%Q ->
  (val * inject_Z 1000000 <= inject_Z 999999999)%Q ->
  Str.size (splice2 val) <= 6.
Proof.
  intros Hv Hle. unfold splice2.
  pose proof (size_splice val 3 3 Hv ltac:(lia) ltac:(lia) Hle). lia.
Qed.

Lemma size_splice1_le val :
  (0 <= val)%Q ->
  (val * inject_Z 1000000 <= inject_Z 9999999)%Q ->
  Str.size (splice1 val) <= 3.
Proof.
  intros Hv Hle. unfold splice1.
  pose proof (size_splice val 2 1 Hv ltac:(lia) ltac:(lia) Hle). lia.
Qed.

(** The text of a frequency is never wider than the rate field. *)
Lemma size_rate_text frequency :
  0 <= frequency -> Str.size (rate_text frequency) <= rate_len.
Proof.
  intros Hf. unfold rate_text. change rate_len with 10.
  destruct (Qltb (inject_Z frequency) (inject_Z 1000)) eqn:E1.
  { apply Qltb_lt in E1. rewrite <- Zlt_Qlt in E1.
    rewrite size_append. change (Str.size " Hz") with 3.
    pose proof (size_splice2_le (inject_Z frequency)
                  (inject_Z_nonneg _ Hf)
                  (scaled_le frequency 999999999 ltac:(lia))). lia. }
  destruct (Qltb (inject_Z frequency) (inject_Z 1000000)) eqn:E2.
  { apply Qltb_lt in E2. rewrite <- Zlt_Qlt in E2.
    rewrite size_append. change (Str.size " kHz") with 4.
    pose proof (size_splice2_le (inject_Z frequency / inject_Z 1000)
                  (quotient_nonneg frequency 1000 Hf)
                  (scaled_quotient_le frequency 999999999 1000 ltac:(lia))).
    lia. }
  destruct (Qltb (inject_Z frequency) (inject_Z 1000000000)) eqn:E3.
  { apply Qltb_lt in E3. rewrite <- Zlt_Qlt in E3.
    rewrite size_append. change (Str.size " MHz") with 4.
    pose proof (size_splice2_le (inject_Z frequency / inject_Z 1000000)
                  (quotient_nonneg frequency 1000000 Hf)
                  (scaled_quotient_le frequency 999999999 1000000
                     ltac:(lia))).
    lia. }
  cbv zeta.
  destruct (Qltb (99999 # 100) (inject_Z frequency / inject_Z 1000000000))
    eqn:E4.
  { cbn. lia. }
  apply Qltb_ge in E4.
  rewrite size_append. change (Str.size " GHz") with 4.
  assert (Hle : (inject_Z frequency / inject_Z 1000000000 * inject_Z 1000000
                 <= inject_Z 999999999)%Q).
  { apply Qle_trans with (y := ((99999 # 100) * inject_Z 1000000)%Q).
    - apply Qmult_le_compat_r; [exact E4 | discriminate].
    - discriminate. }
  pose proof (size_splice2_le (inject_Z frequency / inject_Z 1000000000)
                (quotient_nonneg frequency 1000000000 Hf) Hle). lia.
Qed.

Lemma rate_average_nonneg old interval : 0 <= rate_average old interval.
Proof.
  unfold rate_average. apply Z.div_pos; [apply wrap_range | lia].
Qed.

(** [show_rate] never fails and fills the [rate_len] columns. *)
Lemma show_rate_width (b : pgbar) (interval avg : Z) :
  exists txt avg',
    show_rate b interval avg = Some (txt, avg') /\
    Str.size txt = rate_len.
Proof.
  unfold show_rate. destruct (is_updated b); cbn [negb].
  - pose proof (rate_average_nonneg avg interval) as Ha.
    set (a := rate_average avg interval) in *.
    assert (Hf : exists f, rate_frequency a = Some f /\ 0 <= f).
    { unfold rate_frequency, duration_div.
      destruct (Z.eqb_spec a 0) as [E | E]; cbn [negb].
      - eexists. split; [reflexivity |]. vm_compute. discriminate.
      - eexists. split; [reflexivity |].
        apply Z.div_pos; [vm_compute; discriminate | lia]. }
    destruct Hf as (f & -> & Hf).
    eexists _, _. split; [reflexivity |].
    rewrite size_formatter.
    pose proof (size_rate_text f Hf). change rate_len with 10 in *.
    cbn [Z.eqb]. lia.
  - eexists _, _. split; reflexivity.
Qed.

(** The text of a time is never wider than four characters. *)
Lemma size_to_time sec : 0 <= sec -> Str.size (to_time sec) <= 4.
Proof.
  intros Hs. unfold to_time.
  destruct (Z.ltb_spec sec 60) as [H1 | H1].
  { rewrite size_append. change (Str.size "s") with 1.
    pose proof (size_to_string_le sec 2 ltac:(lia) ltac:(lia)). lia. }
  destruct (Z.ltb_spec sec (60 * 9)) as [H2 | H2].
  { rewrite size_append. change (Str.size "m") with 1.
    pose proof (size_splice1_le (inject_Z sec / inject_Z 60)
                  (quotient_nonneg sec 60 Hs)
                  (scaled_quotient_le sec 9999999 60 ltac:(lia))). lia. }
  destruct (Z.ltb_spec sec (60 * 60)) as [H3 | H3].
  { rewrite size_append. change (Str.size "m") with 1.
    assert (sec / 60 < 10 ^ 2) by (apply Z.div_lt_upper_bound; lia).
    pose proof (size_to_string_le (sec / 60) 2 ltac:(lia) ltac:(lia)). lia. }
  destruct (Z.ltb_spec sec (60 * 60 * 9)) as [H4 | H4].
  { rewrite size_append. change (Str.size "h") with 1.
    change (inject_Z (60 * 60)) with (inject_Z 3600).
    pose proof (size_splice1_le (inject_Z sec / inject_Z 3600)
                  (quotient_nonneg sec 3600 Hs)
                  (scaled_quotient_le sec 9999999 3600 ltac:(lia))). lia. }
  destruct (Z.ltb_spec (60 * 60 * 99) sec) as [H5 | H5].
  { cbn. lia. }
  rewrite size_append. change (Str.size "h") with 1.
  assert (sec / (60 * 60) < 10 ^ 2) by (apply Z.div_lt_upper_bound; lia).
  pose proof (size_to_string_le (sec / (60 * 60)) 2 ltac:(lia) ltac:(lia)).
  lia.
Qed.

Lemma to_seconds_nonneg d : 0 <= to_seconds (Detail.wrap d).
Proof.
  unfold to_seconds. apply Z.div_pos; [apply wrap_range | lia].
Qed.

(** [show_countdown] fills the [time_len] columns. *)
Lemma size_show_countdown (b : pgbar) (interval num_done : Z) :
  Str.size (show_countdown b interval num_done) = time_len.
Proof.
  unfold show_countdown. destruct (is_updated b); cbn [negb].
  - rewrite size_formatter, !size_append.
    pose proof (size_to_time _ (to_seconds_nonneg (interval * num_done))).
    pose proof (size_to_time _
                  (to_seconds_nonneg
                     (interval
                      * Detail.wrap (Detail.deref (Detail.end_ (task_cnt_ b))
                                     - num_done)))).
    pose proof (size_nonneg
                  (to_time (to_seconds (Detail.wrap (interval * num_done))))).
    pose proof (size_nonneg
                  (to_time
                     (to_seconds
                        (Detail.wrap
                           (interval
                            * Detail.wrap
                                (Detail.deref (Detail.end_ (task_cnt_ b))
                                 - num_done)))))).
    change (Str.size " < ") with 3. change time_len with 11.
    cbn [Z.eqb]. lia.
  - reflexivity.
Qed.

(** X15: the three status fields of fixed width always fill exactly the
    columns [init_length] counts for them.  [show_percentage] is
    [ratio_len] wide for every proportion between 0 and 1;
    [show_rate] never fails and is [rate_len] wide whatever the interval
    and the average so far, the saturated frequency included;
    [show_countdown] is [time_len] wide whatever the interval and the
    count, the cap ["99h"] included. *)
Theorem X15_status_fields_have_fixed_width (b : pgbar) (num_per : Q)
    (interval avg num_done : Z) :
  (0 <= num_per)%Q -> (num_per <= 1)%Q ->
  Str.size (show_percentage b num_per) = ratio_len /\
  (exists txt avg',
     show_rate b interval avg = Some (txt, avg') /\
     Str.size txt = rate_len) /\
  Str.size (show_countdown b interval num_done) = time_len.
Proof.
  intros H0 H1. split; [| split].
  - apply size_show_percentage; assumption.
  - apply show_rate_width.
  - apply size_show_countdown.
Qed.

Lemma X15_status_fields_have_fixed_width_witness :
  Str.size
    (show_percentage (with_update_flag true (pgbar_new 4 1 true)) (1 # 3))
  = ratio_len /\
  (exists txt avg',
     show_rate (with_update_flag true (pgbar_new 4 1 true)) 1000000 0
     = Some (txt, avg') /\
     Str.size txt = rate_len) /\
  Str.size
    (show_countdown (with_update_flag true (pgbar_new 4 1 true)) 1000000 1)
  = time_len.
Proof.
  apply (X15_status_fields_have_fixed_width
           (with_update_flag true (pgbar_new 4 1 true)) (1 # 3) 1000000 0 1).
  - discriminate.
  - discriminate.
Defined.

(** ** The line and its erase prefix *)

Lemma size_fill_wrap n c : Str.size (Str.fill (Detail.wrap n) c) = Detail.wrap n.
Proof. apply size_fill, wrap_range. Qed.

(** X16: a line is as wide as its own erase prefix.  For a bar whose
    total is below [log10_exact_bound], ten to the twelfth, whose two
    lengths are those [init_length] computes, whose glyphs are single
    characters, whose bar length a [double] holds exactly (below [2^53])
    and whose line fits in a string (no longer than
    [std::string::max_size()]), [generate_barcode] composes, for every
    proportion between 0 and 1 and every count up to the total, a line
    that has [total_length] characters besides its colour sequences: the
    local [total_length], from which the erase prefix is made, is the sum
    of the widths that the field formatters produce, the separators
    included, whether or not the controller draws the bar. *)
Theorem X16_line_is_as_wide_as_its_erase_prefix (b : pgbar) (ctrller : Z)
    (num_per : Q) (num_done interval avg : Z) :
  status_length_ok b -> cnt_length_ok b -> status_bits_agree ctrller b ->
  1 <= Detail.num_tasks_ (task_cnt_ b) < log10_exact_bound ->
  num_done <= Detail.num_tasks_ (task_cnt_ b) ->
  (0 <= num_per)%Q -> (num_per <= 1)%Q ->
  0 <= bar_length_ b < double_exact_bound ->
  line_text_bound b <= Str.max_size ->
  Str.size (done_ch_ b) = 1 -> Str.size (todo_ch_ b) = 1 ->
  exists erase line avg',
    generate_barcode b ctrller num_per num_done interval avg
    = Some ((erase, line), avg') /\
    Str.size line = total_length b ctrller + colour_length b ctrller /\
    Str.size erase = (if is_updated b then total_length b ctrller else 0).
Proof.
  intros Hsl Hcl (Bp & Bc & Br & Bt) HT0 Hdone Hp0 Hp1 Hbl0 Hfit0 Hdc Htc.
  assert (HT : 1 <= Detail.num_tasks_ (task_cnt_ b) < Detail.SizeT_modulus)
    by (unfold log10_exact_bound, Detail.SizeT_modulus in *; lia).
  assert (Hbl : 0 <= bar_length_ b) by lia.
  assert (Hfit : bar_length_ b + Str.size (startpoint_ b)
                 + Str.size (endpoint_ b) + Str.size (lstatus_ b)
                 + Str.size (rstatus_ b) + 100 < Detail.SizeT_modulus).
  { unfold line_text_bound, bar_text_bound in Hfit0.
    rewrite Hdc, Htc in Hfit0.
    pose proof (size_nonneg (done_col_ b)).
    pose proof (size_nonneg (todo_col_ b)).
    pose proof (size_nonneg (status_col_ b)).
    pose proof (size_nonneg Style.PGBAR_DEFAULT_COL).
    unfold Str.max_size, Detail.SizeT_modulus in *. lia. }
  clear HT0 Hbl0 Hfit0.
  (* the widths of the parts *)
  pose proof (size_total_digits _ HT) as HD.
  pose proof (cnt_length_init b HT) as Hcnt. rewrite <- Hcl in Hcnt.
  pose proof (size_show_percentage b num_per Hp0 Hp1) as Wper.
  pose proof (size_show_task_counter b num_done Hdone) as Wcnt.
  destruct (show_rate_width b interval avg) as (txt & avg' & Er & Wrate).
  pose proof (size_show_countdown b interval (Detail.deref (task_cnt_ b)))
    as Wtime.
  assert (Wbar : Str.size (show_bar b num_per)
                 = Str.size (startpoint_ b) + Str.size (done_col_ b)
                   + Str.size (todo_col_ b) + bar_length_ b
                   + Str.size Style.PGBAR_DEFAULT_COL
                   + Str.size (endpoint_ b) + 1).
  { assert (Hin : Detail.in_SizeT (bar_length_ b)).
    { pose proof (size_nonneg (startpoint_ b)).
      pose proof (size_nonneg (endpoint_ b)).
      pose proof (size_nonneg (lstatus_ b)).
      pose proof (size_nonneg (rstatus_ b)).
      unfold Detail.in_SizeT. lia. }
    destruct (show_bar_shape b num_per Hin Hp0 Hp1) as (d & Hd & E).
    rewrite E, !size_append, !size_append_times, !Z2Nat.id by lia.
    rewrite Hdc, Htc. change (Str.size " ") with 1. lia. }
  pose proof (size_nonneg (startpoint_ b)) as N1.
  pose proof (size_nonneg (endpoint_ b)) as N2.
  pose proof (size_nonneg (lstatus_ b)) as N3.
  pose proof (size_nonneg (rstatus_ b)) as N4.
  set (D := Str.size (Str.to_string (Detail.num_tasks_ (task_cnt_ b)))) in *.
  change ratio_len with 7 in *. change rate_len with 10 in *.
  change time_len with 11 in *.
  (* the status length in closed form *)
  unfold status_length_ok, status_length_of in Hsl.
  rewrite <- Bp, <- Bc, <- Br, <- Bt in Hsl.
  change ratio_len with 7 in Hsl. change rate_len with 10 in Hsl.
  change time_len with 11 in Hsl. change (Str.size division) with 3 in Hsl.
  rewrite Hcnt in Hsl.
  unfold generate_barcode, progress_bar_head, progress_bar_tail.
  unfold total_length, colour_length.
  change (Str.size font_fmt) with 4. change (Str.size default_col) with 4.
  change (Str.size Style.PGBAR_DEFAULT_COL) with 4 in *.
  rewrite Er.
  set (sl := status_length_ b) in *.
  assert (Hslr : 0 <= sl < Detail.SizeT_modulus).
  { rewrite Hsl.
    destruct (negb _); apply wrap_range. }
  destruct (Z.testbit ctrller bit_index.bar),
           (Z.testbit ctrller bit_index.per),
           (Z.testbit ctrller bit_index.cnt),
           (Z.testbit ctrller bit_index.rate),
           (Z.testbit ctrller bit_index.timer);
    cbn [orb bool_to_Z] in Hsl |- *.
  all: repeat match type of Hsl with
         | context [Detail.wrap ?x] =>
             rewrite (wrap_small x) in Hsl
               by (unfold Detail.in_SizeT, Detail.SizeT_modulus in *; lia)
         | context [negb (?x =? 0)] =>
             destruct (Z.eqb_spec x 0); cbn [negb] in Hsl
         | context [?x <? ?y] => destruct (Z.ltb_spec x y)
         end.
  all: try lia.
  all: destruct (Z.eqb_spec sl 0); cbn [negb]; try lia.
  all: eexists _, _, _; split; [reflexivity |].
  all: split;
    [| destruct (is_updated b);
       [first [apply size_fill_wrap | reflexivity] | reflexivity]].
  all: rewrite ?size_append, ?Wbar, ?Wper, ?Wcnt, ?Wrate, ?Wtime.
  all: change (Str.size EmptyString) with 0; change (Str.size division) with 3;
    change (Str.size font_fmt) with 4; change (Str.size default_col) with 4.
  all: repeat match goal with
         | |- context [Detail.wrap ?x] =>
             rewrite (wrap_small x)
               by (unfold Detail.in_SizeT, Detail.SizeT_modulus in *; lia)
         end.
  all: lia.
Qed.

Lemma X16_line_is_as_wide_as_its_erase_prefix_witness :
  exists erase line avg',
    generate_barcode (with_update_flag true (pgbar_new 1000 1 true))
      (Z.clearbit Style.entire bit_index.bar) (1 # 3) 333 1000000 0
    = Some ((erase, line), avg') /\
    Str.size line
    = total_length (with_update_flag true (pgbar_new 1000 1 true))
        (Z.clearbit Style.entire bit_index.bar)
      + colour_length (with_update_flag true (pgbar_new 1000 1 true))
          (Z.clearbit Style.entire bit_index.bar) /\
    Str.size erase
    = (if is_updated (with_update_flag true (pgbar_new 1000 1 true))
       then total_length (with_update_flag true (pgbar_new 1000 1 true))
              (Z.clearbit Style.entire bit_index.bar)
       else 0).
Proof.
  apply (X16_line_is_as_wide_as_its_erase_prefix
           (with_update_flag true (pgbar_new 1000 1 true))
           (Z.clearbit Style.entire bit_index.bar) (1 # 3) 333 1000000 0).
  - vm_compute. reflexivity.
  - vm_compute. reflexivity.
  - vm_compute. repeat split.
  - vm_compute. split; [discriminate | reflexivity].
  - vm_compute. discriminate.
  - discriminate.
  - discriminate.
  - vm_compute. split; [discriminate | reflexivity].
  - vm_compute. discriminate.
  - reflexivity.
  - reflexivity.
Defined.

(** ** The cached lengths *)

Lemma cnt_length_ok_same b b' :
  cnt_length_ b' = cnt_length_ b ->
  Detail.num_tasks_ (task_cnt_ b') = Detail.num_tasks_ (task_cnt_ b) ->
  cnt_length_ok b -> cnt_length_ok b'.
Proof.
  unfold cnt_length_ok, init_length.
  cbn [cnt_length_ with_status_length with_cnt_length].
  unfold Detail.deref, Detail.end_. cbn [Detail.current_].
  intros -> ->. auto.
Qed.

Lemma cnt_length_ok_init b : cnt_length_ok (init_length true b).
Proof. reflexivity. Qed.

Lemma cnt_length_style_of b b' :
  style_of b' = style_of b -> cnt_length_ b' = cnt_length_ b.
Proof.
  intros E. change (cnt_length_ (style_of b') = cnt_length_ (style_of b)).
  now rewrite E.
Qed.

Lemma cnt_length_ok_call c s :
  bar_inv (self s) -> cnt_length_ok (self s) ->
  cnt_length_ok (self (exec (run_call c) s)).
Proof.
  intros (Hok & Hn & Hidle) Hc.
  assert (Hadv : forall f,
            (forall k, Detail.num_tasks_ (f k) = Detail.num_tasks_ k) ->
            cnt_length_ok
              (self (snd (do_update
                            (modify_this
                               (fun b => with_task_cnt (f (task_cnt_ b)) b))
                            s)))).
  { intros f Hf.
    destruct (is_done (self s)) eqn:Hd.
    { rewrite do_update_full by exact Hd. exact Hc. }
    destruct (Z.eq_dec (Detail.num_tasks_ (task_cnt_ (self s))) 0) as [E0 | E0].
    { rewrite do_update_zero by assumption. exact Hc. }
    destruct (advance_run f s Hd E0) as (s' & E & H1 & H2 & _).
    { intros Hu. apply Hidle. exact Hu. }
    rewrite E. cbn [snd].
    apply (cnt_length_ok_same (self s)); [| | exact Hc].
    - apply cnt_length_style_of. exact H1.
    - rewrite H2. apply Hf. }
  destruct (update_flag_ (self s)) eqn:Hu.
  - destruct (is_setter c) eqn:Hs.
    + unfold exec. rewrite setter_noop by assumption. exact Hc.
    + destruct c; try discriminate Hs; unfold exec; cbn [run_call].
      * apply (Hadv Detail.pre_increment). reflexivity.
      * apply (Hadv (fun k => Detail.add_assign k next_step)). reflexivity.
      * destruct (reset_run s Hu) as (s' & E & H1 & H2 & _).
        rewrite E. cbn [snd].
        apply (cnt_length_ok_same (self s)); [| | exact Hc].
        -- apply cnt_length_style_of. exact H1.
        -- rewrite H2. reflexivity.
  - destruct c; unfold exec; cbn [run_call].
    + apply (Hadv Detail.pre_increment). reflexivity.
    + apply (Hadv (fun k => Detail.add_assign k next_step)). reflexivity.
    + rewrite reset_idle by exact Hu. exact Hc.
    + unfold set_step. unfold bind at 1, this at 1. unfold is_updated.
      rewrite Hu. destruct (_step =? 0); [exact Hc |].
      apply (cnt_length_ok_same (self s)); [reflexivity | reflexivity | exact Hc].
    + unfold set_task. unfold bind at 1, this at 1. unfold is_updated.
      rewrite Hu. destruct (_total_tsk =? 0); [exact Hc |].
      apply cnt_length_ok_init.
    + unfold set_done. unfold bind at 1, this at 1. unfold is_updated.
      rewrite Hu. exact Hc.
    + unfold set_todo. unfold bind at 1, this at 1. unfold is_updated.
      rewrite Hu. exact Hc.
    + unfold set_startpoint. unfold bind at 1, this at 1. unfold is_updated.
      rewrite Hu. exact Hc.
    + unfold set_endpoint. unfold bind at 1, this at 1. unfold is_updated.
      rewrite Hu. exact Hc.
    + unfold set_lstatus. unfold bind at 1, this at 1. unfold is_updated.
      rewrite Hu. exact Hc.
    + unfold set_rstatus. unfold bind at 1, this at 1. unfold is_updated.
      rewrite Hu. exact Hc.
    + unfold set_bar_length. unfold bind at 1, this at 1. unfold is_updated.
      rewrite Hu. exact Hc.
    + unfold set_todo_col. unfold bind at 1, this at 1. unfold is_updated.
      rewrite Hu. exact Hc.
    + unfold set_done_col. unfold bind at 1, this at 1. unfold is_updated.
      rewrite Hu. exact Hc.
    + unfold set_status_col. unfold bind at 1, this at 1. unfold is_updated.
      rewrite Hu. exact Hc.
    + unfold set_style. unfold bind at 1, this at 1. unfold is_updated.
      rewrite Hu. exact Hc.
    + unfold set_style_bundle. unfold bind at 1, this at 1.
      unfold is_updated. rewrite Hu. apply cnt_length_ok_init.
Qed.

(** X17: the two cached lengths never go stale.  In every state a bar
    goes through, [cnt_length_] is the width that [init_length] computes
    from the current total and [status_length_] the width it computes from
    the current selection, [cnt_length_] and the two status delimiters:
    every setter that changes one of these recomputes what depends on
    it. *)
Theorem X17_cached_lengths_stay_in_sync (s : ctx) :
  reachable s ->
  cnt_length_ (self s) = cnt_length_ (init_length true (self s)) /\
  status_length_ (self s) = status_length_of (self s).
Proof.
  intros Hr. split; [| apply (reachable_inv s Hr)].
  change (cnt_length_ok (self s)).
  induction Hr as [g T S tty | s c Hr IH].
  - reflexivity.
  - apply cnt_length_ok_call; [apply reachable_inv; exact Hr | exact IH].
Qed.

Lemma X17_cached_lengths_stay_in_sync_witness :
  cnt_length_
    (self (run_calls [CSetTask 1000; CSetLstatus "<"; CUpdate]
             (start clock_1ms (pgbar_new 4 1 true))))
  = cnt_length_
      (init_length true
         (self (run_calls [CSetTask 1000; CSetLstatus "<"; CUpdate]
                  (start clock_1ms (pgbar_new 4 1 true))))) /\
  status_length_
    (self (run_calls [CSetTask 1000; CSetLstatus "<"; CUpdate]
             (start clock_1ms (pgbar_new 4 1 true))))
  = status_length_of
      (self (run_calls [CSetTask 1000; CSetLstatus "<"; CUpdate]
               (start clock_1ms (pgbar_new 4 1 true)))).
Proof.
  apply (X17_cached_lengths_stay_in_sync
           (run_calls [CSetTask 1000; CSetLstatus "<"; CUpdate]
              (start clock_1ms (pgbar_new 4 1 true)))).
  apply reachable_run_calls. apply reach_new.
Defined.

(** ** Copy and move *)

Lemma pod_npod_copy_frame _to _from :
  update_flag_ (pod_copy (npod_copy _to _from) _from) = update_flag_ _to /\
  rndrer_ (pod_copy (npod_copy _to _from) _from) = rndrer_ _to /\
  stream_ (pod_copy (npod_copy _to _from) _from) = stream_ _to /\
  in_tty_ (pod_copy (npod_copy _to _from) _from) = in_tty_ _to /\
  task_cnt_ (pod_copy (npod_copy _to _from) _from)
  = Detail.assign_counter (task_cnt_ _from).
Proof. repeat split. Qed.

Lemma pod_npod_copy_style _to _from :
  in_tty_ _to = in_tty_ _from ->
  style_of (pod_copy (npod_copy _to _from) _from) = style_of _from.
Proof.
  intros E. unfold style_of, core_of, pod_copy, npod_copy.
  destruct _to, _from. cbn in E. subst. reflexivity.
Qed.

Lemma pod_npod_copy_lengths _to _from :
  status_length_ok _from -> cnt_length_ok _from ->
  status_length_ok (pod_copy (npod_copy _to _from) _from) /\
  cnt_length_ok (pod_copy (npod_copy _to _from) _from).
Proof.
  intros Hs Hc. split.
  - unfold status_length_ok in *.
    change (status_length_ _from = status_length_of _from). exact Hs.
  - apply (cnt_length_ok_same _from); [reflexivity | reflexivity | exact Hc].
Qed.

(** X18: a copy is a fresh bar with the source's configuration.  The copy
    constructor takes the style, the total and the step of its source,
    whatever state the source is in, and gives a bar that has not started,
    whose counter is at zero, whose driver is parked and which has written
    nothing; the two cached lengths it copies fit what it copies them
    with, so the copy satisfies the invariants of a constructed bar. *)
Theorem X18_copy_is_a_fresh_bar (_lhs : pgbar) (tty : bool) :
  status_length_ok _lhs -> cnt_length_ok _lhs ->
  bar_inv (pgbar_copy _lhs tty) /\
  cnt_length_ok (pgbar_copy _lhs tty) /\
  driver_tracks (pgbar_copy _lhs tty) /\
  is_updated (pgbar_copy _lhs tty) = false /\
  stream_ (pgbar_copy _lhs tty) = [] /\
  task_cnt_ (pgbar_copy _lhs tty)
  = Detail.counter_new (Detail.num_tasks_ (task_cnt_ _lhs))
      (Detail.step_ (task_cnt_ _lhs)) /\
  (in_tty_ _lhs = tty -> style_of (pgbar_copy _lhs tty) = style_of _lhs).
Proof.
  intros Hs Hc. unfold pgbar_copy.
  destruct (pod_npod_copy_lengths (pgbar_stream tty) _lhs Hs Hc) as [L1 L2].
  destruct (pod_npod_copy_frame (pgbar_stream tty) _lhs)
    as (F1 & F2 & F3 & F4 & F5).
  split; [| split; [| split; [| split; [| split; [| split]]]]].
  - split; [exact L1 |]. split.
    + rewrite F1. discriminate.
    + intros _. rewrite F2. reflexivity.
  - exact L2.
  - unfold driver_tracks, is_updated. rewrite F1, F2. reflexivity.
  - unfold is_updated. rewrite F1. reflexivity.
  - rewrite F3. reflexivity.
  - rewrite F5. reflexivity.
  - intros E. apply pod_npod_copy_style. rewrite <- E. reflexivity.
Qed.

Lemma X18_copy_is_a_fresh_bar_witness :
  bar_inv (pgbar_copy (self overtaken_bar) true) /\
  cnt_length_ok (pgbar_copy (self overtaken_bar) true) /\
  driver_tracks (pgbar_copy (self overtaken_bar) true) /\
  is_updated (pgbar_copy (self overtaken_bar) true) = false /\
  stream_ (pgbar_copy (self overtaken_bar) true) = [] /\
  task_cnt_ (pgbar_copy (self overtaken_bar) true)
  = Detail.counter_new
      (Detail.num_tasks_ (task_cnt_ (self overtaken_bar)))
      (Detail.step_ (task_cnt_ (self overtaken_bar))) /\
  (in_tty_ (self overtaken_bar) = true ->
   style_of (pgbar_copy (self overtaken_bar) true)
   = style_of (self overtaken_bar)).
Proof.
  apply (X18_copy_is_a_fresh_bar (self overtaken_bar) true).
  - vm_compute. reflexivity.
  - vm_compute. reflexivity.
Defined.

(** X19: copy assignment is gated, move assignment is not.
    [operator=( const pgbar& )] changes nothing when the bar has started
    or is assigned to itself; on a bar that has not started it makes the
    members those of a copy, the bar keeping its output and its driver.
    [operator=( pgbar&& )] does the same assignments whether or not the
    bar has started: on a started bar it replaces the configuration and
    rewinds the counter while the bar stays started. *)
Theorem X19_copy_assign_is_gated_move_assign_is_not (s : ctx)
    (_other : pgbar) :
  copy_assign Itself s = (Ok tt, s) /\
  (update_flag_ (self s) = true ->
   copy_assign (Another _other) s = (Ok tt, s)) /\
  (update_flag_ (self s) = false ->
   copy_assign (Another _other) s = move_assign _other s) /\
  exists b',
    move_assign _other s = (Ok tt, mk_ctx (statics s) b') /\
    update_flag_ b' = update_flag_ (self s) /\
    rndrer_ b' = rndrer_ (self s) /\
    stream_ b' = stream_ (self s) /\
    task_cnt_ b' = Detail.assign_counter (task_cnt_ _other) /\
    style_of b' = style_of (pgbar_copy _other (in_tty_ (self s))).
Proof.
  split; [| split; [| split]].
  - unfold copy_assign, bind, this, ret. reflexivity.
  - intros Hu. unfold copy_assign. unfold bind, this. unfold is_updated.
    rewrite Hu. reflexivity.
  - intros Hu. unfold copy_assign. unfold bind, this. unfold is_updated.
    rewrite Hu. reflexivity.
  - eexists. split; [reflexivity |].
    repeat split.
Qed.

(** A started bar whose driver is parked counts without rendering. *)
Lemma update_parked s :
  update_flag_ (self s) = true ->
  active_flag_ (rndrer_ (self s)) = false ->
  Detail.is_ended (task_cnt_ (self s)) = false ->
  Detail.num_tasks_ (task_cnt_ (self s)) <> 0 ->
  update s
  = (Ok tt,
     mk_ctx (statics s)
       (with_task_cnt (Detail.pre_increment (task_cnt_ (self s))) (self s))).
Proof.
  intros Hu Ha He Hn. unfold update, do_update.
  unfold bind at 1, this at 1.
  unfold is_done, is_updated. rewrite Hu, He. cbn [andb negb when].
  unfold Detail.eq_value, Detail.end_. cbn [Detail.current_].
  destruct (Z.eqb_spec (Detail.num_tasks_ (task_cnt_ (self s))) 0) as [E | _];
    [contradiction |].
  unfold bind at 1, ret at 1.
  unfold bind at 1, modify_this at 1.
  unfold bind at 1, render at 1.
  unfold bind at 1, this at 1. cbn [self rndrer_ with_task_cnt].
  rewrite Ha. cbn [negb]. unfold ret at 1.
  unfold bind at 1, this at 1. cbn [self].
  destruct (Detail.is_ended
              (task_cnt_
                 (with_task_cnt (Detail.pre_increment (task_cnt_ (self s)))
                    (self s)))); cbn [when].
  - unfold suspend. unfold bind at 1, this at 1.
    cbn [self rndrer_ with_task_cnt]. rewrite Ha. reflexivity.
  - reflexivity.
Qed.

(** X20: move assignment onto a finished bar re-arms the counter but not
    the driver.  The bar stays started and its counter is rewound, so
    [is_done()] is false again and [update()] passes its checks; but the
    driver, parked when the bar finished, is woken by the first
    [update()] of a bar that has not started only: the [update()] returns
    normally, advances the counter, reads no clock and prints nothing. *)
Theorem X20_move_assign_onto_finished_bar_is_mute (s : ctx) (_rhs : pgbar) :
  reachable s -> is_done (self s) = true ->
  1 <= Detail.step_ (task_cnt_ _rhs) <= Detail.num_tasks_ (task_cnt_ _rhs) ->
  Detail.num_tasks_ (task_cnt_ _rhs) < Detail.SizeT_modulus ->
  exists s1 s2,
    move_assign _rhs s = (Ok tt, s1) /\
    is_done (self s1) = false /\
    ~ driver_tracks (self s1) /\
    update s1 = (Ok tt, s2) /\
    statics s2 = statics s /\
    stream_ (self s2) = stream_ (self s) /\
    Detail.current_ (task_cnt_ (self s2)) = Detail.step_ (task_cnt_ _rhs).
Proof.
  intros Hr Hd HS HT.
  pose proof (reachable_tracks s Hr) as Htr.
  unfold is_done in Hd. apply andb_prop in Hd as [Hu He].
  unfold driver_tracks in Htr. rewrite Hu, He in Htr. cbn in Htr.
  unfold is_updated in Hu.
  set (b1 := pod_copy (npod_move (self s) _rhs) _rhs).
  assert (F1 : update_flag_ b1 = true) by exact Hu.
  assert (F2 : active_flag_ (rndrer_ b1) = false) by exact Htr.
  assert (F3 : task_cnt_ b1 = Detail.assign_counter (task_cnt_ _rhs))
    by reflexivity.
  assert (F4 : Detail.is_ended (task_cnt_ b1) = false).
  { rewrite F3. unfold Detail.is_ended, Detail.assign_counter.
    cbn [Detail.num_tasks_ Detail.step_ Detail.current_].
    destruct (Z.leb_spec (Detail.num_tasks_ (task_cnt_ _rhs)) 0); [lia |].
    rewrite Z.sub_0_r, wrap_small by (unfold Detail.in_SizeT; lia).
    apply Z.ltb_ge. lia. }
  exists (mk_ctx (statics s) b1).
  eexists. split; [reflexivity |]. cbn [self].
  split; [unfold is_done; rewrite F4; apply andb_false_r |].
  split.
  { unfold driver_tracks, is_updated. rewrite F1, F2, F4. discriminate. }
  split.
  { apply update_parked; cbn [self]; try assumption.
    rewrite F3. cbn. lia. }
  cbn [statics self]. split; [reflexivity |]. split; [reflexivity |].
  cbn [task_cnt_ with_task_cnt]. rewrite F3.
  unfold Detail.pre_increment, Detail.assign_counter.
  cbn [Detail.num_tasks_ Detail.step_ Detail.current_].
  rewrite Z.add_0_l. apply wrap_small. unfold Detail.in_SizeT. lia.
Qed.

Lemma X20_move_assign_onto_finished_bar_is_mute_witness :
  exists s1 s2,
    move_assign (pgbar_new 4 1 true)
      (exec (run_call CUpdate) (start clock_1ms (pgbar_new 1 1 true)))
    = (Ok tt, s1) /\
    is_done (self s1) = false /\
    ~ driver_tracks (self s1) /\
    update s1 = (Ok tt, s2) /\
    statics s2
    = statics (exec (run_call CUpdate) (start clock_1ms (pgbar_new 1 1 true))) /\
    stream_ (self s2)
    = stream_
        (self (exec (run_call CUpdate)
                 (start clock_1ms (pgbar_new 1 1 true)))) /\
    Detail.current_ (task_cnt_ (self s2))
    = Detail.step_ (task_cnt_ (pgbar_new 4 1 true)).
Proof.
  apply (X20_move_assign_onto_finished_bar_is_mute
           (exec (run_call CUpdate) (start clock_1ms (pgbar_new 1 1 true)))
           (pgbar_new 4 1 true)).
  - apply reach_call. apply reach_new.
  - vm_compute. reflexivity.
  - vm_compute. split; discriminate.
  - vm_compute. reflexivity.
Defined.

(** ** The closing line *)

Section UnderDoneFlag.
Variables (d : bool) (J : pgbar -> Prop).

Lemma hoare_statics_keep (f : globals -> globals) :
  (forall g, done_flag (f g) = done_flag g) ->
  hoare (under_done_flag d J) (modify_statics f)
    (fun _ => under_done_flag d J).
Proof.
  intros Hf s [H1 H2]. eexists _, _. split; [reflexivity |].
  split; [exact H1 |]. cbn [statics]. rewrite Hf. exact H2.
Qed.

Lemma hoare_set_done_flag (v : bool) :
  hoare (under_done_flag d J) (modify_statics (with_done_flag v))
    (fun _ => under_done_flag v J).
Proof.
  intros s [H1 H2]. eexists _, _. split; [reflexivity |].
  split; [exact H1 | reflexivity].
Qed.

Lemma hoare_now_keep :
  hoare (under_done_flag d J) now (fun _ => under_done_flag d J).
Proof.
  intros s [H1 H2]. eexists _, _. split; [reflexivity |].
  split; [exact H1 | exact H2].
Qed.

Lemma hoare_the_statics_keep :
  hoare (under_done_flag d J) the_statics
    (fun g s => under_done_flag d J s /\ done_flag g = d).
Proof.
  intros s [H1 H2]. eexists _, _. split; [reflexivity |].
  split; [split; assumption | exact H2].
Qed.

Lemma hoare_call_generate_barcode_keep ctrller num_per num_done interval :
  hoare (under_done_flag d J)
    (call_generate_barcode ctrller num_per num_done interval)
    (fun _ => under_done_flag d J).
Proof.
  intros s [H1 H2]. unfold call_generate_barcode.
  destruct (generate_barcode_some (self s) ctrller num_per num_done interval
              (rate_invoke_interval (statics s))) as (line & avg' & ->).
  eexists _, _. split; [reflexivity |]. split; [exact H1 | exact H2].
Qed.

Lemma hoare_checked_div_keep a b :
  b <> 0 ->
  hoare (under_done_flag d J) (checked_div a b) (fun _ => under_done_flag d J).
Proof.
  intros Hb s Hs. unfold checked_div.
  destruct (Z.eqb_spec b 0) as [E | _]; [contradiction |].
  eexists _, _. split; [reflexivity | exact Hs].
Qed.

Lemma hoare_this_keep :
  hoare (under_done_flag d J) this
    (fun b s => under_done_flag d (fun b' => J b' /\ b' = b) s).
Proof.
  intros s [H1 H2]. eexists _, _. split; [reflexivity |].
  split; [split; [exact H1 | reflexivity] | exact H2].
Qed.
End UnderDoneFlag.

Lemma hoare_modify_this_keep d (J J' : pgbar -> Prop) f :
  (forall b, J b -> J' (f b)) ->
  hoare (under_done_flag d J) (modify_this f) (fun _ => under_done_flag d J').
Proof.
  intros HJ s [H1 H2]. eexists _, _. split; [reflexivity |].
  split; [apply HJ; exact H1 | exact H2].
Qed.

Lemma under_done_flag_weaken d (J J' : pgbar -> Prop) s :
  (forall b, J b -> J' b) -> under_done_flag d J s -> under_done_flag d J' s.
Proof. intros H [H1 H2]. split; [apply H; exact H1 | exact H2]. Qed.

Ltac kprim :=
  first [ apply hoare_statics_keep; intros ?; reflexivity
        | apply hoare_now_keep
        | apply hoare_call_generate_barcode_keep ].

Ltac kseq :=
  cbv beta; eapply hoare_bind; [ kprim | intros ?; cbv beta ].

Lemma hoare_statics_forget d (J : pgbar -> Prop) :
  hoare (under_done_flag d J) the_statics (fun _ => under_done_flag d J).
Proof.
  intros s Hs. eexists _, _. split; [reflexivity | exact Hs].
Qed.

Lemma hoare_pure {A} (phi : Prop) (P : ctx -> Prop) (m : M A)
    (Q : A -> ctx -> Prop) :
  (phi -> hoare P m Q) -> hoare (fun s => P s /\ phi) m Q.
Proof. intros H s [Hs Hphi]. exact (H Hphi s Hs). Qed.

Lemma task_cnt_core_of b b' : core_of b' = core_of b -> task_cnt_ b' = task_cnt_ b.
Proof.
  intros E. change (task_cnt_ (core_of b') = task_cnt_ (core_of b)).
  now rewrite E.
Qed.

Lemma in_tty_core_of b b' : core_of b' = core_of b -> in_tty_ b' = in_tty_ b.
Proof.
  intros E. change (in_tty_ (core_of b') = in_tty_ (core_of b)).
  now rewrite E.
Qed.

Lemma closed_snoc older e line : closed (older ++ [(e, line ++ newline)]).
Proof. exists older, (e, line ++ newline). split; [reflexivity |]. now exists line. Qed.

(** The frame of a regular render and the frame of the last render. *)
Lemma started_frame_appended b0 b info :
  rendered_from b0 b -> in_tty_ b = true ->
  rendered_from b0 (with_stream (stream_ b ++ [info])%list b).
Proof.
  intros (H1 & H2 & (more & E & Hm)) Ht. split; [exact H1 |].
  split; [exact H2 |].
  exists (more ++ [info])%list. split.
  - cbn [stream_ with_stream]. rewrite E. now rewrite app_assoc.
  - intros Hf. apply in_tty_core_of in H1. congruence.
Qed.

Lemma rendering_started_hoare b0 :
  hoare (under_done_flag false (rendered_from b0)) rendering
    (fun _ s =>
       rendered_from b0 (self s) /\
       done_flag (statics s) = Detail.is_ended (task_cnt_ b0) /\
       (in_tty_ b0 = true -> Detail.is_ended (task_cnt_ b0) = true ->
        closed (stream_ (self s)))).
Proof.
  set (J := rendered_from b0).
  unfold rendering.
  eapply hoare_bind; [apply hoare_this_keep | intros b; cbv beta].
  eapply hoare_bind with (R := fun _ => under_done_flag false J).
  { apply hoare_when.
    - intros Hc s [[(_ & Hu & _) Hb] _]. exfalso.
      unfold is_updated in Hc. rewrite <- Hb, Hu in Hc. discriminate.
    - intros _ s Hs. eapply under_done_flag_weaken; [| exact Hs].
      cbv beta. tauto. }
  intros _.
  eapply hoare_bind; [apply hoare_the_statics_keep | intros st; cbv beta].
  apply hoare_pure. intros ->.
  eapply hoare_bind; [apply hoare_this_keep | intros b1; cbv beta].
  eapply hoare_bind with (R := fun _ => under_done_flag false J).
  { apply hoare_when.
    - intros Ht. kseq.
      eapply hoare_bind; [apply hoare_statics_forget | intros st1; cbv beta].
      eapply hoare_bind
        with (R := fun _ => under_done_flag false (fun b' => J b' /\ b' = b1)).
      { match goal with
        | |- context [Detail.neq_value ?c 0] =>
            destruct (Detail.neq_value c 0) eqn:E
        end; apply hoare_checked_div_keep; [| discriminate].
        unfold Detail.neq_value, Detail.eq_value in E. unfold Detail.deref.
        intros E0. rewrite E0 in E. discriminate. }
      intros interval. kseq.
      eapply hoare_bind
        with (R := fun _ => under_done_flag false (fun b' => J b' /\ b' = b1)).
      { match goal with |- hoare _ (if ?c then _ else _) _ => destruct c end.
        - apply hoare_ret. auto.
        - kseq. apply hoare_ret. auto. }
      intros controller. kseq.
      apply hoare_modify_this_keep. intros b' [HJ ->].
      apply started_frame_appended; assumption.
    - intros _ s Hs. eapply under_done_flag_weaken; [| exact Hs].
      cbv beta. tauto. }
  intros _.
  eapply hoare_bind; [apply hoare_this_keep | intros b2; cbv beta].
  (* the counter and the terminal of [b2] are those of [b0] *)
  intros s Hs.
  assert (E2 : task_cnt_ b2 = task_cnt_ b0 /\ in_tty_ b2 = in_tty_ b0
               /\ update_flag_ b2 = true).
  { destruct Hs as [[(H1 & H2 & _) <-] _].
    split; [apply task_cnt_core_of; exact H1 |].
    split; [apply in_tty_core_of; exact H1 | exact H2]. }
  destruct E2 as (Ec & Et & Eu).
  revert s Hs. change (hoare
    (under_done_flag false (fun b' => J b' /\ b' = b2))
    (when (is_done b2)
       (when (in_tty_ b2)
          (st0 <- the_statics ;;
           info <- call_generate_barcode (option_ b2) 1%Q
                     (Detail.deref (Detail.end_ (task_cnt_ b2)))
                     (invoke_interval st0) ;;
           write (fst info, snd info ++ newline)) ;;
        modify_statics (with_done_flag true)))
    (fun _ s =>
       J (self s) /\
       done_flag (statics s) = Detail.is_ended (task_cnt_ b0) /\
       (in_tty_ b0 = true -> Detail.is_ended (task_cnt_ b0) = true ->
        closed (stream_ (self s))))).
  unfold is_done, is_updated. rewrite Eu, Ec. cbn [andb].
  apply hoare_when.
  - intros He.
    eapply hoare_bind
      with (R := fun _ => under_done_flag false
                   (fun b' => J b' /\
                              (in_tty_ b0 = true -> closed (stream_ b')))).
    { apply hoare_when.
      - intros Ht.
        eapply hoare_bind; [apply hoare_statics_forget | intros st1; cbv beta].
        kseq.
        apply hoare_modify_this_keep. intros b' [HJ ->]. split.
        + apply started_frame_appended; assumption.
        + intros _. cbn [stream_ with_stream]. apply closed_snoc.
      - intros Ht s [[HJ Hb] Hd]. split; [| exact Hd].
        split; [exact HJ |]. intros Ht0. congruence. }
    intros _.
    eapply hoare_conseq;
      [apply hoare_set_done_flag | intros s Hs; exact Hs |].
    cbv beta. intros _ s [[HJ Hcl] Hd]. split; [exact HJ |].
    split; [congruence |]. intros Ht _. auto.
  - intros He s [[HJ _] Hd]. split; [exact HJ |].
    split; [congruence |]. intros _ Hf. congruence.
Qed.

Lemma bind_this {B} (k : pgbar -> M B) s : bind this k s = k (self s) s.
Proof. reflexivity. Qed.

Lemma bind_ok {A B} (m : M A) (k : A -> M B) s a s' :
  m s = (Ok a, s') -> bind m k s = k a s'.
Proof. intros E. unfold bind. rewrite E. reflexivity. Qed.

Lemma bind_ret {A B} (a : A) (k : A -> M B) s : bind (ret a) k s = k a s.
Proof. reflexivity. Qed.

(** The first render of a bar starts it and clears the static
    [done_flag]; what follows is the render of a started bar. *)
Lemma rendering_unstarted s :
  update_flag_ (self s) = false ->
  exists s1,
    rendering s = rendering s1 /\
    core_of (self s1) = core_of (self s) /\
    update_flag_ (self s1) = true /\
    done_flag (statics s1) = false /\
    output_grown (self s) (self s1).
Proof.
  intros Hu.
  set (J := fun b => core_of b = core_of (self s)
                     /\ output_grown (self s) b).
  assert (Hw : forall b info, J b -> in_tty_ b = true ->
                 J (with_stream (stream_ b ++ [info])%list b)).
  { intros b info [H1 (more & E & Hm)] Ht. split; [exact H1 |].
    exists (more ++ [info])%list. split.
    - cbn [stream_ with_stream]. rewrite E. now rewrite app_assoc.
    - intros Hf. apply in_tty_core_of in H1. congruence. }
  assert (H : hoare (fun s0 => s0 = s)
            (modify_statics (with_done_flag false) ;;
             modify_statics (with_last_bar_progress 0%Q) ;;
             when (in_tty_ (self s))
               (modify_statics (with_invoke_interval 0) ;;
                t <- now ;;
                modify_statics (with_first_invoked t) ;;
                info <- call_generate_barcode (option_ (self s)) 0%Q 0 0 ;;
                write info) ;;
             modify_this (with_update_flag true))
            (fun _ => under_done_flag false
                        (fun b => J b /\ update_flag_ b = true))).
  { eapply hoare_bind
      with (R := fun _ => under_done_flag false
                   (fun b => J b /\ in_tty_ b = in_tty_ (self s))).
    { intros s0 ->. eexists _, _. split; [reflexivity |].
      split; [| reflexivity]. cbn [self]. split; [| reflexivity].
      split; [reflexivity | apply output_grown_refl]. }
    intros _. kseq.
    eapply hoare_bind with (R := fun _ => under_done_flag false J).
    - apply hoare_when.
      + intros Ht. kseq. kseq. kseq. kseq.
        apply hoare_modify_this_keep. intros b [HJ Hb].
        apply Hw; [exact HJ | congruence].
      + intros _ s0 Hs. eapply under_done_flag_weaken; [| exact Hs].
        cbv beta. tauto.
    - intros _. apply hoare_modify_this_keep. intros b [H1 H2].
      split; [| reflexivity]. split; [exact H1 | exact H2]. }
  destruct (H s eq_refl) as ([] & s1 & E & [[[H1 H2] H3] H4]).
  exists s1. split; [| repeat split; assumption].
  unfold rendering. rewrite !bind_this. unfold is_updated.
  rewrite Hu, H3. cbn [negb when].
  rewrite (bind_ok _ _ _ _ _ E), bind_ret. reflexivity.
Qed.

(** One render, whether or not the bar has started, unless the static
    [done_flag] is set on a started bar. *)
Lemma rendering_spec s :
  (update_flag_ (self s) = true -> done_flag (statics s) = false) ->
  exists s', rendering s = (Ok tt, s') /\ rendered s s'.
Proof.
  intros Hd.
  assert (Hstarted : forall s1,
            update_flag_ (self s1) = true -> done_flag (statics s1) = false ->
            exists s', rendering s1 = (Ok tt, s') /\ rendered s1 s').
  { intros s1 Hu1 Hd1.
    destruct (rendering_started_hoare (self s1) s1)
      as ([] & s' & E & (H1 & H2 & H3) & H4 & H5).
    { split; [| exact Hd1]. split; [reflexivity |].
      split; [exact Hu1 | apply output_grown_refl]. }
    exists s'. split; [exact E |]. repeat split; assumption. }
  destruct (update_flag_ (self s)) eqn:Hu.
  - apply Hstarted; [exact Hu | apply Hd; reflexivity].
  - destruct (rendering_unstarted s Hu) as (s1 & E & H1 & H2 & H3 & H4).
    destruct (Hstarted s1 H2 H3) as (s' & E' & K1 & K2 & K3 & K4 & K5).
    exists s'. split; [congruence |].
    pose proof (task_cnt_core_of _ _ H1) as Ec.
    pose proof (in_tty_core_of _ _ H1) as Et.
    split; [congruence |]. split; [exact K2 |].
    split; [congruence |]. split.
    + eapply output_grown_trans; eauto.
    + intros Ht He. apply K5; congruence.
Qed.

Lemma style_of_core_of b b' : core_of b' = core_of b -> style_of b' = style_of b.
Proof. intros E. unfold style_of. now rewrite E. Qed.

Lemma rndrer_core_of b b' : core_of b' = core_of b -> rndrer_ b' = rndrer_ b.
Proof.
  intros E. change (rndrer_ (core_of b') = rndrer_ (core_of b)).
  now rewrite E.
Qed.

(** A render in the middle of a call of [update], the static [done_flag]
    being clear: the flag then tells whether the counter has ended. *)
Lemma hoare_rendering_at b0 c a :
  hoare (at_render b0 c a false) rendering
    (fun _ => at_render b0 c a (Detail.is_ended c)).
Proof.
  intros s (H1 & H2 & H3 & H4 & H5 & H6 & _).
  destruct (rendering_spec s (fun _ => H6))
    as (s' & E & K1 & K2 & K3 & K4 & K5).
  exists tt, s'. split; [exact E |].
  pose proof (in_tty_style_of _ _ H1) as Et.
  split; [rewrite (style_of_core_of _ _ K1); exact H1 |].
  split; [rewrite (task_cnt_core_of _ _ K1); exact H2 |].
  split; [exact K2 |].
  split; [rewrite (rndrer_core_of _ _ K1); exact H4 |].
  split; [eapply output_grown_trans; eauto |].
  split; [rewrite K3, H2; reflexivity |].
  intros He Ht. apply K5; congruence.
Qed.

(** A render while the flag is set does nothing. *)
Lemma hoare_rendering_at_done b0 c a :
  hoare (at_render b0 c a true) rendering (fun _ => at_render b0 c a true).
Proof.
  intros s Hs. pose proof Hs as (_ & _ & H3 & _ & _ & H6 & _).
  exists tt, s. split; [apply rendering_done; assumption | exact Hs].
Qed.

Lemma hoare_now_at b0 c a d :
  hoare (at_render b0 c a d) now (fun _ => at_render b0 c a d).
Proof. intros s Hs. eexists _, _. split; [reflexivity | exact Hs]. Qed.

Lemma hoare_set_last_invoke_at b0 c a d v :
  hoare (at_render b0 c a d) (set_last_invoke v) (fun _ => at_render b0 c a d).
Proof.
  intros s (H1 & H2 & H3 & H4 & H5 & H6 & H7).
  eexists _, _. split; [reflexivity |]. repeat split; assumption.
Qed.

Lemma hoare_set_active_flag_at b0 c a d v :
  hoare (at_render b0 c a d) (set_active_flag v) (fun _ => at_render b0 c v d).
Proof.
  intros s (H1 & H2 & H3 & H4 & H5 & H6 & H7).
  eexists _, _. split; [reflexivity |]. repeat split; assumption.
Qed.

(** [render()] of a running driver, the flag being clear: the flag stays
    clear or tells that the counter has ended. *)
Lemma hoare_render_at b0 c :
  hoare (at_render b0 c true false) (render rendering)
    (fun _ s => exists d,
       at_render b0 c true d s /\ (d = true -> Detail.is_ended c = true)).
Proof.
  intros s Hs. pose proof Hs as (_ & _ & _ & H4 & _).
  unfold render. rewrite bind_this. rewrite H4. cbn [negb].
  assert (H : forall last, hoare (at_render b0 c true false)
                 (current_time <- now ;;
                  if current_time - last <? Detail.reflash_rate then ret tt
                  else set_last_invoke current_time ;; rendering)
                 (fun _ s => exists d,
                    at_render b0 c true d s
                    /\ (d = true -> Detail.is_ended c = true))).
  { intros last.
    eapply hoare_bind; [apply hoare_now_at | intros t; cbv beta].
    match goal with |- hoare _ (if ?c then _ else _) _ => destruct c end.
    - apply hoare_ret. intros s0 Hs0. exists false.
      split; [exact Hs0 | discriminate].
    - eapply hoare_bind; [apply hoare_set_last_invoke_at | intros ?; cbv beta].
      eapply hoare_conseq; [apply hoare_rendering_at | intros ? Hx; exact Hx |].
      cbv beta. intros _ s0 Hs0. exists (Detail.is_ended c).
      split; [exact Hs0 | auto]. }
  exact (H _ s Hs).
Qed.

(** [suspend()] of a running driver when the counter has ended: the last
    render has been made. *)
Lemma hoare_suspend_at b0 c d :
  Detail.is_ended c = true ->
  hoare (at_render b0 c true d) (suspend rendering)
    (fun _ => at_render b0 c false true).
Proof.
  intros He s Hs. pose proof Hs as (_ & _ & _ & H4 & _).
  unfold suspend. rewrite bind_this. rewrite H4. cbn [negb].
  assert (H : hoare (at_render b0 c true d) (rendering ;; set_active_flag false)
                (fun _ => at_render b0 c false true)).
  { eapply hoare_bind with (R := fun _ => at_render b0 c true true).
    - destruct d.
      + apply hoare_rendering_at_done.
      + eapply hoare_conseq; [apply hoare_rendering_at | intros ? Hx; exact Hx |].
        cbv beta. intros _ s0 Hs0. rewrite He in Hs0. exact Hs0.
    - intros _. apply hoare_set_active_flag_at. }
  exact (H s Hs).
Qed.

(** [active()] of the parked driver of a bar that has not started. *)
Lemma active_at s :
  update_flag_ (self s) = false ->
  active_flag_ (rndrer_ (self s)) = false ->
  exists s',
    active rendering s = (Ok tt, s') /\
    at_render (self s) (task_cnt_ (self s)) true
      (Detail.is_ended (task_cnt_ (self s))) s'.
Proof.
  intros Hu Ha. unfold active. rewrite bind_this. rewrite Ha.
  unfold bind at 1, now at 1.
  unfold bind at 1, set_last_invoke at 1, modify_this at 1.
  cbn [self statics].
  set (s0 := mk_ctx (with_reads (S (reads (statics s))) (statics s))
               (with_rndrer
                  (mk_singlethread (active_flag_ (rndrer_ (self s)))
                     (clock (statics s) (reads (statics s))))
                  (self s))).
  destruct (rendering_spec s0) as (s' & E & K1 & K2 & K3 & K4 & K5).
  { intros Hf. exfalso. change (update_flag_ (self s) = true) in Hf.
    congruence. }
  rewrite (bind_ok _ _ _ _ _ E).
  eexists. split; [reflexivity |].
  unfold at_render. cbn [self statics].
  split.
  { transitivity (style_of (self s')); [reflexivity |].
    rewrite (style_of_core_of _ _ K1). reflexivity. }
  split.
  { transitivity (task_cnt_ (self s')); [reflexivity |].
    rewrite (task_cnt_core_of _ _ K1). reflexivity. }
  split; [exact K2 |].
  split; [reflexivity |].
  split; [exact K4 |].
  split; [exact K3 |].
  intros He Ht. apply K5; [exact Ht | exact He].
Qed.

(** A call of [update] that passes the two checks while the counter has
    not ended, in full: with what [do_update_tracks] tells, the static
    [done_flag] tells afterwards whether the counter has ended, and if it
    has, on a terminal, the line is closed. *)
Lemma do_update_closing (f : Detail.counter_iterator -> Detail.counter_iterator)
    s :
  Detail.is_ended (task_cnt_ (self s)) = false ->
  Detail.num_tasks_ (task_cnt_ (self s)) <> 0 ->
  driver_tracks (self s) ->
  closing_inv s ->
  exists s',
    do_update (modify_this (fun b => with_task_cnt (f (task_cnt_ b)) b)) s
    = (Ok tt, s') /\
    at_render (self s) (f (task_cnt_ (self s)))
      (negb (Detail.is_ended (f (task_cnt_ (self s)))))
      (Detail.is_ended (f (task_cnt_ (self s)))) s'.
Proof.
  intros He Hn Ha Hc.
  set (c := task_cnt_ (self s)) in *.
  assert (Hd : is_done (self s) = false).
  { unfold is_done. fold c. rewrite He. apply andb_false_r. }
  unfold do_update. rewrite bind_this. rewrite Hd.
  unfold Detail.eq_value, Detail.end_. cbn [Detail.current_]. fold c.
  destruct (Z.eqb_spec (Detail.num_tasks_ c) 0) as [E | _];
    [contradiction |].
  (* the bar is started and its driver runs *)
  assert (H1 : exists s1,
            when (negb (is_updated (self s))) (active rendering) s
            = (Ok tt, s1) /\ at_render (self s) c true false s1).
  { unfold driver_tracks, is_updated in Ha. unfold is_updated.
    destruct (update_flag_ (self s)) eqn:Hu; cbn [negb when].
    - exists s. split; [reflexivity |].
      fold c in Ha. rewrite He in Ha. cbn in Ha.
      destruct (Hc Hu) as [Hc1 Hc2]. fold c in Hc1. rewrite He in Hc1.
      repeat split; try assumption; try reflexivity.
      + apply output_grown_refl.
      + discriminate.
    - cbn in Ha.
      destruct (active_at s Hu Ha) as (s1 & E1 & K).
      exists s1. split; [exact E1 |]. fold c in K. rewrite He in K. exact K. }
  destruct H1 as (s1 & E1 & K1).
  rewrite (bind_ok _ _ _ _ _ E1).
  assert (H2 : hoare (at_render (self s) c true false)
                 (modify_this (fun b => with_task_cnt (f (task_cnt_ b)) b) ;;
                  render rendering ;;
                  b <- this ;;
                  when (Detail.is_ended (task_cnt_ b)) (suspend rendering))
                 (fun _ => at_render (self s) (f c)
                             (negb (Detail.is_ended (f c)))
                             (Detail.is_ended (f c)))).
  { eapply hoare_bind with (R := fun _ => at_render (self s) (f c) true false).
    { apply hoare_modify_this. intros s0 (G1 & G2 & G3 & G4 & G5 & G6 & G7).
      repeat split; try assumption.
      cbn [self task_cnt_ with_task_cnt]. now rewrite G2. }
    intros ?; cbv beta.
    eapply hoare_bind; [apply hoare_render_at | intros ?; cbv beta].
    eapply hoare_bind; [apply hoare_this | intros b; cbv beta].
    intros s0 [(d & G & Hdd) ->].
    pose proof G as (_ & G2 & _). rewrite G2.
    destruct (Detail.is_ended (f c)) eqn:Ee; cbn [when negb].
    - exact (hoare_suspend_at (self s) (f c) d Ee s0 G).
    - exists tt, s0. split; [reflexivity |].
      destruct d; [specialize (Hdd eq_refl); discriminate | exact G]. }
  destruct (H2 s1 K1) as ([] & s' & E2 & K2).
  exists s'. split; assumption.
Qed.

(** One call of [update], [update( n )] or [reset] on a bar whose step
    fits in its total. *)
Lemma closing_call T S tty c s :
  1 <= S <= T -> T < Detail.SizeT_modulus ->
  is_setter c = false ->
  fits T S (self s) /\ driver_tracks (self s) /\ closing_inv s
  /\ in_tty_ (self s) = tty ->
  fits T S (self (exec (run_call c) s)) /\
  driver_tracks (self (exec (run_call c) s)) /\
  closing_inv (exec (run_call c) s) /\
  in_tty_ (self (exec (run_call c) s)) = tty.
Proof.
  intros HS HT Hc (Hfit & Htr & Hcl & Htty).
  pose proof Hfit as (Ft & Fs & Fc & Fi).
  assert (Hadv : forall f,
            is_advance c = true ->
            run_call c
            = do_update (modify_this
                           (fun b => with_task_cnt (f (task_cnt_ b)) b)) ->
            fits T S (self (exec (run_call c) s)) /\
            driver_tracks (self (exec (run_call c) s)) /\
            closing_inv (exec (run_call c) s) /\
            in_tty_ (self (exec (run_call c) s)) = tty).
  { intros f Hadv Erun.
    pose proof (fits_advance T S c s ltac:(lia) ltac:(lia) HT Hadv Hfit)
      as Hfit'.
    split; [exact Hfit' |]. unfold exec in *. rewrite Erun in *.
    destruct (is_done (self s)) eqn:Hd.
    { rewrite do_update_full by exact Hd. cbn [snd]. auto. }
    assert (He : Detail.is_ended (task_cnt_ (self s)) = false).
    { unfold is_done, is_updated in Hd.
      destruct (update_flag_ (self s)) eqn:Hu; [exact Hd |].
      destruct (Fi eq_refl) as [F0 _].
      unfold Detail.is_ended. rewrite Ft, Fs, F0.
      destruct (Z.leb_spec T 0); [lia |].
      rewrite Z.sub_0_r, wrap_small by (unfold Detail.in_SizeT; lia).
      apply Z.ltb_ge. lia. }
    destruct (do_update_closing f s He ltac:(lia) Htr Hcl)
      as (s' & E & K1 & K2 & K3 & K4 & K5 & K6 & K7).
    rewrite E. cbn [snd].
    pose proof (in_tty_style_of _ _ K1) as Et.
    split; [| split].
    - unfold driver_tracks, is_updated. rewrite K3, K4, K2. reflexivity.
    - intros _. rewrite K6, K2. split; [reflexivity |].
      intros Hd1 Ht1. apply K7; [exact Hd1 | congruence].
    - congruence. }
  destruct c; try discriminate Hc.
  - apply (Hadv Detail.pre_increment); reflexivity.
  - apply (Hadv (fun k => Detail.add_assign k next_step)); reflexivity.
  - unfold exec. cbn [run_call].
    destruct (update_flag_ (self s)) eqn:Hu.
    + destruct (reset_tracks s Hu) as (s' & E & H1 & H2 & H3 & H4 & _).
      rewrite E. cbn [snd].
      split; [| split; [| split]].
      * unfold fits. rewrite H2, H3, H4.
        cbn [Detail.assign_value Detail.num_tasks_ Detail.step_
               Detail.current_].
        repeat split; try assumption; try reflexivity; lia.
      * unfold driver_tracks, is_updated. rewrite H3, H4. reflexivity.
      * intros Hf. congruence.
      * rewrite (in_tty_style_of _ _ H1). exact Htty.
    + rewrite reset_idle by exact Hu. cbn [snd]. auto.
Qed.

(** X21: a bar that finishes closes its line.  For a bar constructed with
    [1 <= step <= total], under any value of the statics, and driven by
    any sequence of [update()], [update( n )] and [reset()] (no other bar
    touching the statics in between): while the bar is started the static
    [done_flag] tells whether its counter has ended, and when the bar is
    done on a terminal, the last frame it has printed ends with the
    newline; the throttle of [render()] cannot swallow it, [suspend()]
    rendering once more. *)
Theorem X21_finished_bar_has_closed_its_line (g : globals) (T S : Z)
    (tty : bool) (cs : list call) :
  1 <= S <= T -> T < Detail.SizeT_modulus ->
  forallb (fun c => negb (is_setter c)) cs = true ->
  (is_updated (self (run_calls cs (mk_ctx g (pgbar_new T S tty)))) = true ->
   done_flag (statics (run_calls cs (mk_ctx g (pgbar_new T S tty))))
   = Detail.is_ended
       (task_cnt_ (self (run_calls cs (mk_ctx g (pgbar_new T S tty)))))) /\
  (is_done (self (run_calls cs (mk_ctx g (pgbar_new T S tty)))) = true ->
   tty = true ->
   closed (stream_ (self (run_calls cs (mk_ctx g (pgbar_new T S tty)))))).
Proof.
  intros HS HT Hcs.
  assert (Hinv : forall s,
            fits T S (self s) /\ driver_tracks (self s) /\ closing_inv s
            /\ in_tty_ (self s) = tty ->
            fits T S (self (run_calls cs s)) /\
            driver_tracks (self (run_calls cs s)) /\
            closing_inv (run_calls cs s) /\
            in_tty_ (self (run_calls cs s)) = tty).
  { induction cs as [| c cs IH]; intros s Hs; cbn [run_calls].
    - exact Hs.
    - cbn [forallb] in Hcs. apply andb_prop in Hcs as [Hc Hcs].
      apply IH; [exact Hcs |].
      apply closing_call; try assumption.
      now apply negb_true_iff. }
  destruct (Hinv (mk_ctx g (pgbar_new T S tty))) as (_ & _ & Hcl & Htty).
  { split; [| split; [| split]].
    - unfold fits. cbn [self]. rewrite task_cnt_pgbar_new.
      cbn [Detail.num_tasks_ Detail.step_ Detail.current_].
      repeat split; try reflexivity; lia.
    - apply driver_tracks_new.
    - intros Hf. discriminate Hf.
    - reflexivity. }
  set (s := run_calls cs (mk_ctx g (pgbar_new T S tty))) in *.
  split.
  - intros Hu. apply Hcl. exact Hu.
  - intros Hd Ht. unfold is_done in Hd. apply andb_prop in Hd as [Hu He].
    destruct (Hcl Hu) as [H1 H2]. apply H2; congruence.
Qed.

Lemma X21_finished_bar_has_closed_its_line_witness :
  (is_updated
     (self (run_calls [CUpdate; CReset; CUpdateN 7]
              (mk_ctx (globals_init clock_1ms) (pgbar_new 4 1 true))))
   = true ->
   done_flag
     (statics (run_calls [CUpdate; CReset; CUpdateN 7]
                 (mk_ctx (globals_init clock_1ms) (pgbar_new 4 1 true))))
   = Detail.is_ended
       (task_cnt_
          (self (run_calls [CUpdate; CReset; CUpdateN 7]
                   (mk_ctx (globals_init clock_1ms)
                      (pgbar_new 4 1 true)))))) /\
  (is_done
     (self (run_calls [CUpdate; CReset; CUpdateN 7]
              (mk_ctx (globals_init clock_1ms) (pgbar_new 4 1 true))))
   = true ->
   true = true ->
   closed
     (stream_
        (self (run_calls [CUpdate; CReset; CUpdateN 7]
                 (mk_ctx (globals_init clock_1ms) (pgbar_new 4 1 true)))))).
Proof.
  apply (X21_finished_bar_has_closed_its_line
           (globals_init clock_1ms) 4 1 true [CUpdate; CReset; CUpdateN 7]).
  - lia.
  - vm_compute. reflexivity.
  - reflexivity.
Defined.

(* ================================================================== *)
(** * The erase prefix of the frames a bar prints *)

Lemma composed_erase b ctrller f :
  composed b ctrller f ->
  fst f = (if is_updated b
           then Str.fill (total_length b ctrller) backspace
           else EmptyString).
Proof.
  intros (p & d & i & avg & line & avg' & E & _).
  destruct (generate_barcode_erase b ctrller p d i avg)
    as (erase & line0 & avg0 & E0 & Ee & _).
  rewrite E0 in E. injection E as E1 _ _. congruence.
Qed.

(** The local [total_length] written out. *)
Lemma total_length_erase_width b ctrller :
  erase_fits b -> total_length b ctrller = erase_width b ctrller.
Proof.
  intros (H1 & H2 & H3).
  pose proof (size_nonneg (startpoint_ b)) as N1.
  pose proof (size_nonneg (endpoint_ b)) as N2.
  unfold total_length, erase_width.
  destruct (Z.testbit ctrller bit_index.bar);
    destruct (Z.eqb_spec (status_length_ b) 0) as [E | E]; cbn [negb];
    rewrite ?wrap_small; unfold Detail.in_SizeT;
    rewrite ?wrap_small; unfold Detail.in_SizeT; lia.
Qed.

Lemma total_length_style_of b b0 ctrller :
  style_of b = style_of b0 -> total_length b ctrller = total_length b0 ctrller.
Proof.
  intros E.
  change (total_length (style_of b) ctrller
          = total_length (style_of b0) ctrller).
  now rewrite E.
Qed.

Lemma option_style_of b b0 : style_of b = style_of b0 -> option_ b = option_ b0.
Proof.
  intros E. change (option_ (style_of b) = option_ (style_of b0)).
  now rewrite E.
Qed.

Lemma composed_later b0 b ctrller f :
  erase_fits b0 -> style_of b = style_of b0 -> update_flag_ b = true ->
  controller_of b ctrller -> composed b ctrller f ->
  later_frame b0 f.
Proof.
  intros Hfit Es Hu Hc Hf. exists ctrller.
  split; [unfold controller_of in *; rewrite <- (option_style_of _ _ Es);
          exact Hc |].
  split.
  - rewrite (composed_erase _ _ _ Hf). unfold is_updated. rewrite Hu.
    rewrite (total_length_style_of _ _ _ Es).
    rewrite (total_length_erase_width _ _ Hfit). reflexivity.
  - exists b. split; [exact Es |]. split; [exact Hu | exact Hf].
Qed.

Lemma composed_first b0 b f :
  style_of b = style_of b0 -> update_flag_ b = false ->
  composed b (option_ b) f ->
  first_frame b0 f.
Proof.
  intros Es Hu Hf. split.
  - rewrite (composed_erase _ _ _ Hf). unfold is_updated. rewrite Hu.
    reflexivity.
  - exists b. split; [exact Es |]. split; [exact Hu |].
    rewrite <- (option_style_of _ _ Es). exact Hf.
Qed.

(** ** The frames of [rendering] *)

Lemma hoare_call_generate_barcode_composed (J : pgbar -> Prop) ctrller
    num_per num_done interval :
  hoare (on_self J) (call_generate_barcode ctrller num_per num_done interval)
    (fun info =>
       on_self (fun b => J b /\ composed b ctrller info
                         /\ composed b ctrller (fst info, snd info ++ newline))).
Proof.
  intros s Hs. unfold call_generate_barcode.
  destruct (generate_barcode_some (self s) ctrller num_per num_done interval
              (rate_invoke_interval (statics s))) as (line & avg' & E).
  rewrite E. eexists _, _. split; [reflexivity |].
  unfold on_self. cbn [self fst snd].
  split; [exact Hs |].
  split; exists num_per, num_done, interval,
           (rate_invoke_interval (statics s)), line, avg';
    cbn [fst snd]; (split; [exact E |]); [left | right]; reflexivity.
Qed.

Lemma hoare_write_composed (J : pgbar -> Prop) b0 ctrller f :
  (forall b ctrller f, J b -> in_tty_ b = true ->
     controller_of b ctrller -> composed b ctrller f ->
     J (with_stream (stream_ b ++ [f])%list b)) ->
  in_tty_ b0 = true -> controller_of b0 ctrller ->
  hoare (on_self (fun b => (J b /\ b = b0) /\ composed b ctrller f))
    (write f) (fun _ => on_self J).
Proof.
  intros Hw Ht Hc. apply hoare_modify_this.
  intros s [[HJ Hb] Hf]. unfold on_self. cbn [self].
  apply (Hw _ ctrller); try assumption; rewrite Hb; assumption.
Qed.

(** [rendering] on a started bar: every frame it writes is composed by
    [generate_barcode] for the bar, under [option_] or under [option_]
    without its bar bit. *)
Lemma hoare_rendering_started (J : pgbar -> Prop) :
  (forall b ctrller f, J b -> in_tty_ b = true ->
     controller_of b ctrller -> composed b ctrller f ->
     J (with_stream (stream_ b ++ [f])%list b)) ->
  (forall b, J b -> update_flag_ b = true) ->
  hoare (on_self J) rendering (fun _ => on_self J).
Proof.
  intros Hw Hu. unfold rendering.
  eapply hoare_bind; [apply hoare_this | intros b].
  eapply hoare_bind with (R := fun _ => on_self J).
  { apply hoare_when.
    - intros Hb s [Hs ->]. exfalso. unfold is_updated in Hb.
      rewrite (Hu _ Hs) in Hb. discriminate.
    - intros _ s [Hs _]. exact Hs. }
  intros _. hseq.
  match goal with |- hoare _ (if ?c then _ else _) _ => destruct c end.
  { apply hoare_ret. auto. }
  eapply hoare_bind; [apply hoare_this | intros b2; cbv beta].
  eapply hoare_bind with (R := fun _ => on_self J).
  { apply hoare_when; [intros Ht | intros _ s [Hs _]; exact Hs].
    eapply hoare_conseq
      with (P' := on_self (fun b' => J b' /\ b' = b2))
           (Q' := fun _ => on_self J);
      [| intros s [Hs ->]; split; [exact Hs | reflexivity] | auto].
    hseq. hseq.
    eapply hoare_bind
      with (R := fun _ => on_self (fun b' => J b' /\ b' = b2)).
    { match goal with
      | |- context [Detail.neq_value ?c 0] =>
          destruct (Detail.neq_value c 0) eqn:E
      end; apply hoare_checked_div; [| discriminate].
      unfold Detail.neq_value, Detail.eq_value in E. unfold Detail.deref.
      intros E0. rewrite E0 in E. discriminate. }
    intros interval. hseq.
    eapply hoare_bind
      with (R := fun controller s =>
                   on_self (fun b' => J b' /\ b' = b2) s
                   /\ controller_of b2 controller).
    { match goal with |- hoare _ (if ?c then _ else _) _ => destruct c end.
      - apply hoare_ret. intros s Hs. split; [exact Hs | now right].
      - hseq. apply hoare_ret. intros s Hs. split; [exact Hs | now left]. }
    intros controller. apply hoare_pure. intros Hc.
    eapply hoare_bind; [apply hoare_call_generate_barcode_composed |].
    intros info; cbv beta.
    eapply hoare_conseq;
      [apply (hoare_write_composed J b2 controller info Hw Ht Hc) | | auto].
    intros s (H1 & H2 & _). split; assumption. }
  intros _.
  eapply hoare_bind; [apply hoare_this | intros b3; cbv beta].
  apply hoare_when; [intros _ | intros _ s [Hs _]; exact Hs].
  eapply hoare_bind with (R := fun _ => on_self J).
  { apply hoare_when; [intros Ht | intros _ s [Hs _]; exact Hs].
    eapply hoare_conseq
      with (P' := on_self (fun b' => J b' /\ b' = b3))
           (Q' := fun _ => on_self J);
      [| intros s [Hs ->]; split; [exact Hs | reflexivity] | auto].
    hseq.
    eapply hoare_bind; [apply hoare_call_generate_barcode_composed |].
    intros info; cbv beta.
    eapply hoare_conseq;
      [apply (hoare_write_composed J b3 (option_ b3)
                (fst info, snd info ++ newline) Hw Ht); now left
      | | auto].
    intros s (H1 & _ & H2). split; assumption. }
  intros _. apply hoare_modify_statics.
Qed.

(** The first render of a bar: on a terminal it writes one frame,
    composed before the bar is started; what follows is the render of a
    started bar. *)
Lemma rendering_unstarted_frames s :
  update_flag_ (self s) = false ->
  exists s1 firsts,
    rendering s = rendering s1 /\
    core_of (self s1) = core_of (self s) /\
    update_flag_ (self s1) = true /\
    stream_ (self s1) = (stream_ (self s) ++ firsts)%list /\
    (if in_tty_ (self s)
     then exists f0,
            firsts = [f0] /\ composed (self s) (option_ (self s)) f0
     else firsts = []).
Proof.
  intros Hu.
  set (b0 := self s).
  set (R := fun b => exists firsts,
              b = with_stream (stream_ b0 ++ firsts)%list b0 /\
              (if in_tty_ b0
               then exists f0, firsts = [f0] /\ composed b0 (option_ b0) f0
               else firsts = [])).
  assert (H : hoare (fun s0 => s0 = s)
            (modify_statics (with_done_flag false) ;;
             modify_statics (with_last_bar_progress 0%Q) ;;
             when (in_tty_ b0)
               (modify_statics (with_invoke_interval 0) ;;
                t <- now ;;
                modify_statics (with_first_invoked t) ;;
                info <- call_generate_barcode (option_ b0) 0%Q 0 0 ;;
                write info) ;;
             modify_this (with_update_flag true))
            (fun _ => on_self
                        (fun b => exists b', R b'
                                    /\ b = with_update_flag true b'))).
  { eapply hoare_bind with (R := fun _ => on_self (fun b => b = b0)).
    { intros s0 ->. eexists _, _. split; [reflexivity |]. reflexivity. }
    intros _. hseq.
    eapply hoare_bind with (R := fun _ => on_self R).
    - apply hoare_when.
      + intros Ht. hseq. hseq. hseq.
        eapply hoare_bind; [apply hoare_call_generate_barcode_composed |].
        intros info; cbv beta.
        apply hoare_modify_this. intros s0 (Hb & Hf & _).
        unfold on_self, R. cbn [self]. rewrite Hb in *.
        exists [info]. split; [reflexivity |].
        rewrite Ht. exists info. split; [reflexivity | exact Hf].
      + intros Ht s0 Hs. unfold on_self, R in *. rewrite Hs.
        exists []. rewrite Ht. split; [| reflexivity].
        rewrite app_nil_r. subst b0. now destruct (self s).
    - intros _. apply hoare_modify_this. intros s0 Hs.
      unfold on_self in *. cbn [self]. exists (self s0).
      split; [exact Hs | reflexivity]. }
  destruct (H s eq_refl) as ([] & s1 & E & b' & (firsts & Eb & Hf) & E1).
  exists s1, firsts.
  assert (Hu1 : update_flag_ (self s1) = true) by (rewrite E1; reflexivity).
  split; [| split; [| split; [| split]]].
  - unfold rendering. rewrite !bind_this. unfold is_updated.
    rewrite Hu, Hu1. cbn [negb when]. fold b0.
    rewrite (bind_ok _ _ _ _ _ E), bind_ret. reflexivity.
  - rewrite E1, Eb. reflexivity.
  - exact Hu1.
  - rewrite E1, Eb. reflexivity.
  - exact Hf.
Qed.

(** ** The frames of the driver *)

Lemma hoare_task_started (J : pgbar -> Prop) :
  frame_stable J -> hoare (on_self J) rendering (fun _ => on_self J).
Proof. intros (Hw & Hu & _). apply hoare_rendering_started; assumption. Qed.

(** [render()] of a started bar. *)
Lemma hoare_render_started (J : pgbar -> Prop) a :
  frame_stable J ->
  hoare (on_self (fun b => J b /\ active_flag_ (rndrer_ b) = a))
    (render rendering)
    (fun _ => on_self (fun b => J b /\ active_flag_ (rndrer_ b) = a)).
Proof.
  intros HJ. pose proof HJ as (Hw & Hu & Hr).
  set (Ja := fun b => J b /\ active_flag_ (rndrer_ b) = a).
  intros s Hs. unfold render. rewrite bind_this.
  destruct (active_flag_ (rndrer_ (self s))) eqn:Ha; cbn [negb].
  - assert (H : forall last, hoare (on_self Ja)
                 (current_time <- now ;;
                  if current_time - last <? Detail.reflash_rate then ret tt
                  else set_last_invoke current_time ;; rendering)
                 (fun _ => on_self Ja)).
    { intros last. hseq.
      match goal with |- hoare _ (if ?c then _ else _) _ => destruct c end.
      - apply hoare_ret. auto.
      - eapply hoare_bind with (R := fun _ => on_self Ja).
        { apply hoare_modify_this. intros s0 [H1 H2].
          split; [apply Hr; exact H1 | exact H2]. }
        intros ?; cbv beta.
        apply (hoare_rendering_started Ja).
        + intros b ctrller f [H1 H2] Ht Hc Hf.
          split; [apply (Hw _ ctrller); assumption | exact H2].
        + intros b [H1 _]. apply Hu. exact H1. }
    exact (H _ s Hs).
  - exists tt, s. split; [reflexivity | exact Hs].
Qed.

(** [suspend()] of a started bar: the driver is parked. *)
Lemma hoare_suspend_started (J : pgbar -> Prop) :
  frame_stable J ->
  hoare (on_self J) (suspend rendering)
    (fun _ => on_self (fun b => J b /\ active_flag_ (rndrer_ b) = false)).
Proof.
  intros HJ. pose proof HJ as (_ & _ & Hr).
  intros s Hs. unfold suspend. rewrite bind_this.
  destruct (active_flag_ (rndrer_ (self s))) eqn:Ha; cbn [negb].
  - assert (H : hoare (on_self J) (rendering ;; set_active_flag false)
                 (fun _ => on_self
                    (fun b => J b /\ active_flag_ (rndrer_ b) = false))).
    { eapply hoare_bind; [apply hoare_task_started; exact HJ |].
      intros ?; cbv beta.
      apply hoare_modify_this. intros s0 H1.
      split; [apply Hr; exact H1 | reflexivity]. }
    exact (H s Hs).
  - exists tt, s. split; [reflexivity |]. split; assumption.
Qed.

(** ** The frames of one call *)

Section FramesOfACall.
Variable b0 : pgbar.
Hypothesis Hfit : erase_fits b0.
Variable F : list frame -> Prop.
Hypothesis F_later : forall more f,
  F more -> in_tty_ b0 = true -> later_frame b0 f -> F (more ++ [f])%list.

Lemma writing_stable c : frame_stable (writing b0 F c).
Proof.
  split; [| split].
  - intros b ctrller f (H1 & H2 & H3 & more & E & Hm & HF) Ht Hc Hf.
    pose proof (in_tty_style_of _ _ H1) as Et.
    split; [exact H1 |]. split; [exact H2 |]. split; [exact H3 |].
    exists (more ++ [f])%list. split; [| split].
    + cbn [stream_ with_stream]. rewrite E. now rewrite app_assoc.
    + intros Hn. congruence.
    + apply F_later; [exact HF | congruence |].
      apply (composed_later b0 b ctrller); assumption.
  - intros b (_ & _ & H3 & _). exact H3.
  - intros b v (H1 & H2 & H3 & H4). repeat split; assumption.
Qed.

(** What follows the start of the bar in a call of [update]. *)
Lemma hoare_advance_started
    (f : Detail.counter_iterator -> Detail.counter_iterator) c :
  hoare (on_self (fun b => writing b0 F c b
                           /\ active_flag_ (rndrer_ b) = true))
    (modify_this (fun b => with_task_cnt (f (task_cnt_ b)) b) ;;
     render rendering ;;
     b <- this ;;
     when (Detail.is_ended (task_cnt_ b)) (suspend rendering))
    (fun _ => on_self (writing b0 F (f c))).
Proof.
  eapply hoare_bind
    with (R := fun _ => on_self
                 (fun b => writing b0 F (f c) b
                           /\ active_flag_ (rndrer_ b) = true)).
  { apply hoare_modify_this. intros s0 ((H1 & H2 & H3 & H4) & H5).
    split; [| exact H5]. split; [exact H1 |].
    split; [cbn [self task_cnt_ with_task_cnt]; now rewrite H2 |].
    split; [exact H3 | exact H4]. }
  intros ?; cbv beta.
  eapply hoare_bind; [apply hoare_render_started, writing_stable |].
  intros ?; cbv beta.
  eapply hoare_bind; [apply hoare_this | intros b; cbv beta].
  apply hoare_when.
  - intros _.
    eapply hoare_conseq;
      [apply hoare_suspend_started, (writing_stable (f c)) | |].
    + intros s0 [[H1 _] _]. exact H1.
    + cbv beta. intros _ s0 [H1 _]. exact H1.
  - intros _ s0 [[H1 _] _]. exact H1.
Qed.
End FramesOfACall.

Lemma later_frames_later b0 more f :
  later_frames b0 more -> in_tty_ b0 = true -> later_frame b0 f ->
  later_frames b0 (more ++ [f])%list.
Proof.
  intros H _ Hf. apply Forall_app. split; [exact H |].
  constructor; [exact Hf | constructor].
Qed.

Lemma first_and_later_frames_later b0 more f :
  first_and_later_frames b0 more -> in_tty_ b0 = true -> later_frame b0 f ->
  first_and_later_frames b0 (more ++ [f])%list.
Proof.
  intros H Ht Hf _. destruct (H Ht) as (f0 & rest & -> & H0 & Hrest).
  exists f0, (rest ++ [f])%list. split; [reflexivity |].
  split; [exact H0 |]. apply Forall_app. split; [exact Hrest |].
  constructor; [exact Hf | constructor].
Qed.

(** [active()] of the parked driver of a bar that has not started: on a
    terminal the first frame is printed, and frames of the started bar
    after it. *)
Lemma active_frames s :
  erase_fits (self s) ->
  update_flag_ (self s) = false ->
  active_flag_ (rndrer_ (self s)) = false ->
  exists s',
    active rendering s = (Ok tt, s') /\
    writing (self s) (first_and_later_frames (self s)) (task_cnt_ (self s))
      (self s') /\
    active_flag_ (rndrer_ (self s')) = true.
Proof.
  intros Hfit Hu Ha. unfold active. rewrite bind_this. rewrite Ha.
  unfold bind at 1, now at 1.
  unfold bind at 1, set_last_invoke at 1, modify_this at 1.
  cbn [self statics].
  set (s0 := mk_ctx (with_reads (S (reads (statics s))) (statics s))
               (with_rndrer
                  (mk_singlethread (active_flag_ (rndrer_ (self s)))
                     (clock (statics s) (reads (statics s))))
                  (self s))).
  destruct (rendering_unstarted_frames s0 Hu)
    as (s1 & firsts & E1 & K1 & K2 & K3 & K4).
  set (J := writing (self s) (first_and_later_frames (self s))
              (task_cnt_ (self s))).
  assert (HJ : frame_stable J).
  { apply writing_stable; [exact Hfit |].
    apply first_and_later_frames_later. }
  assert (H1 : J (self s1)).
  { split; [| split; [| split]].
    - rewrite (style_of_core_of _ _ K1). reflexivity.
    - rewrite (task_cnt_core_of _ _ K1). reflexivity.
    - exact K2.
    - exists firsts. split; [exact K3 |].
      change (in_tty_ (self s0)) with (in_tty_ (self s)) in K4.
      destruct (in_tty_ (self s)) eqn:Ht.
      + destruct K4 as (f0 & -> & Hf). split; [discriminate |].
        intros _. exists f0, []. split; [reflexivity |].
        split; [| constructor].
        apply (composed_first (self s) (self s0)); [reflexivity | exact Hu |].
        exact Hf.
      + split; [intros _; exact K4 | intros Ht'; congruence]. }
  destruct (hoare_task_started J HJ s1 H1) as ([] & s' & E & H').
  rewrite E in E1. rewrite (bind_ok _ _ _ _ _ E1).
  eexists. split; [reflexivity |]. cbn [self].
  split; [| reflexivity].
  destruct HJ as (_ & _ & Hr). apply Hr. exact H'.
Qed.

(** A call of [update] that passes the two checks: the frames it prints. *)
Lemma do_update_frames (f : Detail.counter_iterator -> Detail.counter_iterator)
    s :
  erase_fits (self s) ->
  is_done (self s) = false ->
  Detail.num_tasks_ (task_cnt_ (self s)) <> 0 ->
  driver_tracks (self s) ->
  exists s' more,
    do_update (modify_this (fun b => with_task_cnt (f (task_cnt_ b)) b)) s
    = (Ok tt, s') /\
    stream_ (self s') = (stream_ (self s) ++ more)%list /\
    (in_tty_ (self s) = false -> more = []) /\
    erase_prefixes (self s) more /\
    (in_tty_ (self s) = true -> update_flag_ (self s) = false -> more <> []).
Proof.
  intros Hfit Hd Hn Ha.
  unfold do_update. rewrite bind_this. rewrite Hd.
  unfold Detail.eq_value, Detail.end_. cbn [Detail.current_].
  destruct (Z.eqb_spec (Detail.num_tasks_ (task_cnt_ (self s))) 0) as [E | _];
    [contradiction |].
  set (c0 := task_cnt_ (self s)).
  unfold driver_tracks, is_done, is_updated in Ha, Hd. unfold is_updated.
  destruct (update_flag_ (self s)) eqn:Hu; cbn [negb when andb] in *.
  - (* the bar had started *)
    rewrite bind_ret.
    destruct (hoare_advance_started (self s) Hfit (later_frames (self s))
                (later_frames_later (self s)) f c0 s)
      as ([] & s' & E & (_ & _ & _ & more & Em & Hm & HF)).
    { split.
      - split; [reflexivity |]. split; [reflexivity |]. split; [exact Hu |].
        exists []. split; [now rewrite app_nil_r |].
        split; [reflexivity | constructor].
      - rewrite Ha, Hd. reflexivity. }
    exists s', more. split; [exact E |]. split; [exact Em |].
    split; [exact Hm |]. split; [| discriminate].
    unfold erase_prefixes, is_updated. rewrite Hu.
    destruct more as [| f0 rest]; [exact I |].
    inversion HF; subst. split; assumption.
  - (* the first call *)
    destruct (active_frames s Hfit Hu Ha) as (s1 & E1 & H1 & A1).
    rewrite (bind_ok _ _ _ _ _ E1).
    destruct (hoare_advance_started (self s) Hfit
                (first_and_later_frames (self s))
                (first_and_later_frames_later (self s)) f c0 s1)
      as ([] & s' & E & (_ & _ & _ & more & Em & Hm & HF)).
    { split; [exact H1 | exact A1]. }
    exists s', more. split; [exact E |]. split; [exact Em |].
    split; [exact Hm |].
    unfold erase_prefixes, is_updated. rewrite Hu.
    destruct (in_tty_ (self s)) eqn:Ht.
    + destruct (HF Ht) as (f0 & rest & -> & H0 & Hrest).
      split; [split; assumption | discriminate].
    + rewrite Hm by reflexivity. split; [exact I | discriminate].
Qed.

(** [reset()] of a started bar: the frames it prints. *)
Lemma reset_frames s :
  erase_fits (self s) ->
  update_flag_ (self s) = true ->
  exists s' more,
    reset s = (Ok tt, s') /\
    stream_ (self s') = (stream_ (self s) ++ more)%list /\
    (in_tty_ (self s) = false -> more = []) /\
    erase_prefixes (self s) more.
Proof.
  intros Hfit Hu. unfold reset. rewrite bind_this.
  unfold is_updated. rewrite Hu. cbn [negb].
  set (c := Detail.assign_value (task_cnt_ (self s)) 0).
  set (J := writing (self s) (later_frames (self s)) c).
  assert (HJ : frame_stable J).
  { apply writing_stable; [exact Hfit | apply later_frames_later]. }
  assert (H : hoare (fun s0 => s0 = s)
            (modify_this
               (fun b => with_task_cnt (Detail.assign_value (task_cnt_ b) 0) b) ;;
             suspend rendering ;;
             modify_this (with_update_flag false))
            (fun _ => on_self
               (fun b => exists b', J b' /\ b = with_update_flag false b'))).
  { eapply hoare_bind with (R := fun _ => on_self J).
    { apply hoare_modify_this. intros s0 ->.
      split; [reflexivity |]. split; [reflexivity |]. split; [exact Hu |].
      exists []. split; [cbn [self stream_ with_task_cnt]; now rewrite app_nil_r |].
      split; [reflexivity | constructor]. }
    intros ?; cbv beta.
    eapply hoare_bind; [apply hoare_suspend_started; exact HJ |].
    intros ?; cbv beta.
    apply hoare_modify_this. intros s0 [H1 _].
    exists (self s0). split; [exact H1 | reflexivity]. }
  destruct (H s eq_refl)
    as ([] & s' & E & b' & (_ & _ & _ & more & Em & Hm & HF) & Eb).
  exists s', more. split; [exact E |].
  split; [rewrite Eb; exact Em |]. split; [exact Hm |].
  unfold erase_prefixes, is_updated. rewrite Hu.
  destruct more as [| f0 rest]; [exact I |].
  inversion HF; subst. split; assumption.
Qed.

(** ** The frames of a bar constructed by [pgbar( total, step )] *)

(** The status length of the default style: four fields, their three
    separators and the two captions. *)
Lemma status_length_new T S tty :
  1 <= T < Detail.SizeT_modulus ->
  status_length_ (pgbar_new T S tty) = 42 + 2 * Str.size (Str.to_string T).
Proof.
  intros HT.
  pose proof (size_total_digits T HT) as Hd.
  unfold pgbar_new, init_length.
  cbn [status_length_ with_status_length].
  unfold status_length_of.
  cbn [option_ cnt_length_ lstatus_ rstatus_ with_cnt_length with_task_cnt
       with_rstatus with_lstatus with_endpoint with_startpoint with_done_ch
       with_todo_ch with_status_col with_done_col with_todo_col pgbar_stream
       task_cnt_].
  unfold log10_plus_one, Detail.deref, Detail.end_, Detail.assign_counter,
    Detail.counter_new.
  cbn [Detail.current_ Detail.num_tasks_].
  change (Z.testbit Style.entire bit_index.per) with true.
  change (Z.testbit Style.entire bit_index.cnt) with true.
  change (Z.testbit Style.entire bit_index.rate) with true.
  change (Z.testbit Style.entire bit_index.timer) with true.
  cbn [bool_to_Z].
  change ratio_len with 7. change rate_len with 10. change time_len with 11.
  change (Str.size division) with 3.
  change (Str.size "[ " + Str.size " ]") with 4.
  change (1 <? 1 + 1 + 1 + 1) with true. cbv iota.
  destruct (Z.eqb_spec T 0) as [E | _]; [lia |].
  set (D := Str.size (Str.to_string T)) in *.
  repeat match goal with
         | |- context [Detail.wrap ?x] =>
             rewrite (wrap_small x)
               by (unfold Detail.in_SizeT, Detail.SizeT_modulus; lia)
         end.
  destruct (Z.eqb_spec (7 + (D * 2 + 1) + 10 + 11) 0); cbn [negb]; lia.
Qed.

Lemma erase_fits_new T S tty :
  1 <= T < Detail.SizeT_modulus -> erase_fits (pgbar_new T S tty).
Proof.
  intros HT. pose proof (size_total_digits T HT) as Hd.
  unfold erase_fits. rewrite (status_length_new T S tty HT).
  change (bar_length_ (pgbar_new T S tty)) with 30.
  change (Str.size (startpoint_ (pgbar_new T S tty))) with 1.
  change (Str.size (endpoint_ (pgbar_new T S tty))) with 1.
  unfold Detail.SizeT_modulus. lia.
Qed.

Lemma erase_fits_style_of b b0 :
  style_of b = style_of b0 -> erase_fits b0 -> erase_fits b.
Proof.
  intros E H. change (erase_fits (style_of b)).
  rewrite E. exact H.
Qed.

(** What a call of [update], [update( n )] or [reset] keeps of a bar
    whose step fits in its total. *)
Lemma styled_call T S sigma c s :
  1 <= S <= T -> T < Detail.SizeT_modulus ->
  is_setter c = false ->
  fits T S (self s) /\ driver_tracks (self s) /\ style_of (self s) = sigma ->
  fits T S (self (exec (run_call c) s)) /\
  driver_tracks (self (exec (run_call c) s)) /\
  style_of (self (exec (run_call c) s)) = sigma.
Proof.
  intros HS HT Hc (Hfit & Htr & Hst).
  pose proof Hfit as (Ft & Fs & Fc & Fi).
  assert (Hadv : forall f,
            is_advance c = true ->
            run_call c
            = do_update (modify_this
                           (fun b => with_task_cnt (f (task_cnt_ b)) b)) ->
            fits T S (self (exec (run_call c) s)) /\
            driver_tracks (self (exec (run_call c) s)) /\
            style_of (self (exec (run_call c) s)) = sigma).
  { intros f Hadv Erun.
    pose proof (fits_advance T S c s ltac:(lia) ltac:(lia) HT Hadv Hfit)
      as Hfit'.
    split; [exact Hfit' |]. unfold exec in *. rewrite Erun in *.
    destruct (is_done (self s)) eqn:Hd.
    { rewrite do_update_full by exact Hd. cbn [snd]. auto. }
    destruct (do_update_tracks f s Hd ltac:(lia) Htr)
      as (s' & E & H1 & H2 & H3 & H4 & _).
    rewrite E. cbn [snd]. split; [| congruence].
    unfold driver_tracks, is_updated. rewrite H4, H3, H2. reflexivity. }
  destruct c; try discriminate Hc.
  - apply (Hadv Detail.pre_increment); reflexivity.
  - apply (Hadv (fun k => Detail.add_assign k next_step)); reflexivity.
  - unfold exec. cbn [run_call].
    destruct (update_flag_ (self s)) eqn:Hu.
    + destruct (reset_tracks s Hu) as (s' & E & H1 & H2 & H3 & H4 & _).
      rewrite E. cbn [snd].
      split; [| split].
      * unfold fits. rewrite H2, H3, H4.
        cbn [Detail.assign_value Detail.num_tasks_ Detail.step_
               Detail.current_].
        repeat split; try assumption; try reflexivity; lia.
      * unfold driver_tracks, is_updated. rewrite H3, H4. reflexivity.
      * congruence.
    + rewrite reset_idle by exact Hu. cbn [snd]. auto.
Qed.

Lemma styled_run_calls T S sigma cs s :
  1 <= S <= T -> T < Detail.SizeT_modulus ->
  forallb (fun c => negb (is_setter c)) cs = true ->
  fits T S (self s) /\ driver_tracks (self s) /\ style_of (self s) = sigma ->
  fits T S (self (run_calls cs s)) /\
  driver_tracks (self (run_calls cs s)) /\
  style_of (self (run_calls cs s)) = sigma.
Proof.
  intros HS HT. revert s.
  induction cs as [| c cs IH]; intros s Hcs Hs; cbn [run_calls].
  - exact Hs.
  - cbn [forallb] in Hcs. apply andb_prop in Hcs as [Hc Hcs].
    apply IH; [exact Hcs |].
    apply styled_call; try assumption.
    now apply negb_true_iff.
Qed.

(** The frames of one call of [update], [update( n )] or [reset]. *)
Lemma call_frames T S c s :
  1 <= T ->
  is_setter c = false ->
  fits T S (self s) -> driver_tracks (self s) -> erase_fits (self s) ->
  exists more,
    stream_ (self (exec (run_call c) s)) = (stream_ (self s) ++ more)%list /\
    erase_prefixes (self s) more /\
    (in_tty_ (self s) = false -> more = []) /\
    (in_tty_ (self s) = true -> is_updated (self s) = false ->
     is_advance c = true -> more <> []).
Proof.
  intros HT Hc Hfit Htr Hef.
  pose proof Hfit as (Ft & Fs & Fc & Fi).
  assert (Hadv : forall f,
            run_call c
            = do_update (modify_this
                           (fun b => with_task_cnt (f (task_cnt_ b)) b)) ->
            exists more,
              stream_ (self (exec (run_call c) s))
              = (stream_ (self s) ++ more)%list /\
              erase_prefixes (self s) more /\
              (in_tty_ (self s) = false -> more = []) /\
              (in_tty_ (self s) = true -> is_updated (self s) = false ->
               is_advance c = true -> more <> [])).
  { intros f Erun. unfold exec. rewrite Erun.
    destruct (is_done (self s)) eqn:Hd.
    { rewrite do_update_full by exact Hd. cbn [snd]. exists [].
      split; [now rewrite app_nil_r |]. split; [exact I |].
      split; [reflexivity |]. intros _ Hu _. exfalso.
      unfold is_done in Hd. rewrite Hu in Hd. discriminate. }
    destruct (do_update_frames f s Hef Hd ltac:(lia) Htr)
      as (s' & more & E & H1 & H2 & H3 & H4).
    rewrite E. cbn [snd]. exists more.
    split; [exact H1 |]. split; [exact H3 |]. split; [exact H2 |].
    intros Ht Hu _. apply H4; assumption. }
  destruct c; try discriminate Hc.
  - apply (Hadv Detail.pre_increment); reflexivity.
  - apply (Hadv (fun k => Detail.add_assign k next_step)); reflexivity.
  - unfold exec. cbn [run_call].
    destruct (update_flag_ (self s)) eqn:Hu.
    + destruct (reset_frames s Hef Hu) as (s' & more & E & H1 & H2 & H3).
      rewrite E. cbn [snd]. exists more.
      split; [exact H1 |]. split; [exact H3 |]. split; [exact H2 |].
      discriminate.
    + rewrite reset_idle by exact Hu. cbn [snd]. exists [].
      split; [now rewrite app_nil_r |]. split; [exact I |].
      split; [reflexivity | discriminate].
Qed.

(** C3 (as the code has it): the erase prefix of a frame is made from the
    fields enabled in the frame being composed, not from the width of the
    frame before it.  For a bar constructed by [pgbar( total, step )] with
    [1 <= step <= total] and a total below [log10_exact_bound], under any
    value of the statics, and driven by any sequence of [update()],
    [update( n )] and [reset()]: the frames [more] that one more such
    call prints are appended to the output; the first of them, if the bar
    had not started, has an empty erase prefix; and every other one has
    exactly [erase_width] backspaces, that is
    [bar_length_ + |startpoint_| + |endpoint_| + 1] when the bar bit is
    set in the controller [generate_barcode] composes this very frame
    under, plus [status_length_], the controller being [option_] or
    [option_] without its bar bit.  Nothing is printed off a terminal,
    and on a terminal the first [update] of a bar prints. *)
Theorem C3_erase_prefix_of_current_frame (g : globals) (T S : Z)
    (tty : bool) (cs : list call) (c : call) :
  1 <= S <= T -> T < log10_exact_bound ->
  forallb (fun c => negb (is_setter c)) cs = true ->
  is_setter c = false ->
  exists more,
    stream_ (self (exec (run_call c)
                     (run_calls cs (mk_ctx g (pgbar_new T S tty)))))
    = (stream_ (self (run_calls cs (mk_ctx g (pgbar_new T S tty))))
       ++ more)%list /\
    erase_prefixes (self (run_calls cs (mk_ctx g (pgbar_new T S tty)))) more /\
    (tty = false -> more = []) /\
    (tty = true ->
     is_updated (self (run_calls cs (mk_ctx g (pgbar_new T S tty)))) = false ->
     is_advance c = true -> more <> []).
Proof.
  intros HS HT0 Hcs Hc.
  assert (HT : T < Detail.SizeT_modulus)
    by (unfold log10_exact_bound, Detail.SizeT_modulus in *; lia).
  destruct (styled_run_calls T S (style_of (pgbar_new T S tty)) cs
              (mk_ctx g (pgbar_new T S tty)) HS HT Hcs)
    as (Hfit & Htr & Hst).
  { split; [| split].
    - unfold fits. cbn [self]. rewrite task_cnt_pgbar_new.
      cbn [Detail.num_tasks_ Detail.step_ Detail.current_].
      repeat split; try reflexivity; lia.
    - apply driver_tracks_new.
    - reflexivity. }
  set (s := run_calls cs (mk_ctx g (pgbar_new T S tty))) in *.
  assert (Hef : erase_fits (self s)).
  { apply (erase_fits_style_of _ _ Hst). apply erase_fits_new. lia. }
  assert (Ht : in_tty_ (self s) = tty)
    by (rewrite (in_tty_style_of _ _ Hst); reflexivity).
  destruct (call_frames T S c s ltac:(lia) Hc Hfit Htr Hef)
    as (more & H1 & H2 & H3 & H4).
  exists more. split; [exact H1 |]. split; [exact H2 |].
  rewrite Ht in H3, H4. split; assumption.
Qed.

Lemma C3_erase_prefix_of_current_frame_witness :
  exists more,
    stream_ (self (exec (run_call CUpdate)
                     (run_calls [CUpdate]
                        (mk_ctx (globals_init clock_1ms)
                           (pgbar_new 4 1 true)))))
    = (stream_ (self (run_calls [CUpdate]
                        (mk_ctx (globals_init clock_1ms)
                           (pgbar_new 4 1 true))))
       ++ more)%list /\
    erase_prefixes (self (run_calls [CUpdate]
                            (mk_ctx (globals_init clock_1ms)
                               (pgbar_new 4 1 true)))) more /\
    (true = false -> more = []) /\
    (true = true ->
     is_updated (self (run_calls [CUpdate]
                         (mk_ctx (globals_init clock_1ms)
                            (pgbar_new 4 1 true)))) = false ->
     is_advance CUpdate = true -> more <> []).
Proof.
  apply (C3_erase_prefix_of_current_frame (globals_init clock_1ms) 4 1 true
           [CUpdate] CUpdate).
  - lia.
  - vm_compute. reflexivity.
  - reflexivity.
  - reflexivity.
Defined.
